(** * PivotPoint Podcast: budgeting, collection, enhancement and reassembly

    A shallow embedding of the pipeline core of the podcast generator
    (src/modules and src/utils) together with the properties the
    specification states about it.

    Conventions of the embedding:
    - a Python [str] is a list of Unicode code points ([N]); literals are
      written through [u], which maps an ASCII literal to its code points;
    - a Python [int] is a [Z]; [//] is [Z.div] (floor division);
    - article dictionaries are records whose keys are [option] fields,
      [d.get(k, fallback)] being [Dict.get (k d) fallback];
    - external collaborators (tokenizer, HTTP fetch, chat completion,
      speech synthesis, clock, storage failures) are explicit arguments or
      section variables, and every call to one is recorded in a trace. *)

From Stdlib Require Import ZArith Lia String Ascii DecimalString.
From Stdlib.Strings Require Import Byte.
From Stdlib Require SpecFloat.
From stdpp Require Import base option list sorting gmap.

Local Open Scope Z_scope.

(* ================================================================== *)
(** ** Python strings and built-ins *)
(* ================================================================== *)

Module Py.

Definition char := N.
Definition str := list N.

(** ASCII literal to code points. *)
Definition u (s : string) : str :=
  List.map N_of_ascii (list_ascii_of_string s).

Definition len {A} (l : list A) : Z := Z.of_nat (length l).

(** Truthiness of a string or a list: non-empty. *)
Definition truthy {A} (l : list A) : bool :=
  match l with [] => false | _ => true end.

Definition str_eqb (a b : str) : bool := bool_decide (a = b).

(** [x in l] for a list of strings. *)
Definition str_in (x : str) (l : list str) : bool :=
  existsb (str_eqb x) l.

(** [str.isspace] on one code point (Py_UNICODE_ISSPACE); also the class
    [\s] of [re] on [str] patterns and the characters [str.strip()] and
    [str.split()] remove. *)
Definition is_space (c : char) : bool :=
  ((9 <=? c) && (c <=? 13) || (28 <=? c) && (c <=? 32)
   || (c =? 133) || (c =? 160) || (c =? 5760)
   || (8192 <=? c) && (c <=? 8202)
   || (c =? 8232) || (c =? 8233) || (c =? 8239) || (c =? 8287)
   || (c =? 12288))%N.

Fixpoint lstrip (s : str) : str :=
  match s with
  | c :: s' => if is_space c then lstrip s' else s
  | [] => []
  end.

Definition rstrip (s : str) : str := rev (lstrip (rev s)).

(** [s.strip()] *)
Definition strip (s : str) : str := rstrip (lstrip s).

Fixpoint starts_with (p s : str) : bool :=
  match p, s with
  | [], _ => true
  | a :: p', b :: s' => (a =? b)%N && starts_with p' s'
  | _ :: _, [] => false
  end.

(** [needle in hay] for strings. *)
Fixpoint contains (needle hay : str) : bool :=
  starts_with needle hay ||
  match hay with
  | [] => false
  | _ :: hay' => contains needle hay'
  end.

(** [s.split(sep)] for a non-empty separator: [skip] counts the
    characters of a separator still to pass over, [cur] is the piece
    being read, reversed. *)
Fixpoint split_aux (sep : str) (skip : nat) (cur : str) (s : str) : list str :=
  match s with
  | [] => [rev cur]
  | c :: s' =>
      match skip with
      | S k => split_aux sep k cur s'
      | O =>
          if starts_with sep s
          then rev cur :: split_aux sep (Nat.pred (length sep)) [] s'
          else split_aux sep O (c :: cur) s'
      end
  end.

Definition split (sep : str) (s : str) : list str := split_aux sep O [] s.

(** [s.split()]: maximal runs of non-whitespace characters. *)
Fixpoint words_aux (cur : str) (s : str) : list str :=
  match s with
  | [] => if truthy cur then [rev cur] else []
  | c :: s' =>
      if is_space c
      then (if truthy cur then rev cur :: words_aux [] s' else words_aux [] s')
      else words_aux (c :: cur) s'
  end.

Definition words (s : str) : list str := words_aux [] s.

(** [l[:n]] *)
Definition slice_to {A} (n : Z) (l : list A) : list A :=
  if 0 <=? n then take (Z.to_nat n) l
  else take (length l - Z.to_nat (- n)) l.

(** [s.rfind(c)] for a one-character needle: index of the last
    occurrence, [-1] when there is none. *)
Fixpoint rfind_from (c : char) (i : Z) (s : str) : Z :=
  match s with
  | [] => -1
  | d :: s' =>
      let r := rfind_from c (i + 1) s' in
      if 0 <=? r then r else if (d =? c)%N then i else -1
  end.

Definition rfind (c : char) (s : str) : Z := rfind_from c 0 s.

(** [sep.join(parts)] *)
Fixpoint join (sep : str) (parts : list str) : str :=
  match parts with
  | [] => []
  | [p] => p
  | p :: rest => p ++ sep ++ join sep rest
  end.

(** [str.lower] restricted to ASCII text: only [A-Z] change. *)
Definition ascii_lower (s : str) : str :=
  List.map (fun c => if ((65 <=? c) && (c <=? 90))%N then (c + 32)%N else c) s.

(** [list.sort(key=...)]: a stable sort, here by insertion from the
    right; [x] goes before the first element whose key is not smaller. *)
Section Sort.
Context {A : Type} (key : A -> Z).

Fixpoint insert_by (x : A) (l : list A) : list A :=
  match l with
  | [] => [x]
  | y :: l' => if key x <=? key y then x :: l else y :: insert_by x l'
  end.

Definition sort_by (l : list A) : list A := foldr insert_by [] l.
End Sort.

(** [list.sort(key=..., reverse=True)] keeps the original order of
    elements with equal keys: a stable sort on the negated key. *)
Definition sort (A : Type) (key : A -> Z) (reverse : bool) (l : list A) : list A :=
  if reverse then sort_by (fun x => - key x) l else sort_by key l.
Arguments sort {A} key reverse l.

End Py.

Import Py.

(** Python floats are IEEE binary64 numbers, here the specification
    floats of the library with 53 bits of mantissa. *)
Module PyFloat.
Import SpecFloat.

(** [float(n)]: the nearest float, ties to even; an [int] beyond the
    range of the floats gives an infinity here, where Python raises
    [OverflowError]. *)
Definition of_int (n : Z) : spec_float := binary_normalize 53 1024 n 0 false.

Definition mul (x y : spec_float) : spec_float := SFmul 53 1024 x y.

(** The literal [0.7], [0x1.6666666666666p-1]. *)
Definition seven_tenths : spec_float := S754_finite false 6305039478318694 (-53).

(** [n > x] for an [int] and a float: the two are compared exactly. *)
Definition int_gt (n : Z) (x : spec_float) : bool :=
  match x with
  | S754_zero _ => n >? 0
  | S754_infinity negative => negative
  | S754_nan => false
  | S754_finite negative m e =>
      let v := if negative then Z.neg m else Z.pos m in
      if 0 <=? e then n >? v * 2 ^ e else n * 2 ^ (- e) >? v
  end.

End PyFloat.

(* ================================================================== *)
(** ** utils/model_manager.py *)
(* ================================================================== *)

Module ModelManager.

(** The manager reconfigures itself from [Config.SELECTED_MODEL] before
    every query, so each query is a function of the selected model. *)
Definition is_gemini (model : str) : bool :=
  str_in model [u "gemini"; u "gemini-flash"].

Definition max_input_tokens (model : str) : Z :=
  if str_eqb model (u "gemini") then 1048576
  else if str_eqb model (u "gemini-flash") then 1048576
  else 8192.

Definition max_output_tokens (model : str) : Z :=
  if str_eqb model (u "gemini") then 65536
  else if str_eqb model (u "gemini-flash") then 8192
  else 4096.

Definition count_tokens_estimate (model : str) (text : str) : Z :=
  if is_gemini model then len text / 3 else len text / 4.

Definition should_apply_token_limits (model : str) : bool :=
  negb (is_gemini model).

Definition get_max_context_tokens (model : str) : Z := max_input_tokens model.

(** The output cap [create_chat_completion] sends for a requested cap:
    the Gemini profiles raise a small request to their own default. *)
Definition effective_max_tokens (model : str) (max_tokens : Z) : Z :=
  if str_eqb model (u "gemini") && (max_tokens <? 8000)
  then Z.min (max_output_tokens model) 12000
  else if str_eqb model (u "gemini-flash") && (max_tokens <? 4000)
  then Z.min (max_output_tokens model) 6000
  else max_tokens.

End ModelManager.

(* ================================================================== *)
(** ** Article dictionaries *)
(* ================================================================== *)

(** An article is a dictionary with string keys; a key that may be
    missing is an [option]. *)
Record Article := mkArticle {
  title : option str;
  snippet : option str;
  url : option str;
  source : option str;
  date : option str;
  query : option str;
  search_query : option str;
  category : option str;
  search_mode : option str;
  relevance_score : option Z;
  id : option str;
  summary : option str;
  enhanced : option bool;
  enhancement_method : option str;
  original_snippet : option str;
  selected_for_podcast : option bool
}.

Module Dict.
(** [article[key] = value] for the keys the pipeline writes. *)
Definition set_search_query (v : str) (a : Article) : Article :=
  mkArticle (title a) (snippet a) (url a) (source a) (date a) (query a)
    (Some v) (category a) (search_mode a) (relevance_score a) (id a)
    (summary a) (enhanced a) (enhancement_method a) (original_snippet a)
    (selected_for_podcast a).
Definition set_category (v : str) (a : Article) : Article :=
  mkArticle (title a) (snippet a) (url a) (source a) (date a) (query a)
    (search_query a) (Some v) (search_mode a) (relevance_score a) (id a)
    (summary a) (enhanced a) (enhancement_method a) (original_snippet a)
    (selected_for_podcast a).
Definition set_search_mode (v : str) (a : Article) : Article :=
  mkArticle (title a) (snippet a) (url a) (source a) (date a) (query a)
    (search_query a) (category a) (Some v) (relevance_score a) (id a)
    (summary a) (enhanced a) (enhancement_method a) (original_snippet a)
    (selected_for_podcast a).
Definition set_relevance_score (v : Z) (a : Article) : Article :=
  mkArticle (title a) (snippet a) (url a) (source a) (date a) (query a)
    (search_query a) (category a) (search_mode a) (Some v) (id a)
    (summary a) (enhanced a) (enhancement_method a) (original_snippet a)
    (selected_for_podcast a).
Definition set_id (v : str) (a : Article) : Article :=
  mkArticle (title a) (snippet a) (url a) (source a) (date a) (query a)
    (search_query a) (category a) (search_mode a) (relevance_score a) (Some v)
    (summary a) (enhanced a) (enhancement_method a) (original_snippet a)
    (selected_for_podcast a).
Definition set_summary (v : str) (a : Article) : Article :=
  mkArticle (title a) (snippet a) (url a) (source a) (date a) (query a)
    (search_query a) (category a) (search_mode a) (relevance_score a) (id a)
    (Some v) (enhanced a) (enhancement_method a) (original_snippet a)
    (selected_for_podcast a).
Definition set_enhanced (v : bool) (a : Article) : Article :=
  mkArticle (title a) (snippet a) (url a) (source a) (date a) (query a)
    (search_query a) (category a) (search_mode a) (relevance_score a) (id a)
    (summary a) (Some v) (enhancement_method a) (original_snippet a)
    (selected_for_podcast a).
Definition set_enhancement_method (v : str) (a : Article) : Article :=
  mkArticle (title a) (snippet a) (url a) (source a) (date a) (query a)
    (search_query a) (category a) (search_mode a) (relevance_score a) (id a)
    (summary a) (enhanced a) (Some v) (original_snippet a)
    (selected_for_podcast a).
Definition set_original_snippet (v : str) (a : Article) : Article :=
  mkArticle (title a) (snippet a) (url a) (source a) (date a) (query a)
    (search_query a) (category a) (search_mode a) (relevance_score a) (id a)
    (summary a) (enhanced a) (enhancement_method a) (Some v)
    (selected_for_podcast a).
Definition set_selected_for_podcast (v : bool) (a : Article) : Article :=
  mkArticle (title a) (snippet a) (url a) (source a) (date a) (query a)
    (search_query a) (category a) (search_mode a) (relevance_score a) (id a)
    (summary a) (enhanced a) (enhancement_method a) (original_snippet a)
    (Some v).

(** [d.get(key, fallback)] *)
Definition get {A} (field : option A) (fallback : A) : A := default fallback field.
End Dict.

(** The six category names, shared by the collector and the selector. *)
Definition category_names : list str :=
  [u "APTs & Cyber-Espionage"; u "Arrests & Cybercrime"; u "Breaches & Incidents";
   u "Cybersecurity IPOs"; u "Cybersecurity Funding"; u "Cybersecurity M&A"].

(** [str(n)] for a natural number. *)
Definition decimal (n : nat) : str := u (NilEmpty.string_of_uint (Nat.to_uint n)).

(* ================================================================== *)
(** ** modules/news_collector.py *)
(* ================================================================== *)

Module NewsCollector.

(** One entry of the ["news"] array of a search response. *)
Record RawItem := mkRaw {
  raw_title : option str;
  raw_snippet : option str;
  raw_link : option str;
  raw_source : option str;
  raw_date : option str
}.

(** [search_news]: [response] is the decoded ["news"] array, or [None]
    when the request or the decoding raised (logged, no results). *)
Definition search_news (query_ : str) (response : option (list RawItem)) : list Article :=
  match response with
  | None => []
  | Some articles =>
      flat_map (fun article =>
        let cleaned_article :=
          {| title := Some (strip (Dict.get (raw_title article) []));
             snippet := Some (strip (Dict.get (raw_snippet article) []));
             url := Some (Dict.get (raw_link article) []);
             source := Some (Dict.get (raw_source article) []);
             date := Some (Dict.get (raw_date article) []);
             query := Some query_;
             search_query := None; category := None; search_mode := None;
             relevance_score := None; id := None; summary := None;
             enhanced := None; enhancement_method := None;
             original_snippet := None; selected_for_podcast := None |} in
        if truthy (Dict.get (title cleaned_article) [])
           && truthy (Dict.get (snippet cleaned_article) [])
        then [cleaned_article] else []) articles
  end.

(** The body of the loop over the queries: the articles of query
    number [i], capped and tagged. *)
Definition tag_query (is_google_dorks : bool) (max_per_category : Z)
    (i : nat) (query_ : str) (articles : list Article) : list Article :=
  let category_name :=
    if is_google_dorks && bool_decide (i < length category_names)%nat
    then nth i category_names []
    else u "Query_" ++ decimal (i + 1) in
  let articles :=
    if is_google_dorks && truthy articles
    then slice_to max_per_category articles else articles in
  List.map (fun article =>
    Dict.set_search_mode
      (if is_google_dorks then u "google_dorks" else u "basic_keywords")
      (Dict.set_category category_name
         (Dict.set_search_query query_ article))) articles.

(** [all_articles] after the loop over the queries, numbered from [i]. *)
Fixpoint merge_queries (is_google_dorks : bool) (max_per_category : Z) (i : nat)
    (searches : list (str * option (list RawItem))) : list Article :=
  match searches with
  | [] => []
  | (query_, response) :: rest =>
      tag_query is_google_dorks max_per_category i query_ (search_news query_ response)
      ++ merge_queries is_google_dorks max_per_category (S i) rest
  end.

(** The de-duplication loop, [seen_urls] being the set built so far. *)
Fixpoint unique_by_url (seen_urls : gset str) (all_articles : list Article) : list Article :=
  match all_articles with
  | [] => []
  | article :: rest =>
      let url_ := Dict.get (url article) [] in
      if truthy url_ && negb (bool_decide (url_ ∈ seen_urls))
      then article :: unique_by_url ({[url_]} ∪ seen_urls) rest
      else unique_by_url seen_urls rest
  end.

(** [collect_daily_news]: [searches] pairs each active query, in
    configured order, with the answer of the search backend to it. *)
Definition collect_daily_news (is_google_dorks : bool) (max_per_category : Z)
    (searches : list (str * option (list RawItem))) : list Article :=
  unique_by_url ∅ (merge_queries is_google_dorks max_per_category 0 searches).

Section Filter.
(** [str.lower], a Unicode table of the interpreter. *)
Variable lower : str -> str.

Definition relevance (high_value_keywords : list str) (article : Article) : Z :=
  let text := lower (Dict.get (title article) [] ++ u " " ++ Dict.get (snippet article) []) in
  fold_left (fun score keyword => if contains keyword text then score + 1 else score)
    high_value_keywords 0.

Definition score_articles (high_value_keywords : list str) (min_score : Z)
    (articles : list Article) : list Article :=
  flat_map (fun article =>
    let score := relevance high_value_keywords article in
    if score >=? min_score then [Dict.set_relevance_score score article] else [])
    articles.

(** [filter_relevant_articles]; [min_relevance_score] is the optional
    setting (default 1), [max_articles] is [Config.MAX_ARTICLES]. *)
Definition filter_relevant_articles (high_value_keywords : list str)
    (min_relevance_score : option Z) (max_articles : Z)
    (articles : list Article) : list Article :=
  let min_score := Dict.get min_relevance_score 1 in
  let scored_articles := score_articles high_value_keywords min_score articles in
  let scored_articles :=
    Py.sort (fun x => Dict.get (relevance_score x) 0) true scored_articles in
  slice_to max_articles scored_articles.
End Filter.

End NewsCollector.

(* ================================================================== *)
(** ** Results, exceptions and the files of a run *)
(* ================================================================== *)

Inductive exn :=
| ValueError (msg : str)
| OSError
| BackendError.

Inductive result (A : Type) :=
| Ok (a : A)
| Raise (e : exn).
Arguments Ok {A} a.
Arguments Raise {A} e.

(** The exceptions of the loaders and of the analysis, and a call that
    may raise one of them. *)
Module Exc.
Inductive t :=
| FileNotFoundError
| RuntimeError
| KeyError
| TypeError
| AttributeError
| ValueError
| ZeroDivisionError
| OverflowError
| OpenAIError.
End Exc.

Inductive attempt (A : Type) :=
| Done (a : A)
| Failed (e : Exc.t).
Arguments Done {A} a.
Arguments Failed {A} e.

(** The part of the file system a run touches: path to content. A write
    is visible to later reads at once. *)
Abbreviation disk := (gmap str (list byte)).

(** What a synthesis run leaves behind: the files, and the texts sent to
    the speech backend, oldest first. *)
Record World := mkWorld {
  files : disk;
  requests : list str
}.

(* ================================================================== *)
(** ** Chunk reassembly (modules/audio_generator.py and
       modules/elevenlabs_tts.py hold the same three methods) *)
(* ================================================================== *)

Module Reassembly.
Section Paths.
(** Whether a path can be opened for writing. *)
Variable creatable : str -> bool.
(** [Config.get_audio_file()] *)
Variable default_audio_file : str.
(** [str(Path(p).parent / "daily_briefing.mp3")] *)
Variable briefing_beside : str -> str.

(** [shutil.move(src, dst)] between plain files. *)
Definition move (src dst : str) (fs : disk) : result unit * disk :=
  match fs !! src with
  | Some data =>
      if creatable dst then (Ok (), <[dst := data]> (delete src fs))
      else (Raise OSError, fs)
  | None => (Raise OSError, fs)
  end.

(** The loop of [_simple_combine_chunks] from chunk number [i] on:
    every chunk but number 0 is read past its first 1024 bytes. *)
Fixpoint append_chunks (final_file : str) (i : nat) (chunk_files : list str)
    (fs : disk) : result unit * disk :=
  match chunk_files with
  | [] => (Ok (), fs)
  | chunk_file :: rest =>
      match fs !! chunk_file with
      | None => (Raise OSError, fs)
      | Some data =>
          let data := if bool_decide (0 < i)%nat then drop 1024 data else data in
          append_chunks final_file (S i) rest
            (alter (fun out => out ++ data) final_file fs)
      end
  end.

Definition _simple_combine_chunks (chunk_files : list str)
    (output_file : option str) (fs : disk) : str * disk :=
  let final_file :=
    match output_file with
    | None => briefing_beside (hd [] chunk_files)
    | Some f => f
    end in
  if creatable final_file then
    match append_chunks final_file 0 chunk_files (<[final_file := []]> fs) with
    | (Ok _, fs') => (final_file, fs')
    | (Raise _, fs') => (hd [] chunk_files, fs')
    end
  else (hd [] chunk_files, fs).

Definition _combine_audio_chunks (chunk_files : list str)
    (output_file : option str) (fs : disk) : result str * disk :=
  match chunk_files with
  | [] => (Raise (ValueError (u "No chunk files to combine")), fs)
  | [only] =>
      let final_file :=
        match output_file with
        | Some f => if truthy f then f else default_audio_file
        | None => default_audio_file
        end in
      match move only final_file fs with
      | (Ok _, fs') => (Ok final_file, fs')
      | (Raise e, fs') => (Raise e, fs')
      end
  | _ =>
      let '(final_file, fs') := _simple_combine_chunks chunk_files output_file fs in
      (Ok final_file, fs')
  end.

(** [Path.unlink] on each chunk, failures ignored. *)
Definition _cleanup_chunk_files (chunk_files : list str) (fs : disk) : disk :=
  fold_left (fun fs chunk_file => delete chunk_file fs) chunk_files fs.

(** The tail shared by both synthesis loops: combine, then delete the
    chunk files when the combined file exists. *)
Definition combine_and_cleanup (audio_files : list str)
    (output_file : option str) (w : World) : result str * World :=
  match _combine_audio_chunks audio_files output_file (files w) with
  | (Raise e, fs) => (Raise e, mkWorld fs (requests w))
  | (Ok final_audio_file, fs) =>
      if truthy final_audio_file && bool_decide (is_Some (fs !! final_audio_file))
      then (Ok final_audio_file,
            mkWorld (_cleanup_chunk_files audio_files fs) (requests w))
      else (Ok final_audio_file, mkWorld fs (requests w))
  end.
End Paths.
End Reassembly.

(* ================================================================== *)
(** ** modules/elevenlabs_tts.py *)
(* ================================================================== *)

Module ElevenLabsTTS.

Record t := mk { max_chars : Z }.

Definition __init__ : t := {| max_chars := 1000 |}.

(** The loop over the words of one over-long sentence. *)
Definition word_step (self : t) (st : list str * str) (word : str) : list str * str :=
  let '(chunks, word_chunk) := st in
  if len (word_chunk ++ word ++ u " ") <=? max_chars self
  then (chunks, word_chunk ++ word ++ u " ")
  else ((if truthy (strip word_chunk) then chunks ++ [strip word_chunk] else chunks),
        word ++ u " ").

(** The loop over the sentences. *)
Definition sentence_step (self : t) (st : list str * str) (sentence : str)
    : list str * str :=
  let '(chunks, current_chunk) := st in
  let test_chunk := current_chunk ++ sentence ++ u ". " in
  if len test_chunk <=? max_chars self then (chunks, test_chunk)
  else
    let chunks :=
      if truthy (strip current_chunk) then chunks ++ [strip current_chunk] else chunks in
    let current_chunk := sentence ++ u ". " in
    if len current_chunk >? max_chars self then
      let '(chunks, word_chunk) :=
        fold_left (word_step self) (words sentence) (chunks, []) in
      if truthy (strip word_chunk) then (chunks, word_chunk ++ u ". ")
      else (chunks, [])
    else (chunks, current_chunk).

Definition _split_text_into_chunks (self : t) (text : str) : list str :=
  let sentences := split (u ". ") text in
  let '(chunks, current_chunk) := fold_left (sentence_step self) sentences ([], []) in
  let chunks :=
    if truthy (strip current_chunk) then chunks ++ [strip current_chunk] else chunks in
  if negb (truthy chunks) && truthy (strip text) then [strip text] else chunks.

Section Synthesis.
Variable creatable : str -> bool.
Variable default_audio_file : str.
Variable briefing_beside : str -> str.
(** [temp_elevenlabs_chunk_{i}.mp3] under the output directory. *)
Variable chunk_path : nat -> str.
(** [utils.helpers.clean_text_for_audio] *)
Variable clean_text_for_audio : str -> str.
(** The speech backend: the answer to request number [n] for a text,
    audio bytes on status 200 and [None] on any failure. *)
Variable speech_api : nat -> str -> option (list byte).

Definition _generate_single_audio (text : str) (output_file : str) (w : World)
    : result str * World :=
  let n := length (requests w) in
  let w := mkWorld (files w) (requests w ++ [text]) in
  match speech_api n text with
  | Some content =>
      if creatable output_file
      then (Ok output_file, mkWorld (<[output_file := content]> (files w)) (requests w))
      else (Raise OSError, w)
  | None => (Raise BackendError, w)
  end.

(** The loop over the chunks from chunk number [i] on; a failed chunk
    deletes the chunk files made so far and raises again. The pause
    between two requests leaves no trace in the world. *)
Fixpoint generate_chunks (i : nat) (chunks : list str) (audio_files : list str)
    (w : World) : result (list str) * World :=
  match chunks with
  | [] => (Ok audio_files, w)
  | chunk :: rest =>
      match _generate_single_audio chunk (chunk_path i) w with
      | (Ok f, w') => generate_chunks (S i) rest (audio_files ++ [f]) w'
      | (Raise e, w') =>
          (Raise e,
           mkWorld (Reassembly._cleanup_chunk_files audio_files (files w'))
                   (requests w'))
      end
  end.

Definition _generate_chunked_audio (self : t) (text : str) (output_file : str)
    (w : World) : result str * World :=
  let chunks := _split_text_into_chunks self text in
  match generate_chunks 0 chunks [] w with
  | (Raise e, w') => (Raise e, w')
  | (Ok audio_files, w') =>
      Reassembly.combine_and_cleanup creatable default_audio_file briefing_beside
        audio_files (Some output_file) w'
  end.

Definition generate_audio (self : t) (text : str) (output_file : option str)
    (w : World) : result str * World :=
  let output_file := Dict.get output_file default_audio_file in
  let clean_text := clean_text_for_audio text in
  if negb (truthy (strip clean_text))
  then (Raise (ValueError (u "Text cannot be empty")), w)
  else _generate_chunked_audio self clean_text output_file w.
End Synthesis.

End ElevenLabsTTS.

(* ================================================================== *)
(** ** modules/audio_generator.py *)
(* ================================================================== *)

Module AudioGenerator.

Definition is_elevenlabs (tts_provider : str) : bool :=
  str_eqb tts_provider (u "elevenlabs").

Definition validate_text_length (tts_provider : str) (text : str) : bool :=
  let max_chars := if is_elevenlabs tts_provider then 5000 else 4096 in
  negb (len text >? max_chars).

(** The loop over the sentences of [split_long_text]. *)
Definition sentence_step (max_chars : Z) (st : list str * str) (sentence : str)
    : list str * str :=
  let '(chunks, current_chunk) := st in
  if len (current_chunk ++ sentence ++ u ". ") <=? max_chars
  then (chunks, current_chunk ++ sentence ++ u ". ")
  else ((if truthy current_chunk then chunks ++ [strip current_chunk] else chunks),
        sentence ++ u ". ").

Definition split_long_text (tts_provider : str) (text : str) (max_chars : option Z)
    : list str :=
  let max_chars :=
    match max_chars with
    | None => if is_elevenlabs tts_provider then 5000 else 4000
    | Some m => m
    end in
  if len text <=? max_chars then [text]
  else
    let sentences := split (u ". ") text in
    let '(chunks, current_chunk) := fold_left (sentence_step max_chars) sentences ([], []) in
    if truthy current_chunk then chunks ++ [strip current_chunk] else chunks.

Section Synthesis.
Variable creatable : str -> bool.
Variable default_audio_file : str.
Variable briefing_beside : str -> str.
(** [temp_audio_chunk_{i}.{format}] under the output directory. *)
Variable chunk_path : nat -> str.
Variable elevenlabs_chunk_path : nat -> str.
Variable clean_text_for_audio : str -> str.
(** The two speech backends, as in [ElevenLabsTTS]. *)
Variable openai_speech : nat -> str -> option (list byte).
Variable elevenlabs_speech : nat -> str -> option (list byte).

Definition _generate_openai_audio (text : str) (output_file : option str)
    (w : World) : result str * World :=
  let output_file := Dict.get output_file default_audio_file in
  let clean_text := clean_text_for_audio text in
  if negb (truthy (strip clean_text))
  then (Raise (ValueError (u "Text cannot be empty")), w)
  else
    let n := length (requests w) in
    let w := mkWorld (files w) (requests w ++ [clean_text]) in
    match openai_speech n clean_text with
    | Some content =>
        if creatable output_file
        then (Ok output_file,
              mkWorld (<[output_file := content]> (files w)) (requests w))
        else (Raise OSError, w)
    | None => (Raise BackendError, w)
    end.

Definition elevenlabs_generate_audio :=
  ElevenLabsTTS.generate_audio creatable default_audio_file briefing_beside
    elevenlabs_chunk_path clean_text_for_audio elevenlabs_speech
    ElevenLabsTTS.__init__.

Definition generate_audio (tts_provider : str) (text : str)
    (output_file : option str) (w : World) : result str * World :=
  if is_elevenlabs tts_provider
  then elevenlabs_generate_audio text output_file w
  else _generate_openai_audio text output_file w.

(** The loop over the chunks: nothing catches a failed chunk, so the
    exception leaves the loop and the method. *)
Fixpoint generate_chunks (tts_provider : str) (i : nat) (chunks : list str)
    (audio_files : list str) (w : World) : result (list str) * World :=
  match chunks with
  | [] => (Ok audio_files, w)
  | chunk :: rest =>
      match generate_audio tts_provider chunk (Some (chunk_path i)) w with
      | (Ok f, w') => generate_chunks tts_provider (S i) rest (audio_files ++ [f]) w'
      | (Raise e, w') => (Raise e, w')
      end
  end.

Definition generate_audio_from_long_text (tts_provider : str) (text : str)
    (output_file : option str) (w : World) : result str * World :=
  if is_elevenlabs tts_provider
  then elevenlabs_generate_audio text output_file w
  else if validate_text_length tts_provider text
  then generate_audio tts_provider text output_file w
  else
    let chunks := split_long_text tts_provider text None in
    match generate_chunks tts_provider 0 chunks [] w with
    | (Raise e, w') => (Raise e, w')
    | (Ok audio_files, w') =>
        Reassembly.combine_and_cleanup creatable default_audio_file briefing_beside
          audio_files output_file w'
    end.
End Synthesis.

End AudioGenerator.

(* ================================================================== *)
(** ** modules/article_enhancer.py *)
(* ================================================================== *)

Module ArticleEnhancer.

(** A row of the table [article_cache]; the key [url_hash] is the key
    of the map. Timestamps are microseconds, the order the stored ISO
    texts are compared in. *)
Record CacheRow := mkRow {
  row_url : str;
  row_summary : str;
  fetched_at : Z
}.

(** What the enhancer does to the outside, in order. *)
Inductive event :=
| Clock
| DbRead (url_hash : str)
| DbWrite (url_hash : str)
| Uuid
| Fetch (url_ : str)
| Chat (system_prompt user_prompt : str) (max_tokens : Z).

Record World := mkWorld {
  rows : gmap str CacheRow;
  events : list event
}.

Definition emit (e : event) (w : World) : World :=
  mkWorld (rows w) (events w ++ [e]).

Definition is_fetch (e : event) : bool :=
  match e with Fetch _ => true | _ => false end.
Definition is_chat (e : event) : bool :=
  match e with Chat _ _ _ => true | _ => false end.

(** Calls to the page fetch and to the generative backend so far. *)
Definition network_calls (w : World) : nat :=
  length (List.filter (fun e => is_fetch e || is_chat e) (events w)).

(** [timedelta(hours=h)] in microseconds. *)
Definition hours (h : Z) : Z := h * 3600000000.

(** What [newspaper.Article] holds after [parse()]. *)
Record Parsed := mkParsed {
  p_text : str;
  p_title : str;
  p_authors : list str;
  p_publish_date : option str
}.

Definition max_article_tokens : Z := 5000.

Section Env.
(** [hashlib.sha256(url.encode('utf-8')).hexdigest()] *)
Variable sha256_hex : str -> str.
(** The outside, by the number of events before the call:
    [datetime.now()], whether a database operation raises,
    [uuid.uuid4().hex], the HTTP GET (the page, [None] when it
    raises), and the chat completion ([None] when it raises). *)
Variable now : nat -> Z.
Variable db_raises : nat -> bool.
Variable uuid4_hex : nat -> str.
Variable http_get : nat -> str -> option str.
Variable chat_api : nat -> str -> str -> Z -> option str.
(** The two extractors and the tokenizer. *)
Variable trafilatura_extract : str -> result (option str).
Variable newspaper_parse : str -> str -> result Parsed.
Variable encode : str -> option (list N).
(** [Config.SELECTED_MODEL], fixed for the run. *)
Variable model : str.

Definition _get_url_hash (url_ : str) : str := sha256_hex url_.

Definition _get_cached_summary (url_ : str) (max_age_hours : Z) (w : World)
    : option str * World :=
  let url_hash := _get_url_hash url_ in
  let cutoff_time := now (length (events w)) - hours max_age_hours in
  let w := emit Clock w in
  let failed := db_raises (length (events w)) in
  let w := emit (DbRead url_hash) w in
  if failed then (None, w)
  else
    match rows w !! url_hash with
    | Some row =>
        if fetched_at row >? cutoff_time then (Some (row_summary row), w)
        else (None, w)
    | None => (None, w)
    end.

Definition _cache_summary (url_ : str) (summary_ : str) (w : World) : World :=
  let url_hash := _get_url_hash url_ in
  let fetched := now (length (events w)) in
  let w := emit Clock w in
  let failed := db_raises (length (events w)) in
  let w := emit (DbWrite url_hash) w in
  if failed then w
  else mkWorld (<[url_hash := mkRow url_ summary_ fetched]> (rows w)) (events w).

Definition _fetch_article_content (url_ : str) (w : World) : option str * World :=
  let response := http_get (length (events w)) url_ in
  let w := emit (Fetch url_) w in
  match response with
  | None => (None, w)
  | Some html_content =>
      match trafilatura_extract html_content with
      | Raise _ => (None, w)
      | Ok extracted_text =>
          if truthy (Dict.get extracted_text [])
             && (len (strip (Dict.get extracted_text [])) >? 100)
          then (extracted_text, w)
          else
            match newspaper_parse url_ html_content with
            | Raise _ => (None, w)
            | Ok article =>
                if truthy (p_text article) && (len (strip (p_text article)) >? 100)
                then
                  let content_parts :=
                    (if truthy (p_title article)
                     then [u "Title: " ++ p_title article] else [])
                    ++ (if truthy (p_authors article)
                        then [u "Author: " ++ join (u ", ") (p_authors article)]
                        else [])
                    ++ (match p_publish_date article with
                        | Some d => [u "Date: " ++ d]
                        | None => []
                        end)
                    ++ [u "Content: " ++ p_text article] in
                  (Some (join [10; 10]%N content_parts), w)
                else (None, w)
            end
      end
  end.

Definition _count_tokens (text : str) : Z :=
  if ModelManager.should_apply_token_limits model then
    match encode text with
    | Some toks => len toks
    | None => len text / 4
    end
  else ModelManager.count_tokens_estimate model text.

(** [target_chars * 0.8] is [16000.0] for the fixed ceiling of 5000
    tokens, so the comparison is one of integers. *)
Definition _trim_article_content (content : str) : str :=
  if negb (ModelManager.should_apply_token_limits model) then content
  else if _count_tokens content <=? max_article_tokens then content
  else
    let target_chars := max_article_tokens * 4 in
    let trimmed_content := slice_to target_chars content in
    let last_period := rfind 46%N trimmed_content in
    if 10 * last_period >? 8 * target_chars
    then slice_to (last_period + 1) trimmed_content
    else trimmed_content.

Definition failure_placeholder : str := u "(AI summary generation failed)".

Definition summary_system_prompt (per_article_budget : Z) : str :=
  u "You are a cybersecurity analyst. Write an executive brief of up to "
  ++ (if 0 <=? per_article_budget then decimal (Z.to_nat per_article_budget)
      else u "-" ++ decimal (Z.to_nat (- per_article_budget)))
  ++ u " tokens (6" ++ [8211%N] ++ u "8 sentences). Include, when available, who is involved, who/what is affected, technique or vulnerability, business or operational impact, and at least one practical takeaway. Skip elements absent from the source.".

Definition _generate_gpt_summary (article_text : str) (per_article_budget : Z)
    (w : World) : str * World :=
  let system_prompt := summary_system_prompt per_article_budget in
  let user_prompt := u "Article text:" ++ [10%N] ++ u "---" ++ [10%N] ++ article_text in
  let max_tokens := ModelManager.effective_max_tokens model per_article_budget in
  let answer := chat_api (length (events w)) system_prompt user_prompt max_tokens in
  let w := emit (Chat system_prompt user_prompt max_tokens) w in
  match answer with
  | Some summary_ => (strip summary_, w)
  | None => (failure_placeholder, w)
  end.

Definition _calculate_per_article_budget (num_articles : Z) : Z :=
  if negb (ModelManager.should_apply_token_limits model)
  then Z.min 1000 (8000 / Z.max 1 num_articles)
  else if num_articles <=? 60 then 180
  else
    let available_tokens := 10600 - 800 in
    Z.max 120 (available_tokens / num_articles).

(** The body of the loop of [enhance_articles]. *)
Definition enhance_article (per_article_budget : Z) (article : Article) (w : World)
    : Article * World :=
  let '(article, w) :=
    match id article with
    | Some _ => (article, w)
    | None => (Dict.set_id (uuid4_hex (length (events w))) article, emit Uuid w)
    end in
  let url_ := Dict.get (url article) [] in
  if negb (truthy url_) then (article, w)
  else
    let '(cached_summary, w) := _get_cached_summary url_ 24 w in
    if truthy (Dict.get cached_summary [])
    then
      (Dict.set_enhancement_method (u "cache")
         (Dict.set_enhanced true
            (Dict.set_summary (Dict.get cached_summary []) article)), w)
    else
      let '(article_content, w) := _fetch_article_content url_ w in
      if negb (truthy (Dict.get article_content []))
      then
        (Dict.set_enhancement_method (u "fetch_failed")
           (Dict.set_enhanced false
              (Dict.set_summary (Dict.get (snippet article) (u "(fetch failed)"))
                 article)), w)
      else
        let trimmed_content := _trim_article_content (Dict.get article_content []) in
        let '(gpt_summary, w) :=
          _generate_gpt_summary trimmed_content per_article_budget w in
        let article :=
          Dict.set_original_snippet (Dict.get (snippet article) [])
            (Dict.set_enhancement_method (u "gpt_generated")
               (Dict.set_enhanced true (Dict.set_summary gpt_summary article))) in
        let w := _cache_summary url_ gpt_summary w in
        (article, w).

Fixpoint enhance_loop (per_article_budget : Z) (articles : list Article) (w : World)
    : list Article * World :=
  match articles with
  | [] => ([], w)
  | article :: rest =>
      let '(article', w) := enhance_article per_article_budget article w in
      let '(rest', w) := enhance_loop per_article_budget rest w in
      (article' :: rest', w)
  end.

Definition enhance_articles (articles : list Article) (w : World)
    : list Article * World :=
  if negb (truthy articles) then (articles, w)
  else enhance_loop (_calculate_per_article_budget (len articles)) articles w.
End Env.

End ArticleEnhancer.

(* ================================================================== *)
(** ** modules/article_analyzer.py *)
(* ================================================================== *)

Module ArticleAnalyzer.

Record t := mk {
  max_context_tokens : Z;
  max_message_tokens : Z;
  min_completion_tokens : Z
}.

(** [__init__]: the limits are fixed from the model selected when the
    analyzer is built. *)
Definition __init__ (model : str) : t :=
  if ModelManager.should_apply_token_limits model then
    {| max_context_tokens := 8192;
       max_message_tokens := 6000;
       min_completion_tokens := 500 |}
  else
    let ctx := ModelManager.get_max_context_tokens model in
    {| max_context_tokens := ctx;
       max_message_tokens := Z.min 500000 (ctx / 2);
       min_completion_tokens := 8000 |}.

Section Budget.
(** The sub-word tokenizer: the tokens of a text, or [None] when
    encoding raises. *)
Variable encode : str -> option (list N).

Definition _count_tokens (model : str) (text : str) : Z :=
  if ModelManager.should_apply_token_limits model then
    match encode text with
    | Some toks => len toks
    | None => len text / 4
    end
  else ModelManager.count_tokens_estimate model text.

Definition _calculate_dynamic_limits (self : t) (model : str)
    (system_prompt user_prompt_base : str) : Z * Z :=
  let system_tokens := _count_tokens model system_prompt in
  let base_user_tokens := _count_tokens model user_prompt_base in
  let completion_tokens :=
    if ModelManager.should_apply_token_limits model
    then Z.min 2000 (max_context_tokens self / 3)
    else Z.min (min_completion_tokens self) (max_context_tokens self / 4) in
  let available_for_messages := max_context_tokens self - completion_tokens in
  let max_message_tokens' := Z.min (max_message_tokens self) available_for_messages in
  let total_estimated := max_message_tokens' + completion_tokens in
  let completion_tokens :=
    if total_estimated >? max_context_tokens self
    then Z.max (min_completion_tokens self)
               (max_context_tokens self - max_message_tokens')
    else completion_tokens in
  (max_message_tokens', completion_tokens).
End Budget.

(** [re.findall] for the two patterns of [_extract_selected_articles],
    [prefix (https?://[^\s\n]+)] with a literal prefix. *)
Definition strip_prefix (p s : str) : option str :=
  if starts_with p s then Some (drop (length p) s) else None.

Fixpoint non_space_run (s : str) : str :=
  match s with
  | c :: s' => if is_space c then [] else c :: non_space_run s'
  | [] => []
  end.

(** After the scheme: [://] and a non-empty run of non-whitespace. *)
Definition match_rest (scheme : str) (s : str) : option str :=
  match strip_prefix (u "://") s with
  | Some rest =>
      let run := non_space_run rest in
      if truthy run then Some (scheme ++ u "://" ++ run) else None
  | None => None
  end.

(** A match starting at the head of [s]: the captured URL. *)
Definition match_url (prefix : str) (s : str) : option str :=
  match strip_prefix prefix s with
  | Some rest =>
      match strip_prefix (u "http") rest with
      | Some rest =>
          match
            (match strip_prefix (u "s") rest with
             | Some rest' => match_rest (u "https") rest'
             | None => None
             end)
          with
          | Some url_ => Some url_
          | None => match_rest (u "http") rest
          end
      | None => None
      end
  | None => None
  end.

(** Matches are found left to right and do not overlap: [skip] counts
    the characters of the last match still to pass over. *)
Fixpoint findall_aux (prefix : str) (skip : nat) (s : str) : list str :=
  match s with
  | [] => []
  | _ :: s' =>
      match skip with
      | S k => findall_aux prefix k s'
      | O =>
          match match_url prefix s with
          | Some url_ =>
              url_ :: findall_aux prefix (Nat.pred (length prefix + length url_)) s'
          | None => findall_aux prefix O s'
          end
      end
  end.

Definition findall (prefix : str) (s : str) : list str := findall_aux prefix O s.

Definition url_pattern_new : str := 8226%N :: u " **URL:** ".
Definition url_pattern_old : str := u "**URL:** ".

Definition category_order : list str := category_names.

Fixpoint index_of (x : str) (l : list str) : option nat :=
  match l with
  | [] => None
  | y :: l' => if str_eqb y x then Some O else S <$> index_of x l'
  end.

Definition get_category_order (article : Article) : Z :=
  let category_ := Dict.get (category article) (u "Unknown") in
  match index_of category_ category_order with
  | Some i => Z.of_nat i
  | None => len category_order
  end.

Definition selected_urls (analysis_text : str) : list str :=
  let selected := findall url_pattern_new analysis_text in
  if negb (truthy selected) then findall url_pattern_old analysis_text
  else selected.

(** The articles of the buckets, in the order the two loops visit them. *)
Definition all_articles (articles_by_category : list (str * list Article))
    : list Article :=
  flat_map snd articles_by_category.

Definition _extract_selected_articles (analysis_text : str)
    (articles_by_category : list (str * list Article)) : list Article :=
  let urls := selected_urls analysis_text in
  let selected_articles :=
    flat_map (fun bucket =>
      flat_map (fun article =>
        let article_url := Dict.get (url article) [] in
        if str_in article_url urls
        then [Dict.set_selected_for_podcast true article] else [])
        (snd bucket)) articles_by_category in
  Py.sort get_category_order false selected_articles.

(** [_group_articles_by_category]: buckets in order of first
    appearance of their category. *)
Fixpoint add_to_bucket (category_ : str) (article : Article)
    (categories : list (str * list Article)) : list (str * list Article) :=
  match categories with
  | [] => [(category_, [article])]
  | (c, l) :: rest =>
      if str_eqb c category_ then (c, l ++ [article]) :: rest
      else (c, l) :: add_to_bucket category_ article rest
  end.

Definition _group_articles_by_category (articles : list Article)
    : list (str * list Article) :=
  fold_left (fun categories article =>
    add_to_bucket (Dict.get (category article) (u "Uncategorized")) article categories)
    articles [].

Definition nl : str := [10%N].

(** [article.get('summary', article.get('snippet', 'No summary available'))] *)
Definition summary_text (article : Article) : str :=
  Dict.get (summary article) (Dict.get (snippet article) (u "No summary available")).

Definition enhancement_info (article : Article) : str :=
  if Dict.get (enhanced article) false
  then u " (Enhanced via " ++ Dict.get (enhancement_method article) (u "unknown") ++ u ")"
  else [].

(** The text of article number [i] of a section, with the summary
    [summary_] shown for it. *)
Definition article_text (i : nat) (article : Article) (summary_ : str) : str :=
  u "### Article " ++ decimal i ++ nl
  ++ u "**Title:** " ++ Dict.get (title article) (u "No title") ++ nl
  ++ u "**Source:** " ++ Dict.get (source article) (u "Unknown source") ++ nl
  ++ u "**Date:** " ++ Dict.get (date article) (u "No date") ++ nl
  ++ u "**URL:** " ++ Dict.get (url article) (u "No URL") ++ nl
  ++ u "**Summary:** " ++ summary_ ++ enhancement_info article ++ nl ++ nl.

(** The inner loop of [_format_articles_by_category], from article
    number [i] on. *)
Fixpoint format_articles (i : nat) (category_articles : list Article) : str :=
  match category_articles with
  | [] => []
  | article :: rest =>
      article_text i article (summary_text article) ++ format_articles (S i) rest
  end.

Definition _format_articles_by_category
    (articles_by_category : list (str * list Article)) : str :=
  join nl
    (List.map (fun bucket : str * list Article =>
       u "## " ++ fst bucket ++ nl ++ nl ++ format_articles 1 (snd bucket))
       articles_by_category).

(** [_emergency_fallback_analysis]: the first article of every bucket. *)
Definition _emergency_fallback_analysis
    (articles_by_category : list (str * list Article)) : str * list Article :=
  let '(fallback_content, selected_articles) :=
    fold_left (fun (st : str * list Article) (bucket : str * list Article) =>
      match snd bucket with
      | [] => st
      | article :: _ =>
          (fst st ++ u "**" ++ fst bucket ++ u ":** "
             ++ Dict.get (title article) (u "No title") ++ nl,
           snd st ++ [article])
      end) articles_by_category
      (u "## Emergency Analysis Summary" ++ nl ++ nl, []) in
  (fallback_content ++ nl ++ u "Note: Analysis truncated due to content length limits.",
   selected_articles).

(** A request to the generative backend. *)
Record request := mkRequest {
  req_system : str;
  req_user : str;
  req_max_tokens : Z
}.

Section Analysis.
Variable encode : str -> option (list N).
(** [prompt_loader.load_prompt(name)], and [prompt_loader.format_prompt]
    of the user prompt for a text of articles. *)
Variable load_prompt : str -> attempt str.
Variable format_prompt : str -> str -> attempt str.
(** [model_manager.create_chat_completion] behind the choice of the
    output cap: the answer to request number [n], or the text of the
    exception it raises. *)
Variable chat_api : nat -> request -> str + str.

(** The trimming of one summary in [_trim_articles_to_fit]. *)
Definition trim_summary (model : str) (target_tokens_per_article : Z)
    (summary_ : str) : attempt str :=
  if _count_tokens encode model summary_ >? target_tokens_per_article then
    let target_chars := target_tokens_per_article * 4 in
    let summary_ := slice_to target_chars summary_ in
    let last_period := rfind 46%N summary_ in
    match PyFloat.of_int target_chars with
    | SpecFloat.S754_infinity _ => Failed Exc.OverflowError
    | x =>
        let summary_ :=
          if PyFloat.int_gt last_period (PyFloat.mul x PyFloat.seven_tenths)
          then slice_to (last_period + 1) summary_ else summary_ in
        Done (summary_ ++ u "... [trimmed]")
    end
  else Done summary_.

Fixpoint trim_articles (model : str) (target_tokens_per_article : Z) (i : nat)
    (category_articles : list Article) : attempt str :=
  match category_articles with
  | [] => Done []
  | article :: rest =>
      match trim_summary model target_tokens_per_article (summary_text article) with
      | Failed e => Failed e
      | Done summary_ =>
          match trim_articles model target_tokens_per_article (S i) rest with
          | Failed e => Failed e
          | Done text => Done (article_text i article summary_ ++ text)
          end
      end
  end.

Fixpoint trim_sections (model : str) (target_tokens_per_article : Z)
    (articles_by_category : list (str * list Article)) : attempt (list str) :=
  match articles_by_category with
  | [] => Done []
  | (category_, category_articles) :: rest =>
      match trim_articles model target_tokens_per_article 1 category_articles with
      | Failed e => Failed e
      | Done text =>
          match trim_sections model target_tokens_per_article rest with
          | Failed e => Failed e
          | Done sections => Done ((u "## " ++ category_ ++ nl ++ nl ++ text) :: sections)
          end
      end
  end.

Definition _trim_articles_to_fit (model : str)
    (articles_by_category : list (str * list Article))
    (max_message_tokens' : Z) (system_prompt : str) : attempt str :=
  let system_tokens := _count_tokens encode model system_prompt in
  let available_tokens := max_message_tokens' - system_tokens - 100 in
  let formatted_articles := _format_articles_by_category articles_by_category in
  let current_tokens := _count_tokens encode model formatted_articles in
  if current_tokens <=? available_tokens then Done formatted_articles
  else
    let total_articles := len (all_articles articles_by_category) in
    if total_articles =? 0 then Failed Exc.ZeroDivisionError
    else
      let target_tokens_per_article := available_tokens / total_articles in
      match trim_sections model target_tokens_per_article articles_by_category with
      | Failed e => Failed e
      | Done trimmed_sections => Done (join nl trimmed_sections)
      end.

Definition sample_user_prompt : str :=
  u "Articles by category:" ++ nl ++ nl ++ u "## Sample Category" ++ nl ++ nl
  ++ u "### Article 1" ++ nl ++ u "**Title:** Sample" ++ nl
  ++ u "**Summary:** Sample summary text for token calculation.".

(** [analyze_articles_by_category]: [requests] are the requests made to
    the generative backend so far. An exception of the prompt loader or
    of the trimming leaves the method; one of the backend is caught. *)
Definition analyze_articles_by_category (self : t) (model : str)
    (articles : list Article) (requests : list request)
    : attempt (str * list Article) * list request :=
  if negb (truthy articles)
  then (Done (u "No articles available for analysis.", []), requests)
  else
    let articles_by_category := _group_articles_by_category articles in
    match load_prompt (u "article-analysis-system") with
    | Failed e => (Failed e, requests)
    | Done system_prompt =>
        let '(max_message_tokens', max_completion_tokens) :=
          _calculate_dynamic_limits encode self model system_prompt sample_user_prompt in
        match _trim_articles_to_fit model articles_by_category
                max_message_tokens' system_prompt with
        | Failed e => (Failed e, requests)
        | Done formatted_articles =>
            match format_prompt (u "article-analysis-user") formatted_articles with
            | Failed e => (Failed e, requests)
            | Done user_prompt =>
                let total_message_tokens :=
                  _count_tokens encode model system_prompt
                  + _count_tokens encode model user_prompt in
                if total_message_tokens >? max_message_tokens self
                then (Done (_emergency_fallback_analysis articles_by_category), requests)
                else
                  let request_ :=
                    mkRequest system_prompt user_prompt
                      (ModelManager.effective_max_tokens model max_completion_tokens) in
                  match chat_api (length requests) request_ with
                  | inl analysis_result =>
                      (Done (analysis_result,
                             _extract_selected_articles analysis_result
                               articles_by_category),
                       requests ++ [request_])
                  | inr message =>
                      (Done (u "Error during article analysis: " ++ message, []),
                       requests ++ [request_])
                  end
            end
        end
    end.
End Analysis.

End ArticleAnalyzer.

(* ================================================================== *)
(** ** utils/helpers.py *)
(* ================================================================== *)

Module Helpers.

(** The loop of [truncate_text]: sentences are taken while they fit, and
    the first one that does not fit ends the loop. *)
Fixpoint take_sentences (max_length : Z) (truncated : str) (sentences : list str)
    : str :=
  match sentences with
  | [] => truncated
  | sentence :: rest =>
      if len (truncated ++ sentence ++ u ". ") <=? max_length
      then take_sentences max_length (truncated ++ sentence ++ u ". ") rest
      else truncated
  end.

Definition truncate_text (text : str) (max_length : option Z) : str :=
  let max_length := Dict.get max_length 4000 in
  if len text <=? max_length then text
  else strip (take_sentences max_length [] (split (u ". ") text)).

(** [re.sub(r'http[s]?://\S+', '', text)]: the pattern matches what the
    URL pattern of the selector matches without a marker before it; a
    match is left out and the scan goes on behind it. *)
Fixpoint remove_urls (skip : nat) (text : str) : str :=
  match text with
  | [] => []
  | c :: rest =>
      match skip with
      | S k => remove_urls k rest
      | O =>
          match ArticleAnalyzer.match_url [] text with
          | Some m => remove_urls (Nat.pred (length m)) rest
          | None => c :: remove_urls O rest
          end
      end
  end.

(** The class [[#*_`]]. *)
Definition is_markdown (c : char) : bool :=
  ((c =? 35) || (c =? 42) || (c =? 95) || (c =? 96))%N.

(** [re.sub(r'\s+', ' ', text)]: [in_run] tells that the character
    before was whitespace. *)
Fixpoint collapse_whitespace (in_run : bool) (text : str) : str :=
  match text with
  | [] => []
  | c :: rest =>
      if is_space c
      then (if in_run then collapse_whitespace true rest
            else 32%N :: collapse_whitespace true rest)
      else c :: collapse_whitespace false rest
  end.

(** The punctuation the last pass keeps: [.,!?;:-()]. *)
Definition is_punctuation (c : char) : bool :=
  ((c =? 46) || (c =? 44) || (c =? 33) || (c =? 63) || (c =? 59) || (c =? 58)
   || (c =? 45) || (c =? 40) || (c =? 41))%N.

Section Unicode.
(** [str.isalnum] on one code point outside ASCII, a table of the
    interpreter. *)
Variable unicode_alnum : char -> bool.

(** The class [\w]: alphanumeric or the underscore. *)
Definition is_word (c : char) : bool :=
  (if c <? 128
   then (48 <=? c) && (c <=? 57) || (65 <=? c) && (c <=? 90)
        || (97 <=? c) && (c <=? 122) || (c =? 95)
   else unicode_alnum c)%N.

Definition clean_text_for_audio (text : str) : str :=
  let text := remove_urls O text in
  let text := List.filter (fun c => negb (is_markdown c)) text in
  let text := collapse_whitespace false text in
  let text := List.filter (fun c => is_word c || is_space c || is_punctuation c) text in
  strip text.
End Unicode.

End Helpers.

(* ================================================================== *)
(** ** config/settings.py *)
(* ================================================================== *)

Module Config.

(** The class attributes the checks read. A key is what [os.getenv]
    gave: [None] when the variable is not set. *)
Record t := mk {
  OPENAI_API_KEY : option str;
  OPEN_ROUTER_API_KEY : option str;
  SERPER_API_KEY : option str;
  ELEVEN_LABS_API_KEY : option str;
  SELECTED_MODEL : str;
  TTS_PROVIDER : str
}.

(** [not key]: the variable is not set, or is empty. *)
Definition missing (key : option str) : bool := negb (truthy (default [] key)).

Definition set_selected_model (model : str) (cls : t) : t :=
  mk (OPENAI_API_KEY cls) (OPEN_ROUTER_API_KEY cls) (SERPER_API_KEY cls)
     (ELEVEN_LABS_API_KEY cls) model (TTS_PROVIDER cls).

Definition set_tts_provider (provider : str) (cls : t) : result t :=
  if str_in provider [u "openai"; u "elevenlabs"]
  then Ok (mk (OPENAI_API_KEY cls) (OPEN_ROUTER_API_KEY cls) (SERPER_API_KEY cls)
              (ELEVEN_LABS_API_KEY cls) (SELECTED_MODEL cls) provider)
  else Raise (ValueError (u "TTS provider must be 'openai' or 'elevenlabs'")).

(** [validate]: the three checks in order; the first that fails raises. *)
Definition validate (cls : t) : result bool :=
  let model_error :=
    if str_eqb (SELECTED_MODEL cls) (u "gemini")
    then (if missing (OPEN_ROUTER_API_KEY cls)
          then Some (u "OPEN_ROUTER API key is required when using Gemini model")
          else None)
    else (if missing (OPENAI_API_KEY cls)
          then Some (u "OPENAI_API_KEY is required when using OpenAI model")
          else None) in
  let tts_error :=
    if str_eqb (TTS_PROVIDER cls) (u "elevenlabs")
    then (if missing (ELEVEN_LABS_API_KEY cls)
          then Some (u "ELEVEN_LABS_API_KEY is required when using ElevenLabs TTS")
          else None)
    else if str_eqb (TTS_PROVIDER cls) (u "openai")
    then (if missing (OPENAI_API_KEY cls)
          then Some (u "OPENAI_API_KEY is required when using OpenAI TTS")
          else None)
    else None in
  let serper_error :=
    if missing (SERPER_API_KEY cls) then Some (u "SERPER_API_KEY is required") else None in
  match model_error, tts_error, serper_error with
  | Some msg, _, _ => Raise (ValueError msg)
  | None, Some msg, _ => Raise (ValueError msg)
  | None, None, Some msg => Raise (ValueError msg)
  | None, None, None => Ok true
  end.

End Config.

(* ================================================================== *)
(** ** utils/model_manager.py: the manager object *)
(* ================================================================== *)

Module ManagerState.

(** What a client is built from. *)
Record client := mkClient {
  api_key : option str;
  base_url : option str
}.

Record t := mk {
  model : option str;
  model_name : option str;
  max_input_tokens : option Z;
  max_output_tokens : option Z;
  client_ : option client
}.

Definition __init__ : t := mk None None None None None.

Section Client.
(** [openai.OpenAI(api_key=..., base_url=...)]: whether the constructor
    of the library accepts the key and the address; it raises when it
    finds no key. *)
Variable accepts : client -> bool.

(** [_configure_for_model]: the client is built first, so a constructor
    that raises leaves the name and the limits as they were. *)
Definition _configure_for_model (cls : Config.t) (self : t) : attempt unit * t :=
  let configure (c : client) (name : str) (max_in max_out : Z) :=
    if accepts c
    then (Done (), mk (model self) (Some name) (Some max_in) (Some max_out) (Some c))
    else (Failed Exc.OpenAIError, self) in
  if bool_decide (model self = Some (u "gemini")) then
    configure (mkClient (Config.OPEN_ROUTER_API_KEY cls) (Some (u "https://openrouter.ai/api/v1")))
      (u "google/gemini-2.5-pro-preview") 1048576 65536
  else if bool_decide (model self = Some (u "gemini-flash")) then
    configure (mkClient (Config.OPEN_ROUTER_API_KEY cls) (Some (u "https://openrouter.ai/api/v1")))
      (u "google/gemini-2.5-flash-lite-preview-06-17") 1048576 8192
  else
    configure (mkClient (Config.OPENAI_API_KEY cls) None) (u "gpt-4") 8192 4096.

(** [_setup_client]: nothing is done when the manager already holds the
    selected model. *)
Definition _setup_client (cls : Config.t) (self : t) : attempt unit * t :=
  let current_model := Config.SELECTED_MODEL cls in
  if bool_decide (model self = Some current_model) then (Done (), self)
  else
    _configure_for_model cls
      (mk (Some current_model) (model_name self) (max_input_tokens self)
          (max_output_tokens self) (client_ self)).

Definition in_gemini (self : t) : bool :=
  bool_decide (model self = Some (u "gemini"))
  || bool_decide (model self = Some (u "gemini-flash")).

Definition count_tokens_estimate (cls : Config.t) (text : str) (self : t)
    : attempt Z * t :=
  match _setup_client cls self with
  | (Failed e, self) => (Failed e, self)
  | (Done _, self) =>
      (Done (if in_gemini self then len text / 3 else len text / 4), self)
  end.

Definition should_apply_token_limits (cls : Config.t) (self : t) : attempt bool * t :=
  match _setup_client cls self with
  | (Failed e, self) => (Failed e, self)
  | (Done _, self) => (Done (negb (in_gemini self)), self)
  end.

Definition get_max_context_tokens (cls : Config.t) (self : t)
    : attempt (option Z) * t :=
  match _setup_client cls self with
  | (Failed e, self) => (Failed e, self)
  | (Done _, self) => (Done (max_input_tokens self), self)
  end.

Definition get_max_output_tokens (cls : Config.t) (self : t)
    : attempt (option Z) * t :=
  match _setup_client cls self with
  | (Failed e, self) => (Failed e, self)
  | (Done _, self) => (Done (max_output_tokens self), self)
  end.
End Client.

End ManagerState.

(* ================================================================== *)
(** ** utils/search_config_loader.py *)
(* ================================================================== *)

(** What [json.load] gives. A JSON object is a dictionary, here the list
    of its entries in the order they were inserted, every key once. *)
#[warnings="-register-all"]
Inductive json :=
| JNull
| JBool (b : bool)
| JInt (n : Z)
| JFloat (x : SpecFloat.spec_float)
| JString (s : str)
| JArray (items : list json)
| JObject (fields : list (str * json)).

Module Json.

Fixpoint assoc (key : str) (fields : list (str * json)) : option json :=
  match fields with
  | [] => None
  | (k, v) :: rest => if str_eqb k key then Some v else assoc key rest
  end.

(** [fields[key] = value]: an entry that is there keeps its place. *)
Fixpoint assoc_set (key : str) (value : json) (fields : list (str * json))
    : list (str * json) :=
  match fields with
  | [] => [(key, value)]
  | (k, v) :: rest =>
      if str_eqb k key then (k, value) :: rest else (k, v) :: assoc_set key value rest
  end.

(** The truth value of a JSON value. *)
Definition truth (j : json) : bool :=
  match j with
  | JNull => false
  | JBool b => b
  | JInt n => negb (n =? 0)
  | JFloat (SpecFloat.S754_zero _) => false
  | JFloat _ => true
  | JString s => truthy s
  | JArray items => truthy items
  | JObject fields => truthy fields
  end.

(** [d.get(key, fallback)]: only a dictionary has the method. *)
Definition get (d : json) (key : str) (fallback : json) : attempt json :=
  match d with
  | JObject fields => Done (default fallback (assoc key fields))
  | _ => Failed Exc.AttributeError
  end.

(** [d[key]] for a string key. *)
Definition getitem (d : json) (key : str) : attempt json :=
  match d with
  | JObject fields =>
      match assoc key fields with
      | Some v => Done v
      | None => Failed Exc.KeyError
      end
  | _ => Failed Exc.TypeError
  end.

(** [d[key] = value] for a string key. *)
Definition setitem (d : json) (key : str) (value : json) : attempt json :=
  match d with
  | JObject fields => Done (JObject (assoc_set key value fields))
  | _ => Failed Exc.TypeError
  end.

End Json.

Module SearchConfigLoader.

(** The configuration directory: the parsed parameter file and the text
    of the keyword file of a configuration name. [None] is a missing
    file, [Some None] a file that cannot be read or parsed. The text is
    what reading in text mode gives: every line ends in a line feed. *)
Record files := mkFiles {
  parameters_json : option (option json);
  keyword_files : str -> option (option str)
}.

Record t := mk {
  _cache : gmap str (list str);
  _parameters : option json
}.

Definition __init__ : t := mk ∅ None.

(** [load_parameters]: a file that holds [null] is parsed to [None], so
    the parameters count as not loaded and the file is read again at
    the next call. *)
Definition load_parameters (fs : files) (self : t) : attempt json * t :=
  match _parameters self with
  | None | Some JNull =>
      match parameters_json fs with
      | None => (Failed Exc.FileNotFoundError, self)
      | Some None => (Failed Exc.RuntimeError, self)
      | Some (Some parameters) => (Done parameters, mk (_cache self) (Some parameters))
      end
  | Some parameters => (Done parameters, self)
  end.

(** [f.readlines()]: the lines with their line feeds; [cur] is the line
    being read, reversed. *)
Fixpoint readlines_aux (cur : str) (text : str) : list str :=
  match text with
  | [] => if truthy cur then [rev cur] else []
  | c :: rest =>
      if (c =? 10)%N then rev (c :: cur) :: readlines_aux [] rest
      else readlines_aux (c :: cur) rest
  end.

Definition readlines (text : str) : list str := readlines_aux [] text.

(** The loop over the lines: empty lines and comments are left out. *)
Definition keywords_of (lines : list str) : list str :=
  flat_map (fun line =>
    let line := strip line in
    if truthy line && negb (starts_with (u "#") line) then [line] else []) lines.

Definition load_keywords_list (fs : files) (config_name : str) (self : t)
    : attempt (list str) * t :=
  match _cache self !! config_name with
  | Some keywords => (Done keywords, self)
  | None =>
      match keyword_files fs config_name with
      | None => (Failed Exc.FileNotFoundError, self)
      | Some None => (Failed Exc.RuntimeError, self)
      | Some (Some text) =>
          let keywords := keywords_of (readlines text) in
          (Done keywords, mk (<[config_name := keywords]> (_cache self)) (_parameters self))
      end
  end.

Definition get_basic_keywords (fs : files) := load_keywords_list fs (u "basic-keywords").
Definition get_relevance_keywords (fs : files) :=
  load_keywords_list fs (u "relevance-keywords").
Definition get_google_dorks (fs : files) := load_keywords_list fs (u "google-dorks").

(** [search_modes.get(mode, {}).get("enabled", fallback)] *)
Definition enabled (search_modes : json) (mode : str) (fallback : bool) : attempt json :=
  match Json.get search_modes mode (JObject []) with
  | Failed e => Failed e
  | Done entry => Json.get entry (u "enabled") (JBool fallback)
  end.

Definition get_active_search_queries (fs : files) (self : t)
    : attempt (list str) * t :=
  match load_parameters fs self with
  | (Failed e, self) => (Failed e, self)
  | (Done params, self) =>
      match Json.get params (u "search_modes") (JObject []) with
      | Failed e => (Failed e, self)
      | Done search_modes =>
          match enabled search_modes (u "basic_keywords") true with
          | Failed e => (Failed e, self)
          | Done basic =>
              let '(r, self) :=
                if Json.truth basic then get_basic_keywords fs self
                else (Done [], self) in
              match r with
              | Failed e => (Failed e, self)
              | Done active_queries =>
                  match enabled search_modes (u "google_dorks") false with
                  | Failed e => (Failed e, self)
                  | Done dorks =>
                      if Json.truth dorks then
                        match get_google_dorks fs self with
                        | (Failed e, self) => (Failed e, self)
                        | (Done more, self) => (Done (active_queries ++ more), self)
                        end
                      else (Done active_queries, self)
                  end
              end
          end
      end
  end.

(** [is_search_mode_enabled] hands on the value of the entry as it is
    in the file. *)
Definition is_search_mode_enabled (fs : files) (mode : str) (self : t)
    : attempt json * t :=
  match load_parameters fs self with
  | (Failed e, self) => (Failed e, self)
  | (Done params, self) =>
      match Json.get params (u "search_modes") (JObject []) with
      | Failed e => (Failed e, self)
      | Done search_modes => (enabled search_modes mode false, self)
      end
  end.

Definition reload_config (config_name : option str) (self : t) : t :=
  if truthy (default [] config_name)
  then mk (delete (default [] config_name) (_cache self)) (_parameters self)
  else mk ∅ None.

Definition clear_cache (self : t) : t := mk ∅ None.

End SearchConfigLoader.

(* ================================================================== *)
(** ** main.py *)
(* ================================================================== *)

Module Main.

(** [params['search_modes'][mode]['enabled'] = value] *)
Definition set_enabled (mode : str) (value : bool) (params : json) : attempt json :=
  match Json.getitem params (u "search_modes") with
  | Failed e => Failed e
  | Done search_modes =>
      match Json.getitem search_modes mode with
      | Failed e => Failed e
      | Done entry =>
          match Json.setitem entry (u "enabled") (JBool value) with
          | Failed e => Failed e
          | Done entry =>
              match Json.setitem search_modes mode entry with
              | Failed e => Failed e
              | Done search_modes => Json.setitem params (u "search_modes") search_modes
              end
          end
      end
  end.

(** The assignments of [configure_search_modes] for a search mode, in
    order. *)
Definition assignments (search_mode : str) : list (str * bool) :=
  if str_eqb search_mode (u "basic_keywords")
  then [(u "basic_keywords", true); (u "google_dorks", false)]
  else if str_eqb search_mode (u "google_dorks")
  then [(u "basic_keywords", false); (u "google_dorks", true)]
  else if str_eqb search_mode (u "both")
  then [(u "basic_keywords", true); (u "google_dorks", true)]
  else [].

(** The parameters are changed in place: an assignment that raises
    leaves the ones before it done. *)
Fixpoint assign (steps : list (str * bool)) (params : json) : attempt unit * json :=
  match steps with
  | [] => (Done (), params)
  | (mode, value) :: rest =>
      match set_enabled mode value params with
      | Failed e => (Failed e, params)
      | Done params => assign rest params
      end
  end.

Definition configure_search_modes (fs : SearchConfigLoader.files)
    (search_mode : option str) (loader : SearchConfigLoader.t)
    : attempt (list str) * SearchConfigLoader.t :=
  if truthy (default [] search_mode) then
    match SearchConfigLoader.load_parameters fs loader with
    | (Failed e, loader) => (Failed e, loader)
    | (Done params, loader) =>
        match assign (assignments (default [] search_mode)) params with
        | (Failed e, params) =>
            (Failed e,
             SearchConfigLoader.mk (SearchConfigLoader._cache loader) (Some params))
        | (Done _, params) =>
            SearchConfigLoader.get_active_search_queries fs
              (SearchConfigLoader.mk (SearchConfigLoader._cache loader) (Some params))
        end
    end
  else SearchConfigLoader.get_active_search_queries fs loader.

End Main.

(* ================================================================== *)
(** ** Vocabulary of the statements *)
(* ================================================================== *)

(** The elements of a list with a given sort key, in list order. *)
Definition same_key {A : Type} (key : A -> Z) (k : Z) (x : A) : bool := key x =? k.

(** Sentences written one after the other, each closed by [". "]: what
    the sentence loops build. *)
Definition closed (sentences : list str) : str :=
  concat (List.map (fun s => s ++ u ". ") sentences).

(** A text that is not empty and has no whitespace at either end. *)
Definition trimmed (c : str) : Prop := c <> [] /\ strip c = c.

(** [article.get("url", "")] and the test that it is a given URL. *)
Definition url_of (a : Article) : str := Dict.get (url a) [].
Definition has_url (v : str) (a : Article) : bool := str_eqb (url_of a) v.

(** The sort key of the relevance filter. *)
Definition score_of (a : Article) : Z := Dict.get (relevance_score a) 0.

(** The text a relevance keyword is looked up in. *)
Definition searched_text (lower : str -> str) (a : Article) : str :=
  lower (Dict.get (title a) [] ++ u " " ++ Dict.get (snippet a) []).

(** A URL as the two patterns capture it: a scheme, [://] and a non-empty
    run of non-whitespace characters. *)
Definition url_shape (v : str) : Prop :=
  exists run : str,
    (v = u "http://" ++ run \/ v = u "https://" ++ run)
    /\ run <> [] /\ Forall (fun c => is_space c = false) run.

(** [v] stands in [text] right after [marker] and ends at whitespace or
    at the end of the text. *)
Definition marked_in (marker v text : str) : Prop :=
  exists before after : str,
    text = before ++ marker ++ v ++ after
    /\ url_shape v
    /\ match after with [] => True | c :: _ => is_space c = true end.

(** [re.findall] in words. A marked URL begins at the head of [s] when
    [s] is the marker followed by a URL. The text is read from left to
    right: where a marked URL begins, the URL up to the next whitespace
    is captured and reading goes on behind it; elsewhere one character
    is passed. *)
Definition begins_marked (marker s : str) : Prop :=
  exists v rest, s = marker ++ v ++ rest /\ url_shape v.

Definition ends_url (rest : str) : Prop :=
  match rest with [] => True | c :: _ => is_space c = true end.

Inductive scanned (marker : str) : str -> list str -> Prop :=
| scanned_end : scanned marker [] []
| scanned_pass c s urls :
    ~ begins_marked marker (c :: s) ->
    scanned marker s urls ->
    scanned marker (c :: s) urls
| scanned_capture v rest urls :
    url_shape v ->
    ends_url rest ->
    scanned marker rest urls ->
    scanned marker (marker ++ v ++ rest) (v :: urls).

(** A place at the start of the text or right after whitespace. *)
Definition after_space (before : str) : Prop :=
  before = [] \/ exists b c, before = b ++ [c] /\ is_space c = true.

(** A marker that does not begin like a URL and no end of which is a
    beginning of it. *)
Definition apart (marker : str) : Prop :=
  marker <> [] /\ head marker <> Some 104%N
  /\ forall d, (0 < d < length marker)%nat -> starts_with (drop d marker) marker = false.

(** The category an article is ordered by. *)
Definition category_of (a : Article) : str := Dict.get (category a) (u "Unknown").

(** The key of the bucket an article is grouped under. *)
Definition bucket_of (a : Article) : str := Dict.get (category a) (u "Uncategorized").
Definition in_bucket (c : str) (a : Article) : bool := str_eqb (bucket_of a) c.

(** What the buckets hold once the articles [seen] have been added:
    distinct keys, under each key the articles of that category in the
    order they came, none left out. *)
Definition bucketed (seen : list Article) (groups : list (str * list Article)) : Prop :=
  NoDup groups.*1
  /\ Forall (fun g => g.2 <> [] /\ g.2 = List.filter (in_bucket g.1) seen) groups
  /\ (forall a, a ∈ seen -> bucket_of a ∈ groups.*1)
  /\ Permutation (ArticleAnalyzer.all_articles groups) seen.

(** The tokens of the two messages of a request, as the analyzer counts
    them. *)
Definition message_tokens (encode : str -> option (list N)) (model : str)
    (r : ArticleAnalyzer.request) : Z :=
  ArticleAnalyzer._count_tokens encode model (ArticleAnalyzer.req_system r)
  + ArticleAnalyzer._count_tokens encode model (ArticleAnalyzer.req_user r).

(** The client the manager builds for the selected model, and the state
    of a manager that is configured for the model [m] with the client
    [c]: the name and the limits of that model. *)
Definition client_for (cls : Config.t) : ManagerState.client :=
  if ModelManager.is_gemini (Config.SELECTED_MODEL cls)
  then ManagerState.mkClient (Config.OPEN_ROUTER_API_KEY cls)
         (Some (u "https://openrouter.ai/api/v1"))
  else ManagerState.mkClient (Config.OPENAI_API_KEY cls) None.

Definition model_name_of (m : str) : str :=
  if str_eqb m (u "gemini") then u "google/gemini-2.5-pro-preview"
  else if str_eqb m (u "gemini-flash") then u "google/gemini-2.5-flash-lite-preview-06-17"
  else u "gpt-4".

Definition profile (m : str) (c : ManagerState.client) : ManagerState.t :=
  ManagerState.mk (Some m) (Some (model_name_of m))
    (Some (ModelManager.max_input_tokens m)) (Some (ModelManager.max_output_tokens m))
    (Some c).

(** A manager as the methods leave it: fresh, or configured for some
    model. *)
Definition settled (self : ManagerState.t) : Prop :=
  self = ManagerState.__init__ \/ exists m c, self = profile m c.

(** A keyword as the loader keeps it. *)
Definition keyword_line (k : str) : Prop :=
  trimmed k /\ starts_with (u "#") k = false.

(** The entry of a search mode as the loader reads it from the
    parameters. *)
Definition read_enabled (params : json) (mode : str) (fallback : bool) : attempt json :=
  match Json.get params (u "search_modes") (JObject []) with
  | Failed e => Failed e
  | Done search_modes => SearchConfigLoader.enabled search_modes mode fallback
  end.

(** The number of events before the cache lookup for an article: the
    identifier, when missing, is drawn first. *)
Definition lookup_index (a : Article) (w : ArticleEnhancer.World) : nat :=
  (length (ArticleEnhancer.events w) + match id a with Some _ => 0 | None => 1 end)%nat.

(** How the enhancer leaves one article. *)
Section EnhancerOutcomes.
Import ArticleEnhancer.
Variable sha256_hex : str -> str.
Variable now : nat -> Z.
Variable db_raises : nat -> bool.
Variable uuid4_hex : nat -> str.
Variable chat_api : nat -> str -> str -> Z -> option str.

(** The article and the world once the identifier is in place. *)
Definition with_id (a : Article) (w : World) : Article * World :=
  match id a with
  | Some _ => (a, w)
  | None => (Dict.set_id (uuid4_hex (length (events w))) a, emit Uuid w)
  end.

(** The lookup for the article finds nothing usable: the database
    raises, or there is no row, or the row is stale or its summary is
    empty. *)
Definition missed (a : Article) (w : World) : Prop :=
  forall row,
    rows w !! sha256_hex (url_of a) = Some row ->
    now (lookup_index a w) - hours 24 < fetched_at row ->
    db_raises (S (lookup_index a w)) = false ->
    row_summary row = [].

(** The three outcomes for an article that carries a URL: [r] is the
    article and the world after the loop body ran from [w]. *)
Inductive outcome (a : Article) (w : World) (r : Article * World) : Prop :=
| from_cache row :
    rows w !! sha256_hex (url_of a) = Some row ->
    now (lookup_index a w) - hours 24 < fetched_at row ->
    db_raises (S (lookup_index a w)) = false ->
    row_summary row <> [] ->
    summary r.1 = Some (row_summary row) ->
    enhanced r.1 = Some true ->
    enhancement_method r.1 = Some (u "cache") ->
    rows r.2 = rows w ->
    network_calls r.2 = network_calls w ->
    outcome a w r
| fetch_failed :
    missed a w ->
    summary r.1 = Some (Dict.get (snippet a) (u "(fetch failed)")) ->
    enhanced r.1 = Some false ->
    enhancement_method r.1 = Some (u "fetch_failed") ->
    rows r.2 = rows w ->
    network_calls r.2 = S (network_calls w) ->
    outcome a w r
| generated s :
    missed a w ->
    s = failure_placeholder
      \/ (exists n sp up mt raw, chat_api n sp up mt = Some raw /\ s = strip raw) ->
    summary r.1 = Some s ->
    enhanced r.1 = Some true ->
    enhancement_method r.1 = Some (u "gpt_generated") ->
    (2 <= length (events r.2))%nat ->
    rows r.2
      = (if db_raises (length (events r.2) - 1)%nat then rows w
         else <[sha256_hex (url_of a)
                := mkRow (url_of a) s (now (length (events r.2) - 2)%nat)]> (rows w)) ->
    network_calls r.2 = S (S (network_calls w)) ->
    outcome a w r.
End EnhancerOutcomes.

(** Where the summary of a returned article comes from. *)
Section EnhancerSummaries.
Import ArticleEnhancer.
Variable sha256_hex : str -> str.
Variable now : nat -> Z.
Variable db_raises : nat -> bool.
Variable http_get : nat -> str -> option str.
Variable chat_api : nat -> str -> str -> Z -> option str.
Variable trafilatura_extract : str -> result (option str).
Variable newspaper_parse : str -> str -> result Parsed.
Variable encode : str -> option (list N).
Variable model : str.

(** The text the page fetch gives for the article [a] whose turn comes
    in the world [w]: the request follows the two events of the cache
    lookup. *)
Definition page_text (a : Article) (w : World) (content : option str) : Prop :=
  forall w' : World,
    length (events w') = (lookup_index a w + 2)%nat ->
    (_fetch_article_content http_get trafilatura_extract newspaper_parse (url_of a) w').1
    = content.

(** The brief for the fetched text [content]: the stripped answer of
    the generative backend to the request made for it, the placeholder
    when the call raises. *)
Definition brief_for (per_article_budget : Z) (a : Article) (w : World) (content : str)
    : str :=
  match chat_api (lookup_index a w + 3)
          (summary_system_prompt per_article_budget)
          (u "Article text:" ++ [10%N] ++ u "---" ++ [10%N]
           ++ _trim_article_content encode model content)
          (ModelManager.effective_max_tokens model per_article_budget) with
  | Some raw => strip raw
  | None => failure_placeholder
  end.

(** The summary of the returned article [b], made from [a] when its
    turn came in the world [w]. *)
Inductive summary_from (per_article_budget : Z) (a : Article) (w : World) (b : Article)
    : Prop :=
| summary_untouched :
    url_of a = [] ->
    summary b = summary a ->
    enhanced b = enhanced a ->
    enhancement_method b = enhancement_method a ->
    summary_from per_article_budget a w b
| summary_cached row :
    url_of a <> [] ->
    rows w !! sha256_hex (url_of a) = Some row ->
    now (lookup_index a w) - hours 24 < fetched_at row ->
    db_raises (S (lookup_index a w)) = false ->
    row_summary row <> [] ->
    summary b = Some (row_summary row) ->
    enhancement_method b = Some (u "cache") ->
    summary_from per_article_budget a w b
| summary_snippet content :
    url_of a <> [] ->
    missed sha256_hex now db_raises a w ->
    page_text a w content ->
    Dict.get content [] = [] ->
    summary b = Some (Dict.get (snippet a) (u "(fetch failed)")) ->
    enhancement_method b = Some (u "fetch_failed") ->
    summary_from per_article_budget a w b
| summary_generated content :
    url_of a <> [] ->
    missed sha256_hex now db_raises a w ->
    page_text a w (Some content) ->
    content <> [] ->
    summary b = Some (brief_for per_article_budget a w content) ->
    enhancement_method b = Some (u "gpt_generated") ->
    summary_from per_article_budget a w b.
End EnhancerSummaries.

(** The category the collector gives to the articles of query number
    [i]. *)
Definition category_for (is_google_dorks : bool) (i : nat) : str :=
  if is_google_dorks && bool_decide (i < length category_names)%nat
  then nth i category_names []
  else u "Query_" ++ decimal (i + 1).

(** An article as the collector hands it on: title and snippet not empty
    and without whitespace at either end, a URL, and the tags of the
    query it was found by. *)
Definition collected_from (is_google_dorks : bool)
    (searches : list (str * option (list NewsCollector.RawItem))) (a : Article) : Prop :=
  (exists t, title a = Some t /\ trimmed t)
  /\ (exists s, snippet a = Some s /\ trimmed s)
  /\ (exists v, url a = Some v /\ v <> [])
  /\ is_Some (source a) /\ is_Some (date a)
  /\ (exists (i : nat) q r,
        searches !! i = Some (q, r) /\ query a = Some q /\ search_query a = Some q
        /\ category a = Some (category_for is_google_dorks i))
  /\ search_mode a
     = Some (if is_google_dorks then u "google_dorks" else u "basic_keywords")
  /\ relevance_score a = None /\ id a = None /\ summary a = None.

(** The articles the de-duplication sees, in the order it sees them,
    written from the search responses: of every query, in configured
    order, the results whose title and snippet are not blank, cleaned;
    in Google-dorks mode only the first [max_per_category] of them; each
    with the tags of its query. *)
Definition meaningful (item : NewsCollector.RawItem) : bool :=
  truthy (strip (Dict.get (NewsCollector.raw_title item) []))
  && truthy (strip (Dict.get (NewsCollector.raw_snippet item) [])).

Definition cleaned (query_ : str) (item : NewsCollector.RawItem) : Article :=
  {| title := Some (strip (Dict.get (NewsCollector.raw_title item) []));
     snippet := Some (strip (Dict.get (NewsCollector.raw_snippet item) []));
     url := Some (Dict.get (NewsCollector.raw_link item) []);
     source := Some (Dict.get (NewsCollector.raw_source item) []);
     date := Some (Dict.get (NewsCollector.raw_date item) []);
     query := Some query_;
     search_query := None; category := None; search_mode := None;
     relevance_score := None; id := None; summary := None;
     enhanced := None; enhancement_method := None;
     original_snippet := None; selected_for_podcast := None |}.

Definition tagged (is_google_dorks : bool) (i : nat) (query_ : str) (a : Article)
    : Article :=
  Dict.set_search_mode (if is_google_dorks then u "google_dorks" else u "basic_keywords")
    (Dict.set_category (category_for is_google_dorks i)
       (Dict.set_search_query query_ a)).

Definition query_results (is_google_dorks : bool) (max_per_category : Z) (i : nat)
    (search : str * option (list NewsCollector.RawItem)) : list Article :=
  let found :=
    List.map (cleaned search.1) (List.filter meaningful (default [] search.2)) in
  List.map (tagged is_google_dorks i search.1)
    (if is_google_dorks then slice_to max_per_category found else found).

Definition results_in_order (is_google_dorks : bool) (max_per_category : Z)
    (searches : list (str * option (list NewsCollector.RawItem))) : list Article :=
  concat (imap (query_results is_google_dorks max_per_category) searches).

(** The collected fields of [a] are those of [b], and [b] carries an
    identifier, the one of [a] when [a] has one. *)
Definition collected_fields_kept (a b : Article) : Prop :=
  title b = title a /\ snippet b = snippet a /\ url b = url a
  /\ source b = source a /\ date b = date a /\ query b = query a
  /\ search_query b = search_query a /\ category b = category a
  /\ search_mode b = search_mode a /\ relevance_score b = relevance_score a
  /\ selected_for_podcast b = selected_for_podcast a
  /\ is_Some (id b) /\ (is_Some (id a) -> id b = id a).

(** A request to the generative backend carries the output cap [cap]. *)
Definition chat_capped (cap : Z) (e : ArticleEnhancer.event) : Prop :=
  match e with
  | ArticleEnhancer.Chat _ _ max_tokens => max_tokens = cap
  | _ => True
  end.

(** A stand-in for the outside of the enhancer: the clock ticks once per
    event, the database works, the extractor finds 150 characters of text
    in any page; [page] is what the HTTP GET returns and [answer] what
    the generative backend answers, [None] when the call raises. *)
Module Outside.
Import ArticleEnhancer.
Definition sha256_hex (url_ : str) : str := u "sha256:" ++ url_.
Definition now (n : nat) : Z := Z.of_nat n.
Definition db_raises (n : nat) : bool := false.
Definition uuid4_hex (n : nat) : str := u "id-" ++ decimal n.
Definition trafilatura_extract (html : str) : result (option str) :=
  Ok (Some (List.repeat 120%N 150)).
Definition newspaper_parse (url_ html : str) : result Parsed := Raise BackendError.
Definition encode (text : str) : option (list N) := None.
Definition model : str := u "openai".

Definition enhance_articles (page answer : option str) :=
  ArticleEnhancer.enhance_articles sha256_hex now db_raises uuid4_hex
    (fun _ _ => page) (fun _ _ _ _ => answer)
    trafilatura_extract newspaper_parse encode model.

Definition page : option str := Some (u "<html></html>").
Definition blank : option str := Some (u "   ").
Definition brief : option str := Some (u " Records of Example Corp were exposed. ").

Definition article : Article :=
  {| title := Some (u "Breach at Example Corp");
     snippet := Some (u "Records were exposed");
     url := Some (u "https://news.example/breach");
     source := Some (u "Example"); date := Some (u "today");
     query := Some (u "breach");
     search_query := Some (u "breach"); category := Some (u "Query_1");
     search_mode := Some (u "basic_keywords");
     relevance_score := Some 1; id := None; summary := None; enhanced := None;
     enhancement_method := None; original_snippet := None;
     selected_for_podcast := None |}.

Definition article_without_url : Article :=
  {| title := Some (u "Breach at Example Corp");
     snippet := Some (u "Records were exposed");
     url := Some [];
     source := Some (u "Example"); date := Some (u "today");
     query := Some (u "breach");
     search_query := None; category := None; search_mode := None;
     relevance_score := None; id := None; summary := None; enhanced := None;
     enhancement_method := None; original_snippet := None;
     selected_for_podcast := None |}.

Definition article_without_snippet : Article :=
  {| title := Some (u "Breach at Example Corp");
     snippet := Some [];
     url := Some (u "https://news.example/breach");
     source := Some (u "Example"); date := Some (u "today");
     query := Some (u "breach");
     search_query := None; category := None; search_mode := None;
     relevance_score := None; id := None; summary := None; enhanced := None;
     enhancement_method := None; original_snippet := None;
     selected_for_podcast := None |}.

Definition start : World := mkWorld ∅ [].

(** A table with one row, stored at time 5. *)
Definition cached : World :=
  mkWorld {[ sha256_hex (u "https://news.example/breach")
             := mkRow (u "https://news.example/breach") (u "A cached brief.") 5 ]} [].
End Outside.

(** The article of the keyword example. *)
Definition apt_article : Article :=
  {| title := Some (u "APT group targets banks");
     snippet := Some (u "A new campaign was observed");
     url := Some (u "https://news.example/apt");
     source := Some (u "Example"); date := Some (u "today");
     query := Some (u "cybersecurity");
     search_query := Some (u "cybersecurity"); category := Some (u "Query_1");
     search_mode := Some (u "basic_keywords");
     relevance_score := None; id := None; summary := None; enhanced := None;
     enhancement_method := None; original_snippet := None;
     selected_for_podcast := None |}.

(** Sizes of chunk files, and what reassembly leaves out: of every
    chunk after the first, its first 1024 bytes or all of it when it is
    shorter. *)
Definition total_size (contents : list (list byte)) : Z :=
  foldr (fun d n => len d + n) 0 contents.

Definition skipped_size (contents : list (list byte)) : Z :=
  foldr (fun d n => Z.min 1024 (len d) + n) 0 (tail contents).

(** The combined file the specification describes. *)
Definition reassembled (contents : list (list byte)) : list byte :=
  match contents with
  | [] => []
  | first :: later => first ++ concat (List.map (drop 1024) later)
  end.

(** Two small chunk files and a run that combines them. *)
Module SmallChunks.
Definition creatable (path : str) : bool := true.
Definition default_audio_file : str := u "daily_briefing.mp3".
Definition briefing_beside (path : str) : str := u "daily_briefing.mp3".
Definition chunk0 : str := u "temp_audio_chunk_0.mp3".
Definition chunk1 : str := u "temp_audio_chunk_1.mp3".
Definition fs : disk :=
  <[chunk0 := [x49; x44; x33]]> (<[chunk1 := [x49; x44]]> ∅).
Definition long0 : list byte := List.repeat xff 1030.
Definition long1 : list byte := List.repeat xfb 1027.
Definition long_fs : disk := <[chunk0 := long0]> (<[chunk1 := long1]> ∅).
Definition _combine_audio_chunks :=
  Reassembly._combine_audio_chunks creatable default_audio_file briefing_beside.
End SmallChunks.

(** A synthesis run on a text of two long sentences, with a speech
    backend whose first request fails and whose later requests succeed. *)
Module FailingSpeech.
Definition creatable (path : str) : bool := true.
Definition default_audio_file : str := u "daily_briefing.mp3".
Definition briefing_beside (path : str) : str := u "daily_briefing.mp3".
Definition chunk_path (i : nat) : str := u "temp_chunk_" ++ decimal i ++ u ".mp3".
Definition clean_text_for_audio (text : str) : str := text.
Definition speech_api (n : nat) (text : str) : option (list byte) :=
  match n with O => None | S _ => Some [x49; x44; x33] end.
Definition second_fails (n : nat) (text : str) : option (list byte) :=
  match n with 1%nat => None | _ => Some [x49; x44; x33] end.
Definition first_sentence (size : nat) : str := List.repeat 97%N size.
Definition second_sentence (size : nat) : str := List.repeat 98%N size.
Definition text (size : nat) : str :=
  first_sentence size ++ u ". " ++ second_sentence size.
Definition start : World := mkWorld ∅ [].

Definition _generate_chunked_audio :=
  ElevenLabsTTS._generate_chunked_audio creatable default_audio_file briefing_beside
    chunk_path speech_api ElevenLabsTTS.__init__.
End FailingSpeech.

(** The word loop of the ElevenLabs splitter run on one sentence alone:
    the sub-chunks it closes, and the words left open after the last. *)
Definition word_chunks (self : ElevenLabsTTS.t) (sentence : str) : list str * str :=
  fold_left (ElevenLabsTTS.word_step self) (words sentence) ([], []).

(** A chunk of the ElevenLabs splitter that stems from the over-long
    sentence [s]: a sub-chunk closed by the word loop, what the loop left
    open with its [". "], or the whole text when nothing else was kept. *)
Definition stems_from (self : ElevenLabsTTS.t) (text s c : str) : Prop :=
  c ∈ (word_chunks self s).1
  \/ c = strip ((word_chunks self s).2 ++ u ". ")
  \/ c = strip text.

(** A text with a character that is not whitespace. *)
Definition inked (x : str) : Prop := exists c, c ∈ x /\ is_space c = false.

(** Words written one after the other, each followed by a space: how the
    word loop builds a sub-chunk. *)
Definition spaced (group : list str) : str :=
  concat (List.map (fun w => w ++ u " ") group).

(** Texts for the splitters: two hundred words of nine letters in one
    sentence, and a sentence of 45 letters followed by a short one. *)
Module LongTexts.
Definition many_words : str := join (u " ") (List.repeat (List.repeat 97%N 9) 200).
Definition long_sentence : str :=
  List.repeat 97%N 45 ++ u ". " ++ List.repeat 98%N 10.
Definition four_words : str := u "aaaa bbbb cccc dddd".
End LongTexts.

(** Invariants of the two splitting loops. A chunk of the OpenAI
    splitter is fine when it is within the maximum or is one whole
    over-long sentence; what the loop holds open is empty, within the
    maximum, or one over-long sentence. *)
Definition openai_fine (max_chars : Z) (text c : str) : Prop :=
  len c <= max_chars
  \/ exists s, s ∈ split (u ". ") text /\ max_chars < len (s ++ u ". ")
               /\ c = strip (s ++ u ". ").

Definition openai_open (max_chars : Z) (text cur : str) : Prop :=
  cur = [] \/ len cur <= max_chars
  \/ exists s, s ∈ split (u ". ") text /\ max_chars < len (s ++ u ". ")
               /\ cur = s ++ u ". ".

(** A group of sentences that becomes one chunk of the OpenAI splitter:
    closed, it is within the maximum, or it is one sentence that alone
    exceeds it. *)
Definition sentence_group_fits (m : Z) (g : list str) : Prop :=
  len (closed g) <= m \/ exists s, g = [s] /\ m < len (s ++ u ". ").

(** The same for the ElevenLabs splitter, and the reason its last resort
    (the whole text as one chunk) is only reached past an over-long
    sentence. *)
Definition elevenlabs_fine (self : ElevenLabsTTS.t) (text c : str) : Prop :=
  len c <= ElevenLabsTTS.max_chars self
  \/ exists s, s ∈ split (u ". ") text
               /\ ElevenLabsTTS.max_chars self < len (s ++ u ". ")
               /\ stems_from self text s c.

Definition elevenlabs_open (self : ElevenLabsTTS.t) (text cur : str) : Prop :=
  cur = [] \/ len cur <= ElevenLabsTTS.max_chars self
  \/ exists s, s ∈ split (u ". ") text
               /\ ElevenLabsTTS.max_chars self < len (s ++ u ". ")
               /\ cur = (word_chunks self s).2 ++ u ". ".

Definition elevenlabs_progress (self : ElevenLabsTTS.t) (text : str)
    (st : list str * str) : Prop :=
  st.1 <> [] \/ truthy (strip st.2) = true
  \/ exists s, s ∈ split (u ". ") text
               /\ ElevenLabsTTS.max_chars self < len (s ++ u ". ").

(** Inputs of the scenarios the specification lists as tests. *)
Module Scenarios.
Definition raw (title_ snippet_ link : string) : NewsCollector.RawItem :=
  NewsCollector.mkRaw (Some (u title_)) (Some (u snippet_)) (Some (u link))
    (Some (u "Example")) (Some (u "today")).

Definition news (title_ snippet_ link category_ : string) : Article :=
  {| title := Some (u title_); snippet := Some (u snippet_); url := Some (u link);
     source := Some (u "Example"); date := Some (u "today"); query := Some (u "q");
     search_query := Some (u "q"); category := Some (u category_);
     search_mode := Some (u "google_dorks");
     relevance_score := None; id := None; summary := None; enhanced := None;
     enhancement_method := None; original_snippet := None;
     selected_for_podcast := None |}.

(** Two queries whose results overlap in one URL. *)
Definition searches : list (str * option (list NewsCollector.RawItem)) :=
  [(u "ransomware",
    Some [raw "Ransomware hits a port" "First report" "https://a.example/1";
          raw "Breach at a bank" "First report" "https://b.example/2"]);
   (u "breach",
    Some [raw "Bank breach, again" "Second report" "https://b.example/2";
          raw "Funding round" "Third report" "https://c.example/3"])].

(** Three articles that score 2, 0 and 1 on the two keywords. *)
Definition keywords : list str := [u "ransomware"; u "breach"].
Definition scored : list Article :=
  [news "Ransomware gang behind breach" "Details" "https://a.example/1" "Query_1";
   news "Quarterly results" "Nothing to see" "https://b.example/2" "Query_1";
   news "Data Breach at a bank" "Details" "https://c.example/3" "Query_1"].

(** A response that names two of three grouped articles. *)
Definition response : str :=
  u "## Breaches" ++ [10%N; 8226%N] ++ u " **URL:** https://b.com" ++ [10%N]
  ++ u "## APTs" ++ [10%N; 8226%N] ++ u " **URL:** https://a.com" ++ [10%N].
Definition grouped : list (str * list Article) :=
  ArticleAnalyzer._group_articles_by_category
    [news "Breach" "Summary" "https://b.com" "Breaches & Incidents";
     news "Espionage" "Summary" "https://a.com" "APTs & Cyber-Espionage";
     news "Other breach" "Summary" "https://c.com" "Breaches & Incidents"].
End Scenarios.

(* ================================================================== *)
(** ** Properties *)
(* ================================================================== *)

Section BudgetProperties.
Import ArticleAnalyzer.

(** Whatever limits the analyzer holds, the message budget is capped by
    what the completion reserve leaves, so the final check never fires
    and the two budgets fit in the context window. *)
Lemma dynamic_limits_fit encode (self : t) model sp up :
  let '(m, c) := _calculate_dynamic_limits encode self model sp up in
  m + c <= max_context_tokens self.
Proof.
  unfold _calculate_dynamic_limits.
  destruct (ModelManager.should_apply_token_limits model);
    match goal with
    | |- context [ ?a >? ?b ] => destruct (Z.gtb_spec a b)
    end; lia.
Qed.

Lemma init_cases model :
  __init__ model = mk 8192 6000 500 /\
    ModelManager.should_apply_token_limits model = true
  \/ __init__ model = mk 1048576 500000 8000 /\
    ModelManager.should_apply_token_limits model = false.
Proof.
  unfold __init__, ModelManager.should_apply_token_limits,
    ModelManager.get_max_context_tokens, ModelManager.max_input_tokens,
    ModelManager.is_gemini, str_in, str_eqb; simpl.
  repeat case_bool_decide; simpl; auto.
Qed.

(** C1. For every selected model (the precise OpenAI profile and the
    approximate Gemini profiles) and every pair of prompts, the budgets
    computed by [_calculate_dynamic_limits] on an analyzer built for
    that model satisfy message + completion <= context window, and the
    completion budget is at least the minimum completion floor. *)
Theorem dynamic_limits_within_context :
  forall (encode : str -> option (list N)) (model system_prompt user_prompt : str),
    let self := __init__ model in
    let '(m, c) :=
      _calculate_dynamic_limits encode self model system_prompt user_prompt in
    m + c <= max_context_tokens self /\ min_completion_tokens self <= c.
Proof.
  intros encode model sp up self. subst self.
  unfold _calculate_dynamic_limits.
  destruct (init_cases model) as [[-> ->] | [-> ->]];
    cbv zeta; cbn [max_context_tokens max_message_tokens min_completion_tokens];
    vm_compute; split; discriminate.
Qed.

End BudgetProperties.

(* ------------------------------------------------------------------ *)
(** *** Facts about the built-ins *)
(* ------------------------------------------------------------------ *)

Section BuiltinFacts.

Lemma len_app {A} (a b : list A) : len (a ++ b) = len a + len b.
Proof. unfold len. rewrite length_app. lia. Qed.

Lemma len_nonneg {A} (a : list A) : 0 <= len a.
Proof. unfold len. lia. Qed.

Lemma truthy_true {A} (l : list A) : truthy l = true <-> l <> [].
Proof. destruct l; simpl; split; congruence. Qed.

Lemma truthy_false {A} (l : list A) : truthy l = false <-> l = [].
Proof. destruct l; simpl; split; congruence. Qed.

Lemma str_eqb_eq a b : str_eqb a b = true <-> a = b.
Proof. unfold str_eqb. apply bool_decide_eq_true. Qed.

Lemma str_in_elem x l : str_in x l = true <-> x ∈ l.
Proof.
  unfold str_in. rewrite existsb_exists. split.
  - intros (y & Hy & E). apply str_eqb_eq in E. subst. by apply list_elem_of_In.
  - intros H. exists x. split; [by apply list_elem_of_In | by apply str_eqb_eq].
Qed.

Lemma lstrip_length s : (length (lstrip s) <= length s)%nat.
Proof. induction s as [|c s IH]; simpl; [lia|]. destruct (is_space c); simpl; lia. Qed.

Lemma strip_length s : (length (strip s) <= length s)%nat.
Proof.
  unfold strip, rstrip. rewrite length_rev.
  etransitivity; [apply lstrip_length|]. rewrite length_rev. apply lstrip_length.
Qed.

Lemma len_strip s : len (strip s) <= len s.
Proof. unfold len. pose proof (strip_length s). lia. Qed.

Lemma split_aux_nonempty sep k cur s : split_aux sep k cur s <> [].
Proof.
  revert k cur. induction s as [|c s IH]; intros k cur; simpl; [done|].
  destruct k; [|apply IH]. destruct (starts_with sep (c :: s)); [done | apply IH].
Qed.

Lemma starts_with_app p s : starts_with p (p ++ s) = true.
Proof. induction p as [|a p IH]; simpl; [done|]. by rewrite N.eqb_refl. Qed.

Lemma starts_with_inv p s : starts_with p s = true -> s = p ++ drop (length p) s.
Proof.
  revert s. induction p as [|a p IH]; intros [|b s]; simpl; try done.
  intros [E H]%andb_true_iff. apply N.eqb_eq in E. subst. f_equal. by apply IH.
Qed.

Lemma contains_head needle s : starts_with needle s = true -> contains needle s = true.
Proof. intros H. destruct s; cbn [contains]; by rewrite H. Qed.

Lemma contains_suffix needle a b :
  contains needle b = true -> contains needle (a ++ b) = true.
Proof.
  intros H. induction a as [|c a IH]; [done|].
  cbn [app contains]. rewrite IH. apply orb_true_r.
Qed.

Lemma Forall2_weaken_in {A B} (R S : A -> B -> Prop) l k :
  Forall2 R l k -> (forall a b, a ∈ l -> R a b -> S a b) -> Forall2 S l k.
Proof.
  induction 1 as [|a b l k Hab Hlk IH]; intros Himp; constructor.
  - apply Himp; [by left | done].
  - apply IH. intros a' b' Hin. apply Himp. by right.
Qed.

Lemma slice_to_take {A} n (l : list A) : 0 <= n -> slice_to n l = take (Z.to_nat n) l.
Proof. intros H. unfold slice_to. destruct (Z.leb_spec 0 n); [done | lia]. Qed.

End BuiltinFacts.

(** [list.sort] permutes, orders by the key and keeps the order of
    elements with equal keys. *)
Section SortFacts.
Context {A : Type} (key : A -> Z).

Lemma insert_by_perm x l : Permutation (insert_by key x l) (x :: l).
Proof.
  induction l as [|y l IH]; simpl; [done|].
  destruct (key x <=? key y); [done|]. rewrite IH. apply perm_swap.
Qed.

Lemma sort_by_perm l : Permutation (sort_by key l) l.
Proof.
  induction l as [|x l IH]; simpl; [done|].
  rewrite insert_by_perm. by constructor.
Qed.

Lemma insert_by_sorted x l :
  StronglySorted (fun a b => key a <= key b) l ->
  StronglySorted (fun a b => key a <= key b) (insert_by key x l).
Proof.
  induction 1 as [|y l Hs IH Hall]; simpl; [repeat constructor|].
  destruct (Z.leb_spec (key x) (key y)) as [Hle|Hgt].
  - constructor; [by constructor|]. constructor; [done|].
    eapply Forall_impl; [exact Hall|]. simpl. intros; lia.
  - constructor; [done|].
    rewrite (insert_by_perm x l). constructor; [lia | done].
Qed.

Lemma sort_by_sorted l : StronglySorted (fun a b => key a <= key b) (sort_by key l).
Proof.
  induction l as [|x l IH]; simpl; [constructor | by apply insert_by_sorted].
Qed.

Lemma insert_by_stable k x l :
  List.filter (same_key key k) (insert_by key x l) = List.filter (same_key key k) (x :: l).
Proof.
  induction l as [|y l IH]; [done|].
  cbn [insert_by]. destruct (Z.leb_spec (key x) (key y)) as [Hle|Hgt]; [done|].
  cbn [List.filter] in *. rewrite IH. unfold same_key.
  destruct (Z.eqb_spec (key x) k), (Z.eqb_spec (key y) k); try done; lia.
Qed.

Lemma sort_by_stable k l :
  List.filter (same_key key k) (sort_by key l) = List.filter (same_key key k) l.
Proof.
  induction l as [|x l IH]; [done|].
  cbn [sort_by foldr]. fold (sort_by key l). rewrite insert_by_stable.
  cbn [List.filter]. by rewrite IH.
Qed.

End SortFacts.

Section ReverseSortFacts.
Context {A : Type} (key : A -> Z).

Lemma sort_reverse_perm l : Permutation (Py.sort key true l) l.
Proof. apply sort_by_perm. Qed.

Lemma sort_reverse_sorted l :
  StronglySorted (fun a b => key b <= key a) (Py.sort key true l).
Proof.
  unfold Py.sort.
  induction (sort_by_sorted (fun x => - key x) l) as [|y l' Hs IH Hall];
    constructor; [done|].
  eapply Forall_impl; [exact Hall|]. simpl. intros; lia.
Qed.

Lemma sort_reverse_stable k l :
  List.filter (same_key key k) (Py.sort key true l) = List.filter (same_key key k) l.
Proof.
  unfold Py.sort.
  pose proof (sort_by_stable (fun x => - key x) (- k) l) as H.
  assert (E : forall x, same_key (fun x => - key x) (- k) x = same_key key k x).
  { intros x. unfold same_key.
    destruct (Z.eqb_spec (- key x) (- k)), (Z.eqb_spec (key x) k); try done; lia. }
  by rewrite !(filter_ext _ _ E) in H.
Qed.

End ReverseSortFacts.

(* ------------------------------------------------------------------ *)
(** *** Collector: de-duplication by URL *)
(* ------------------------------------------------------------------ *)

Section CollectorProperties.
Import NewsCollector.

Lemma unique_by_url_fresh seen l :
  NoDup (url_of <$> unique_by_url seen l)
  /\ Forall (fun a => (url_of a ∉ seen) /\ url_of a <> []) (unique_by_url seen l).
Proof.
  revert seen. induction l as [|a l IH]; intros seen; simpl.
  { split; constructor. }
  fold (url_of a).
  destruct (truthy (url_of a)) eqn:Ht; simpl; [|apply IH].
  case_bool_decide as Hin; simpl; [apply IH|].
  destruct (IH ({[url_of a]} ∪ seen)) as [Hnd Hall].
  rewrite Forall_forall in Hall. split.
  - constructor; [|done]. intros Hmem.
    apply list_elem_of_fmap in Hmem as (b & Eb & Hb).
    destruct (Hall b Hb) as [Hb' _]. apply Hb'. rewrite <- Eb.
    apply elem_of_union. left. by apply elem_of_singleton.
  - constructor; [split; [done | by apply truthy_true]|].
    apply Forall_forall. intros b Hb. destruct (Hall b Hb) as [Hb1 Hb2].
    split; [|done]. intros Hs. apply Hb1. apply elem_of_union. by right.
Qed.

Lemma unique_by_url_sublist seen l : unique_by_url seen l `sublist_of` l.
Proof.
  revert seen. induction l as [|a l IH]; intros seen; simpl; [done|].
  destruct (_ && _); [by apply sublist_skip | by apply sublist_cons].
Qed.

(** The survivors carrying URL [v]: the first article of the input with
    that URL, unless [v] is empty or was seen before. *)
Lemma unique_by_url_first seen l v :
  List.filter (has_url v) (unique_by_url seen l)
  = if truthy v && negb (bool_decide (v ∈ seen))
    then option_list (List.find (has_url v) l) else [].
Proof.
  revert seen. induction l as [|a l IH]; intros seen.
  { simpl. by destruct (_ && _). }
  cbn [unique_by_url List.find]. fold (url_of a).
  unfold has_url at 2. destruct (str_eqb (url_of a) v) eqn:E.
  - apply str_eqb_eq in E. rewrite E.
    destruct (truthy v && negb (bool_decide (v ∈ seen))) eqn:C.
    + cbn [List.filter]. unfold has_url at 1. rewrite E.
      replace (str_eqb v v) with true by (symmetry; by apply str_eqb_eq).
      rewrite IH. rewrite (bool_decide_eq_true_2 (v ∈ {[v]} ∪ seen))
        by (apply elem_of_union; left; by apply elem_of_singleton).
      by rewrite andb_false_r.
    + rewrite IH. by rewrite C.
  - assert (Hne : url_of a <> v).
    { intros Hv. apply str_eqb_eq in Hv. congruence. }
    destruct (truthy (url_of a) && negb (bool_decide (url_of a ∈ seen))).
    + cbn [List.filter]. unfold has_url at 1. rewrite E. rewrite IH.
      replace (bool_decide (v ∈ {[url_of a]} ∪ seen)) with (bool_decide (v ∈ seen)); [done|].
      apply bool_decide_ext. rewrite elem_of_union, elem_of_singleton.
      split; [by right | intros [?|?]; [congruence | done]].
    + apply IH.
Qed.

Lemma search_news_cleaned q r :
  search_news q r = List.map (cleaned q) (List.filter meaningful (default [] r)).
Proof.
  destruct r as [items|]; [|done]. cbn [search_news default from_option].
  unfold Datatypes.id.
  induction items as [|item items IH]; [done|].
  cbn [flat_map List.filter]. rewrite IH. unfold meaningful at 2.
  cbn [title snippet Dict.get default from_option]. unfold Datatypes.id.
  by destruct (truthy (strip (Dict.get (raw_title item) []))
              && truthy (strip (Dict.get (raw_snippet item) []))).
Qed.

Lemma slice_to_nil {A} n : slice_to n (@nil A) = [].
Proof. unfold slice_to. destruct (0 <=? n); apply take_nil. Qed.

Lemma tag_query_results dorks max i q r :
  tag_query dorks max i q (search_news q r) = query_results dorks max i (q, r).
Proof.
  unfold tag_query, query_results. cbn [fst snd]. rewrite <- search_news_cleaned.
  fold (category_for dorks i).
  assert ((if dorks && truthy (search_news q r)
           then slice_to max (search_news q r) else search_news q r)
          = (if dorks then slice_to max (search_news q r) else search_news q r)) as ->.
  { destruct dorks; [|done]. cbn [andb].
    destruct (search_news q r); [by rewrite slice_to_nil | done]. }
  done.
Qed.

Lemma merge_queries_in_order dorks max searches i :
  merge_queries dorks max i searches
  = concat (imap (fun j => query_results dorks max (i + j)) searches).
Proof.
  revert i. induction searches as [|[q r] rest IH]; intros i; [done|].
  cbn [merge_queries imap concat]. rewrite tag_query_results, IH, Nat.add_0_r.
  do 2 f_equal. apply imap_ext. intros j x _. cbn. f_equal. lia.
Qed.

(** C4, as the code has it. Whatever the searches return, the
    collector's output holds no URL twice and keeps the order in which
    the articles are seen; for every (non-empty) URL it holds exactly
    one article, the first one seen with that URL, all fields as first
    seen. What is seen are the per-query results with a title and a
    snippet that are not blank, in query order, and in Google-dorks
    mode only the first [max_articles_per_category] of each query:
    a result beyond the cap is not seen, so an article of a later query
    with the same URL is kept in its place. Results without a URL are
    dropped. *)
Theorem collect_daily_news_unique_urls :
  forall (is_google_dorks : bool) (max_per_category : Z)
         (searches : list (str * option (list RawItem))),
    let seen := results_in_order is_google_dorks max_per_category searches in
    let out := collect_daily_news is_google_dorks max_per_category searches in
    NoDup (url_of <$> out)
    /\ out `sublist_of` seen
    /\ forall v : str,
         List.filter (has_url v) out
         = if truthy v then option_list (List.find (has_url v) seen) else [].
Proof.
  intros g m searches seen out. unfold out, collect_daily_news.
  rewrite merge_queries_in_order. change (fun j => query_results g m (0 + j))
    with (query_results g m). fold (results_in_order g m searches). fold seen.
  split; [apply unique_by_url_fresh|].
  split; [apply unique_by_url_sublist|].
  intros v. rewrite unique_by_url_first.
  rewrite (bool_decide_eq_false_2 (v ∈ (∅ : gset str))) by apply not_elem_of_empty.
  by rewrite andb_true_r.
Qed.

End CollectorProperties.

Section CollectorExamples.
Import NewsCollector Scenarios.

(** Against C4 as stated. In Google-dorks mode with one article per
    category, the first query returns the URL [https://b.example/2] as
    its second result, which the cap cuts; the second query returns the
    same URL first. The output keeps the article of the second query:
    its title and its category, not those of the first one seen. *)
Lemma capped_result_hides_first_seen :
  List.map (fun a => (title a, url a))
    (search_news (u "ransomware")
       (Some [raw "Ransomware hits a port" "First report" "https://a.example/1";
              raw "Breach at a bank" "First report" "https://b.example/2"]))
  = [(Some (u "Ransomware hits a port"), Some (u "https://a.example/1"));
     (Some (u "Breach at a bank"), Some (u "https://b.example/2"))]
  /\ List.map (fun a => (title a, url a, category a))
       (collect_daily_news true 1 searches)
     = [(Some (u "Ransomware hits a port"), Some (u "https://a.example/1"),
         Some (u "APTs & Cyber-Espionage"));
        (Some (u "Bank breach, again"), Some (u "https://b.example/2"),
         Some (u "Arrests & Cybercrime"))].
Proof. vm_compute. split; reflexivity. Qed.

End CollectorExamples.

(* ------------------------------------------------------------------ *)
(** *** Relevance filter *)
(* ------------------------------------------------------------------ *)

Section FilterProperties.
Import NewsCollector.
Variable lower : str -> str.

Lemma relevance_count kws a :
  relevance lower kws a
  = len (List.filter (fun kw => contains kw (searched_text lower a)) kws).
Proof.
  unfold relevance. fold (searched_text lower a).
  generalize (searched_text lower a) as text. intros text.
  assert (G : forall n,
    fold_left (fun score keyword => if contains keyword text then score + 1 else score) kws n
    = n + len (List.filter (fun kw => contains kw text) kws)).
  { induction kws as [|k kws IH]; intros n; cbn [fold_left List.filter].
    - unfold len. simpl. lia.
    - rewrite IH. destruct (contains k text); unfold len; simpl length; lia. }
  rewrite G. lia.
Qed.

Lemma score_articles_filter kws min_score l :
  score_articles lower kws min_score l
  = List.map (fun a => Dict.set_relevance_score (relevance lower kws a) a)
      (List.filter (fun a => relevance lower kws a >=? min_score) l).
Proof.
  induction l as [|a l IH]; [done|].
  cbn [score_articles flat_map List.filter]. fold (score_articles lower kws min_score l).
  rewrite IH. by destruct (_ >=? _).
Qed.

(** What the filter computes when every keyword is looked up verbatim
    in the lower-cased title, a space and the snippet: threshold, score
    written, stable descending sort, truncation. *)
Lemma filter_relevant_articles_spec kws min_relevance_score max_articles l :
  0 <= max_articles ->
  let min_score := Dict.get min_relevance_score 1 in
  let scored :=
    List.map (fun a => Dict.set_relevance_score (relevance lower kws a) a)
      (List.filter (fun a => relevance lower kws a >=? min_score) l) in
  exists sorted,
    filter_relevant_articles lower kws min_relevance_score max_articles l
    = take (Z.to_nat max_articles) sorted
    /\ Permutation sorted scored
    /\ StronglySorted (fun a b => score_of b <= score_of a) sorted
    /\ forall k, List.filter (same_key score_of k) sorted
                 = List.filter (same_key score_of k) scored.
Proof.
  intros Hmax min_score scored.
  exists (Py.sort score_of true scored).
  unfold filter_relevant_articles. fold min_score.
  rewrite score_articles_filter. fold scored.
  split; [by rewrite slice_to_take|].
  split; [apply sort_reverse_perm|].
  split; [apply sort_reverse_sorted | intros k; apply sort_reverse_stable].
Qed.

End FilterProperties.

Section FilterKeywordCase.
Import NewsCollector.

(** C8. With the configured keyword [APT], an article titled
    "APT group targets banks" is scored 0 and filtered out, although
    the keyword occurs in its title up to case: only the article text
    is lower-cased, the keyword is compared as configured. *)
Theorem relevance_keyword_case_missed :
  relevance ascii_lower [u "APT"] apt_article = 0
  /\ filter_relevant_articles ascii_lower [u "APT"] None 5 [apt_article] = []
  /\ contains (ascii_lower (u "APT")) (searched_text ascii_lower apt_article) = true.
Proof. by vm_compute. Qed.

End FilterKeywordCase.

(* ------------------------------------------------------------------ *)
(** *** Selector: URLs recovered from the analysis text *)
(* ------------------------------------------------------------------ *)

Section SelectorProperties.
Import ArticleAnalyzer.

Lemma strip_prefix_inv p s r : strip_prefix p s = Some r -> s = p ++ r.
Proof.
  unfold strip_prefix. destruct (starts_with p s) eqn:E; [|done].
  intros [= <-]. by apply starts_with_inv.
Qed.

Lemma non_space_run_split s :
  exists after,
    s = non_space_run s ++ after
    /\ Forall (fun c => is_space c = false) (non_space_run s)
    /\ match after with [] => True | c :: _ => is_space c = true end.
Proof.
  induction s as [|c s (after & E & Hrun & Hafter)]; cbn [non_space_run].
  - exists []. by repeat split.
  - destruct (is_space c) eqn:Hc.
    + exists (c :: s). by repeat split.
    + exists after. repeat split; [|by constructor | done].
      cbn [app]. by f_equal.
Qed.

Lemma match_rest_inv scheme s v :
  match_rest scheme s = Some v ->
  exists run after,
    v = scheme ++ u "://" ++ run /\ s = u "://" ++ run ++ after
    /\ run <> [] /\ Forall (fun c => is_space c = false) run
    /\ match after with [] => True | c :: _ => is_space c = true end.
Proof.
  unfold match_rest. destruct (strip_prefix (u "://") s) as [rest|] eqn:E; [|done].
  apply strip_prefix_inv in E.
  destruct (truthy (non_space_run rest)) eqn:Ht; [|done]. intros [= <-].
  destruct (non_space_run_split rest) as (after & Er & Hrun & Hafter).
  exists (non_space_run rest), after.
  repeat split; try done.
  - rewrite E. by rewrite <- Er.
  - by apply truthy_true.
Qed.

(** A match at the head of [s] captures a URL that stands there right
    after the marker and runs up to the next whitespace. *)
Lemma match_url_inv marker s v :
  match_url marker s = Some v ->
  exists after,
    s = marker ++ v ++ after /\ url_shape v
    /\ match after with [] => True | c :: _ => is_space c = true end.
Proof.
  unfold match_url.
  destruct (strip_prefix marker s) as [r1|] eqn:E1; [|done].
  apply strip_prefix_inv in E1.
  destruct (strip_prefix (u "http") r1) as [r2|] eqn:E2; [|done].
  apply strip_prefix_inv in E2.
  destruct (strip_prefix (u "s") r2) as [r3|] eqn:E3.
  - apply strip_prefix_inv in E3.
    destruct (match_rest (u "https") r3) as [w|] eqn:E4.
    + intros [= <-].
      apply match_rest_inv in E4 as (run & after & -> & -> & Hne & Hrun & Hafter).
      exists after. split; [by subst|]. split; [|done].
      exists run. split; [by right | done].
    + intros E5.
      apply match_rest_inv in E5 as (run & after & -> & E5 & Hne & Hrun & Hafter).
      subst r2. discriminate E5.
  - intros E5.
    apply match_rest_inv in E5 as (run & after & -> & -> & Hne & Hrun & Hafter).
    exists after. split; [by subst|]. split; [|done].
    exists run. split; [by left | done].
Qed.

Lemma findall_aux_sound marker k s v :
  v ∈ findall_aux marker k s -> exists before s', s = before ++ s' /\ match_url marker s' = Some v.
Proof.
  revert k. induction s as [|c s IH]; intros k; cbn [findall_aux].
  { by intros ?%not_elem_of_nil. }
  destruct k as [|k].
  - destruct (match_url marker (c :: s)) as [w|] eqn:E.
    + intros [->|Hin]%elem_of_cons.
      * by exists [], (c :: s).
      * apply IH in Hin as (before & s' & -> & Hm). by exists (c :: before), s'.
    + intros Hin. apply IH in Hin as (before & s' & -> & Hm). by exists (c :: before), s'.
  - intros Hin. apply IH in Hin as (before & s' & -> & Hm). by exists (c :: before), s'.
Qed.

Lemma findall_marked marker text v : v ∈ findall marker text -> marked_in marker v text.
Proof.
  intros (before & s' & -> & Hm)%findall_aux_sound.
  apply match_url_inv in Hm as (after & -> & Hshape & Hafter).
  by exists before, after.
Qed.

(** The pattern finds nothing exactly when it matches at no position. *)
Lemma findall_nil marker text :
  findall marker text = [] <->
  forall before s', text = before ++ s' -> match_url marker s' = None.
Proof.
  unfold findall. split.
  - induction text as [|c s IH]; cbn [findall_aux].
    + intros _ before s' E. symmetry in E. apply app_eq_nil in E as [_ ->].
      unfold match_url, strip_prefix.
      destruct (starts_with marker []) eqn:Em; [|done].
      apply starts_with_inv in Em. symmetry in Em.
      apply app_eq_nil in Em as [-> _]. done.
    + destruct (match_url marker (c :: s)) eqn:E; [done|].
      intros Hnil [|b before] s' Es; simpl in Es.
      * by subst.
      * injection Es as -> ->. by eapply IH.
  - intros Hno.
    assert (G : forall k, findall_aux marker k text = []); [|apply G].
    induction text as [|c s IH]; intros k; cbn [findall_aux]; [done|].
    assert (Hs : forall before s', s = before ++ s' -> match_url marker s' = None).
    { intros before s' ->. by apply (Hno (c :: before)). }
    destruct k; [|by apply IH].
    rewrite (Hno [] (c :: s) eq_refl). by apply IH.
Qed.

Lemma selection_flat urls groups :
  flat_map (fun bucket : str * list Article =>
    flat_map (fun article =>
      if str_in (Dict.get (url article) []) urls
      then [Dict.set_selected_for_podcast true article] else []) (snd bucket)) groups
  = List.map (Dict.set_selected_for_podcast true)
      (List.filter (fun a => str_in (url_of a) urls) (all_articles groups)).
Proof.
  assert (G : forall l,
    flat_map (fun article =>
      if str_in (Dict.get (url article) []) urls
      then [Dict.set_selected_for_podcast true article] else []) l
    = List.map (Dict.set_selected_for_podcast true)
        (List.filter (fun a => str_in (url_of a) urls) l)).
  { induction l as [|a l IH]; [done|]. cbn [flat_map List.filter]. rewrite IH.
    unfold url_of. by destruct (str_in _ _). }
  unfold all_articles. induction groups as [|[c l] groups IH]; [done|].
  cbn [flat_map snd]. rewrite IH, G. by rewrite List.filter_app, List.map_app.
Qed.

Lemma index_of_spec x l :
  match index_of x l with
  | Some i => l !! i = Some x /\ (i < length l)%nat
  | None => x ∉ l
  end.
Proof.
  induction l as [|y l IH]; cbn [index_of]; [apply not_elem_of_nil|].
  destruct (str_eqb y x) eqn:E.
  - apply str_eqb_eq in E. subst. split; [done | simpl; lia].
  - destruct (index_of x l) as [i|]; simpl.
    + destruct IH. split; [done | simpl; lia].
    + intros [->|?]%elem_of_cons; [|done].
      by rewrite (proj2 (str_eqb_eq y y) eq_refl) in E.
Qed.

Lemma get_category_order_spec a :
  0 <= get_category_order a <= 6
  /\ (get_category_order a = 6 <-> category_of a ∉ category_order)
  /\ forall i : nat, get_category_order a = Z.of_nat i -> (i < 6)%nat ->
       category_order !! i = Some (category_of a).
Proof.
  unfold get_category_order. fold (category_of a).
  pose proof (index_of_spec (category_of a) category_order) as H.
  change (length category_order) with 6%nat in H.
  change (len category_order) with 6.
  destruct (index_of (category_of a) category_order) as [i|].
  - destruct H as [Hi Hlt]. split; [lia|]. split.
    + split; [lia|]. intros Hn. exfalso. apply Hn. by eapply list_elem_of_lookup_2.
    + intros j Hj _. by replace j with i by lia.
  - split; [lia|]. split; [done|]. intros j Hj Hlt. lia.
Qed.

Lemma url_shape_no_space v : url_shape v -> Forall (fun c => is_space c = false) v.
Proof.
  intros (run & [-> | ->] & _ & Hrun); apply Forall_app; (split; [|done]);
    repeat (apply Forall_cons; split; [done|]); apply Forall_nil_2.
Qed.

End SelectorProperties.

Section SelectorScan.
Import ArticleAnalyzer.

Lemma run_starts c run rest :
  is_space c = false -> truthy (non_space_run ((c :: run) ++ rest)) = true.
Proof. intros H. cbn [app non_space_run]. by rewrite H. Qed.

(** Where a marked URL begins, the pattern matches. *)
Lemma begins_match marker s : begins_marked marker s -> match_url marker s <> None.
Proof.
  intros (v & rest & -> & run & Hv & Hne & Hrun).
  destruct run as [|c run]; [done|]. apply Forall_cons in Hrun as [Hc _].
  unfold match_url, strip_prefix. rewrite starts_with_app, drop_app_length.
  destruct Hv as [-> | ->].
  - change (u "http://" ++ c :: run) with (u "http" ++ u "://" ++ c :: run).
    rewrite <- !app_assoc. rewrite starts_with_app, drop_app_length.
    change (starts_with (u "s") (u "://" ++ (c :: run) ++ rest)) with false. cbv iota.
    unfold match_rest, strip_prefix. rewrite starts_with_app, drop_app_length.
    by rewrite run_starts.
  - change (u "https://" ++ c :: run) with (u "http" ++ u "s" ++ u "://" ++ c :: run).
    rewrite <- !app_assoc. rewrite starts_with_app, drop_app_length.
    rewrite starts_with_app, drop_app_length.
    unfold match_rest, strip_prefix. rewrite starts_with_app, drop_app_length.
    by rewrite run_starts.
Qed.

Lemma drop_pred_tail {A} (c : A) s m rest :
  c :: s = m ++ rest -> m <> [] -> drop (Nat.pred (length m)) s = rest.
Proof.
  intros E Hm. destruct m as [|d m]; [done|]. cbn [length Nat.pred].
  injection E as -> ->. apply drop_app_length.
Qed.

(** The captures of the model are those of the reading rule. *)
Lemma findall_aux_scanned marker s skip :
  (skip <= length s)%nat ->
  scanned marker (drop skip s) (findall_aux marker skip s).
Proof.
  revert skip. induction s as [|c s IH]; intros skip Hskip.
  { cbn [length] in Hskip. replace skip with 0%nat by lia. constructor. }
  destruct skip as [|k]; cbn [findall_aux drop].
  - destruct (match_url marker (c :: s)) as [v|] eqn:E.
    + destruct (match_url_inv marker (c :: s) v E) as (after & Es & Hshape & Hafter).
      assert (Hv : marker ++ v <> []).
      { destruct Hshape as (run & [-> | ->] & _); by destruct marker. }
      assert (Hd : drop (Nat.pred (length marker + length v)) s = after).
      { rewrite <- length_app. apply (drop_pred_tail c); [|done].
        by rewrite <- app_assoc. }
      rewrite Es. apply scanned_capture; [done | done |].
      rewrite <- Hd. apply IH.
      assert (length (c :: s) = length (marker ++ v ++ after)) as Hl by (by rewrite Es).
      rewrite !length_app in Hl. cbn [length] in Hl. lia.
    + apply scanned_pass; [|apply (IH 0%nat); lia].
      intros Hb. by apply begins_match in Hb.
  - apply IH. cbn [length] in Hskip. lia.
Qed.

Lemma findall_scanned marker text : scanned marker text (findall marker text).
Proof. apply (findall_aux_scanned marker text 0). lia. Qed.

(** Two URLs that begin at the same place and both end at whitespace
    are the same. *)
Lemma run_unique x y r s :
  Forall (fun c => is_space c = false) x -> Forall (fun c => is_space c = false) y ->
  ends_url r -> ends_url s -> x ++ r = y ++ s -> x = y.
Proof.
  intros Hx Hy Hr Hs E. apply app_eq_app in E as [k [[-> ->]|[-> ->]]].
  - destruct k as [|c k]; [by rewrite app_nil_r|].
    apply Forall_app in Hx as [_ Hk]. apply Forall_cons in Hk as [Hc _].
    cbn in Hs. congruence.
  - destruct k as [|c k]; [by rewrite app_nil_r|].
    apply Forall_app in Hy as [_ Hk]. apply Forall_cons in Hk as [Hc _].
    cbn in Hr. congruence.
Qed.

Lemma starts_with_prefix k x m y :
  k ++ x = m ++ y -> (length k <= length m)%nat -> starts_with k m = true.
Proof.
  revert m. induction k as [|a k IH]; intros m E Hl; [by destruct m|].
  destruct m as [|b m]; [cbn in Hl; lia|]. injection E as -> E.
  cbn [starts_with]. rewrite N.eqb_refl. apply (IH m E). cbn in Hl. lia.
Qed.

Lemma last_space_not_in b c k x :
  is_space c = true -> Forall (fun c => is_space c = false) x -> x <> b ++ c :: k.
Proof.
  intros Hc Hx ->. apply Forall_app in Hx as [_ Hx].
  apply Forall_cons in Hx as [Hx _]. congruence.
Qed.

(** A marked URL that stands at the start of the text or right after
    whitespace is captured: no capture before it reaches over it. *)
Lemma scanned_complete marker text urls :
  apart marker -> scanned marker text urls ->
  forall before v after,
    text = before ++ marker ++ v ++ after -> url_shape v -> ends_url after ->
    after_space before -> v ∈ urls.
Proof.
  intros (Hne & Hh & Hapart). induction 1 as [|c s urls Hno _ IH|v0 rest urls Hv0 Hrest _ IH];
    intros before v after E Hv Hafter Hbefore.
  - symmetry in E. apply app_eq_nil in E as [_ E]. apply app_eq_nil in E as [E _].
    by subst.
  - destruct before as [|c' before'].
    + exfalso. apply Hno. by exists v, after.
    + injection E as -> E. apply (IH before' v after E Hv Hafter).
      destruct Hbefore as [|(b & x & Eb & Hx)]; [done|].
      destruct b as [|c0 b]; [left | right].
      * by injection Eb as _ ->.
      * injection Eb as _ ->. by exists b, x.
  - pose proof (url_shape_no_space v0 Hv0) as Hn0.
    pose proof (url_shape_no_space v Hv) as Hn.
    destruct Hbefore as [->|(b & c & -> & Hc)].
    + cbn [app] in E. apply app_inv_head in E.
      rewrite (run_unique v0 v rest after Hn0 Hn Hrest Hafter E). by left.
    + right.
      assert (E' : (marker ++ v0) ++ rest = (b ++ [c]) ++ marker ++ v ++ after)
        by (by rewrite <- app_assoc).
      apply app_eq_app in E' as [k [[E1 E2]|[E1 E2]]].
      * exfalso. rewrite <- app_assoc in E1. cbn [app] in E1.
        apply app_eq_app in E1 as [k' [[E3 E4]|[E3 E4]]].
        -- destruct k' as [|c' k''].
           ++ cbn [app] in E4. by apply (last_space_not_in [] c k v0).
           ++ injection E4 as <- ->. rewrite <- app_assoc in E2.
              destruct k'' as [|c'' k''].
              ** cbn [app] in E2. destruct Hv0 as (run & [-> | ->] & _);
                   subst marker; destruct b; cbn in E2; injection E2 as E2 _;
                   apply Hh; cbn; by rewrite E2.
              ** assert (starts_with (c'' :: k'') marker = true) as Hs.
                 { apply (starts_with_prefix _ (v0 ++ rest) _ (v ++ after)); [done|].
                   rewrite E3, length_app. cbn [length]. lia. }
                 pose proof (Hapart (S (length b))) as Hf.
                 rewrite E3 in Hf at 2. rewrite (cons_middle c b), app_assoc in Hf.
                 replace (S (length b)) with (length (b ++ [c])) in Hf
                   by (rewrite length_app; cbn; lia).
                 rewrite drop_app_length in Hf. rewrite Hf in Hs; [done|].
                 rewrite E3, !length_app. cbn [length]. lia.
        -- by apply (last_space_not_in k' c k v0).
      * subst rest. apply (IH k v after eq_refl Hv Hafter).
        destruct (decide (k = [])) as [->|Hk].
        -- exfalso. rewrite app_nil_r in E1.
           assert (Hv0' : v0 <> []).
           { destruct Hv0 as (run & [-> | ->] & _); done. }
           destruct (exists_last Hv0') as (x & y & ->).
           rewrite (app_assoc marker x [y]) in E1.
           apply app_inj_tail in E1 as [_ <-].
           by apply (last_space_not_in x c [] (x ++ [c])).
        -- right. destruct (exists_last Hk) as (k0 & y & ->). exists k0, y.
           split; [done|]. rewrite !app_assoc in E1.
           apply app_inj_tail in E1 as [_ ->]. done.
Qed.

Lemma apart_new : apart url_pattern_new.
Proof.
  split; [done|]. split; [done|]. intros d Hd.
  change (length url_pattern_new) with 11%nat in Hd.
  do 11 (destruct d as [|d]; [try lia; reflexivity|]). lia.
Qed.

Lemma apart_old : apart url_pattern_old.
Proof.
  split; [done|]. split; [done|]. intros d Hd.
  change (length url_pattern_old) with 9%nat in Hd.
  do 9 (destruct d as [|d]; [try lia; reflexivity|]). lia.
Qed.

Lemma findall_nil_begins marker text :
  (forall b s, text = b ++ s -> ~ begins_marked marker s) -> findall marker text = [].
Proof.
  intros H. apply findall_nil. intros before s' E.
  destruct (match_url marker s') as [v|] eqn:Em; [|done].
  exfalso. apply (H before s' E).
  apply match_url_inv in Em as (after & -> & Hshape & _). by exists v, after.
Qed.

(** C5, as the code has it. The URLs are read off the analysis text
    as [re.findall] reads them, left to right and without overlap,
    under the bulleted marker, or under the plain marker when the
    bulleted one is found nowhere: every URL read stands right after
    its marker and runs up to the next whitespace, and every marked URL
    that stands at the start of the text or right after whitespace is
    read. [_extract_selected_articles] returns exactly the grouped
    articles whose URL is one of those read (a permutation of these,
    each flagged [selected_for_podcast = True]), ordered by the
    canonical category index, unknown categories last (index 6),
    articles of one category in their grouped order. *)
Theorem extract_selected_articles_spec :
  forall (analysis_text : str) (articles_by_category : list (str * list Article)),
    let urls := selected_urls analysis_text in
    let chosen :=
      List.filter (fun a => str_in (url_of a) urls) (all_articles articles_by_category) in
    let out := _extract_selected_articles analysis_text articles_by_category in
    (exists bulleted,
       scanned url_pattern_new analysis_text bulleted
       /\ (bulleted <> [] /\ urls = bulleted
           \/ bulleted = [] /\ scanned url_pattern_old analysis_text urls))
    /\ (forall v, v ∈ urls ->
          marked_in url_pattern_new v analysis_text
          \/ marked_in url_pattern_old v analysis_text)
    /\ (forall before v after,
          analysis_text = before ++ url_pattern_new ++ v ++ after ->
          url_shape v -> ends_url after -> after_space before ->
          v ∈ urls)
    /\ (forall before v after,
          analysis_text = before ++ url_pattern_old ++ v ++ after ->
          url_shape v -> ends_url after -> after_space before ->
          (forall b s, analysis_text = b ++ s -> ~ begins_marked url_pattern_new s) ->
          v ∈ urls)
    /\ Permutation out (List.map (Dict.set_selected_for_podcast true) chosen)
    /\ Forall (fun b => selected_for_podcast b = Some true) out
    /\ StronglySorted (fun a b => get_category_order a <= get_category_order b) out
    /\ (forall k, List.filter (same_key get_category_order k) out
                 = List.filter (same_key get_category_order k)
                     (List.map (Dict.set_selected_for_podcast true) chosen))
    /\ forall a, 0 <= get_category_order a <= 6
         /\ (get_category_order a = 6 <-> category_of a ∉ category_order)
         /\ forall i : nat, get_category_order a = Z.of_nat i -> (i < 6)%nat ->
              category_order !! i = Some (category_of a).
Proof.
  intros text groups urls chosen out.
  assert (Eout : out = sort_by get_category_order
                         (List.map (Dict.set_selected_for_podcast true) chosen)).
  { unfold out, _extract_selected_articles, Py.sort. fold urls.
    by rewrite selection_flat. }
  split.
  { exists (findall url_pattern_new text). split; [apply findall_scanned|].
    unfold urls, selected_urls.
    destruct (findall url_pattern_new text) as [|v l] eqn:E; simpl.
    - right. split; [done|]. apply findall_scanned.
    - left. by split. }
  split.
  { intros v Hv. unfold urls, selected_urls in Hv.
    destruct (truthy (findall url_pattern_new text)); simpl in Hv;
      [left | right]; by apply findall_marked. }
  split.
  { intros before v after E Hv Hafter Hbefore.
    pose proof (scanned_complete _ _ _ apart_new (findall_scanned url_pattern_new text)
                  before v after E Hv Hafter Hbefore) as Hin.
    unfold urls, selected_urls.
    destruct (findall url_pattern_new text) as [|v0 l]; [by apply elem_of_nil in Hin|].
    done. }
  split.
  { intros before v after E Hv Hafter Hbefore Hnone.
    unfold urls, selected_urls. rewrite (findall_nil_begins _ _ Hnone). simpl.
    exact (scanned_complete _ _ _ apart_old (findall_scanned url_pattern_old text)
             before v after E Hv Hafter Hbefore). }
  split; [rewrite Eout; apply sort_by_perm|].
  split.
  { rewrite Eout. apply Forall_forall. intros b Hb.
    rewrite (sort_by_perm get_category_order _) in Hb.
    apply list_elem_of_In, in_map_iff in Hb as (a & <- & _). done. }
  split; [rewrite Eout; apply sort_by_sorted|].
  split; [intros k; rewrite Eout; apply sort_by_stable|].
  apply get_category_order_spec.
Qed.

End SelectorScan.

Section SelectorExamples.
Import ArticleAnalyzer Scenarios.

(** Against C5 as stated. In
    [**URL:** https://a.com**URL:** https://b.com x] the URL
    [https://b.com] stands right after a marker and ends at whitespace,
    but the marker begins inside the text captured for the first one,
    which runs up to the first whitespace: the only URL read is
    [https://a.com**URL:**], and the article with the URL
    [https://b.com] is not returned. *)
Lemma overlapped_marker_is_passed_over :
  let text := u "**URL:** https://a.com**URL:** https://b.com x" in
  text = u "**URL:** https://a.com" ++ url_pattern_old ++ u "https://b.com" ++ u " x"
  /\ selected_urls text = [u "https://a.com**URL:**"]
  /\ List.map url_of (all_articles grouped)
     = [u "https://b.com"; u "https://c.com"; u "https://a.com"]
  /\ _extract_selected_articles text grouped = [].
Proof. vm_compute. repeat split; reflexivity. Qed.

End SelectorExamples.

(* ------------------------------------------------------------------ *)
(** *** Enhancer: the summary cache *)
(* ------------------------------------------------------------------ *)

Section CacheProperties.
Import ArticleEnhancer.
Variable sha256_hex : str -> str.
Variable now : nat -> Z.
Variable db_raises : nat -> bool.

Lemma get_cached_summary_events url_ max_age w :
  events (_get_cached_summary sha256_hex now db_raises url_ max_age w).2
  = events w ++ [Clock; DbRead (sha256_hex url_)].
Proof.
  unfold _get_cached_summary, _get_url_hash, emit. cbn [events rows].
  destruct (db_raises _); [by rewrite <- app_assoc|].
  destruct (rows w !! sha256_hex url_) as [row|]; [|by rewrite <- app_assoc].
  destruct (fetched_at row >? _); by rewrite <- app_assoc.
Qed.

(** The answer of a lookup, read off the table: used for the loop body
    of the enhancer below. *)
Lemma cached_lookup_cases url_ max_age_hours w :
  let r := _get_cached_summary sha256_hex now db_raises url_ max_age_hours w in
  let cutoff := now (length (events w)) - hours max_age_hours in
  r.1 = (if db_raises (S (length (events w))) then None
         else match rows w !! sha256_hex url_ with
              | Some row => if fetched_at row >? cutoff then Some (row_summary row) else None
              | None => None
              end)
  /\ rows r.2 = rows w.
Proof.
  intros r cutoff. subst r.
  unfold _get_cached_summary, _get_url_hash, emit. cbn [events rows].
  rewrite length_app. cbn [length]. rewrite Nat.add_1_r. fold cutoff.
  destruct (db_raises (S (length (events w)))); [done|].
  destruct (rows w !! sha256_hex url_) as [row|]; [|done].
  by destruct (fetched_at row >? cutoff).
Qed.

(** C9. A lookup returns the stored summary exactly when a row for the
    hash of the URL exists whose [fetched_at] is strictly later than
    now minus the freshness window; it never changes the table, so a
    stale row stays; and when the database operation raises, the lookup
    answers [None]. *)
Theorem get_cached_summary_spec :
  forall (url_ : str) (max_age_hours : Z) (w : World),
    let r := _get_cached_summary sha256_hex now db_raises url_ max_age_hours w in
    let cutoff := now (length (events w)) - hours max_age_hours in
    rows r.2 = rows w
    /\ (db_raises (S (length (events w))) = true -> r.1 = None)
    /\ (db_raises (S (length (events w))) = false ->
        forall s, r.1 = Some s <->
          exists row, rows w !! sha256_hex url_ = Some row
                      /\ cutoff < fetched_at row /\ row_summary row = s).
Proof.
  intros url_ h w r cutoff. subst r.
  unfold _get_cached_summary, _get_url_hash, emit. cbn [events rows].
  rewrite length_app. cbn [length]. rewrite Nat.add_1_r. fold cutoff.
  destruct (db_raises (S (length (events w)))) eqn:Hdb.
  { repeat split; try done. }
  destruct (rows w !! sha256_hex url_) as [row|] eqn:Hrow.
  - destruct (Z.gtb_spec (fetched_at row) cutoff) as [Hgt|Hle]; cbn [fst snd rows].
    + repeat split; try done.
      * intros [= <-]. exists row. split; [done|]. split; [lia | done].
      * intros (row' & [= <-] & _ & <-). done.
    + repeat split; try done.
      intros (row' & [= <-] & Hlt & _). lia.
  - repeat split; try done. by intros (row' & ? & _).
Qed.

End CacheProperties.

(** A fresh row is found: stored at time 5, looked up at time 0 with a
    window of 24 hours. *)
Lemma get_cached_summary_witness :
  (ArticleEnhancer._get_cached_summary Outside.sha256_hex Outside.now Outside.db_raises
     (u "https://news.example/breach") 24 Outside.cached).1
  = Some (u "A cached brief.").
Proof.
  apply (proj2 (proj2 (get_cached_summary_spec Outside.sha256_hex Outside.now
           Outside.db_raises (u "https://news.example/breach") 24 Outside.cached))
           eq_refl (u "A cached brief.")).
  exists (ArticleEnhancer.mkRow (u "https://news.example/breach") (u "A cached brief.") 5).
  split; [by vm_compute | split; [by vm_compute | reflexivity]].
Defined.

(* ------------------------------------------------------------------ *)
(** *** Enhancer: one article *)
(* ------------------------------------------------------------------ *)

Section EnhancerProperties.
Import ArticleEnhancer.
Variable sha256_hex : str -> str.
Variable now : nat -> Z.
Variable db_raises : nat -> bool.
Variable uuid4_hex : nat -> str.
Variable http_get : nat -> str -> option str.
Variable chat_api : nat -> str -> str -> Z -> option str.
Variable trafilatura_extract : str -> result (option str).
Variable newspaper_parse : str -> str -> result Parsed.
Variable encode : str -> option (list N).
Variable model : str.

Local Abbreviation lookup := (_get_cached_summary sha256_hex now db_raises).
Local Abbreviation store := (_cache_summary sha256_hex now db_raises).
Local Abbreviation fetch :=
  (_fetch_article_content http_get trafilatura_extract newspaper_parse).
Local Abbreviation brief := (_generate_gpt_summary chat_api model).
Local Abbreviation enhance :=
  (enhance_article sha256_hex now db_raises uuid4_hex http_get chat_api
     trafilatura_extract newspaper_parse encode model).

Lemma fetch_world url_ w :
  (fetch url_ w).2 = emit (Fetch url_) w.
Proof.
  unfold _fetch_article_content.
  destruct (http_get _ _); [|done].
  destruct (trafilatura_extract _); [|done].
  destruct (_ && _); [done|].
  destruct (newspaper_parse _ _); [|done].
  by destruct (_ && _).
Qed.

Lemma brief_world text budget w :
  exists sp up mt,
    (brief text budget w).2 = emit (Chat sp up mt) w
    /\ ((brief text budget w).1 = failure_placeholder
        \/ exists raw, chat_api (length (events w)) sp up mt = Some raw
                       /\ (brief text budget w).1 = strip raw).
Proof.
  unfold _generate_gpt_summary.
  eexists _, _, _.
  destruct (chat_api _ _ _ _) as [raw|] eqn:E; cbn [fst snd]; split; try done.
  - right. by exists raw.
  - by left.
Qed.

Lemma store_world url_ s w :
  events (store url_ s w) = events w ++ [Clock; DbWrite (sha256_hex url_)]
  /\ rows (store url_ s w)
     = if db_raises (S (length (events w))) then rows w
       else <[sha256_hex url_ := mkRow url_ s (now (length (events w)))]> (rows w).
Proof.
  unfold _cache_summary, _get_url_hash, emit. cbn [events rows].
  rewrite length_app. cbn [length]. rewrite Nat.add_1_r.
  destruct (db_raises _); cbn [events rows]; by rewrite <- app_assoc.
Qed.

Lemma network_calls_app w es :
  network_calls (mkWorld (rows w) (events w ++ es))
  = (network_calls w + length (List.filter (fun e => is_fetch e || is_chat e) es))%nat.
Proof. unfold network_calls. cbn [events]. by rewrite List.filter_app, length_app. Qed.

Lemma with_id_facts a w :
  url_of (with_id uuid4_hex a w).1 = url_of a
  /\ snippet (with_id uuid4_hex a w).1 = snippet a
  /\ summary (with_id uuid4_hex a w).1 = summary a
  /\ is_Some (id (with_id uuid4_hex a w).1)
  /\ rows (with_id uuid4_hex a w).2 = rows w
  /\ length (events (with_id uuid4_hex a w).2) = lookup_index a w
  /\ network_calls (with_id uuid4_hex a w).2 = network_calls w.
Proof.
  unfold with_id, lookup_index. destruct (id a) eqn:E; cbn [fst snd].
  - rewrite E. split_and!; try done; try (by eexists); lia.
  - split_and!; try done; try (by eexists).
    + unfold emit. cbn [events]. by rewrite length_app.
    + unfold emit. rewrite network_calls_app. simpl. lia.
Qed.

Lemma enhance_article_cases budget a w :
  let r := enhance budget a w in
  url_of r.1 = url_of a /\ snippet r.1 = snippet a /\ is_Some (id r.1)
  /\ if truthy (url_of a) then outcome sha256_hex now db_raises chat_api a w r
     else summary r.1 = summary a /\ rows r.2 = rows w
          /\ network_calls r.2 = network_calls w.
Proof.
  intros r. subst r. unfold enhance_article.
  fold (with_id uuid4_hex a w).
  destruct (with_id_facts a w) as (Hu & Hs & Hsum & Hid & Hrows & Hlen & Hnet).
  destruct (with_id uuid4_hex a w) as [a0 w0]. cbn [fst snd] in *.
  fold (url_of a0). rewrite Hu.
  destruct (truthy (url_of a)) eqn:Ht; cbn [negb]; [|by repeat split].
  pose proof (cached_lookup_cases sha256_hex now db_raises (url_of a) 24 w0)
    as (Hr & Hr1).
  pose proof (get_cached_summary_events sha256_hex now db_raises (url_of a) 24 w0) as He1.
  destruct (lookup (url_of a) 24 w0) as [c w1]. cbn [fst snd] in *.
  rewrite Hrows, Hlen in Hr.
  assert (Hnet1 : network_calls w1 = network_calls w).
  { rewrite <- Hnet. unfold network_calls. rewrite He1, List.filter_app.
    simpl. by rewrite app_nil_r. }
  destruct (truthy (Dict.get c [])) eqn:Hc.
  { (* cache hit *)
    destruct c as [s|]; [|done]. cbn [Dict.get default] in *.
    split; [done|]. split; [done|]. split; [done|].
    destruct (db_raises (S (lookup_index a w))) eqn:Hdb; [done|].
    destruct (rows w !! sha256_hex (url_of a)) as [row|] eqn:Hrow; [|done].
    destruct (Z.gtb_spec (fetched_at row) (now (lookup_index a w) - hours 24))
      as [Hfresh|Hstale]; [|done].
    injection Hr as ->.
    eapply from_cache; cbn [fst snd]; try done; try congruence; try lia.
    by apply truthy_true. }
  assert (Hmiss : missed sha256_hex now db_raises a w).
  { intros row Hrow Hfresh Hdb. rewrite Hdb, Hrow in Hr.
    destruct (Z.gtb_spec (fetched_at row) (now (lookup_index a w) - hours 24)); [|lia].
    subst c. by apply truthy_false. }
  pose proof (fetch_world (url_of a) w1) as Hf.
  destruct (fetch (url_of a) w1) as [content w2]. cbn [fst snd] in *.
  assert (Hnet2 : network_calls w2 = S (network_calls w)).
  { rewrite Hf. unfold emit. rewrite network_calls_app, Hnet1. simpl. lia. }
  assert (Hrows2 : rows w2 = rows w) by (rewrite Hf; cbn [emit rows]; congruence).
  destruct (truthy (Dict.get content [])) eqn:Hcontent; cbn [negb].
  2:{ split; [done|]. split; [done|]. split; [done|].
      apply fetch_failed; cbn [fst snd]; try done.
      change (snippet (Dict.set_enhancement_method _ _)) with (snippet a0).
      by rewrite Hs. }
  destruct (brief_world
              (_trim_article_content encode model (Dict.get content [])) budget w2)
    as (sp & up & mt & Hb2 & Hb1).
  destruct (brief (_trim_article_content encode model (Dict.get content [])) budget w2)
    as [s w3]. cbn [fst snd] in *.
  destruct (store_world (url_of a) s w3) as [He4 Hr4].
  split; [done|]. split; [done|]. split; [done|].
  assert (Hlen4 : length (events (store (url_of a) s w3)) = S (S (length (events w3)))).
  { rewrite He4, length_app. simpl. lia. }
  apply (generated _ _ _ _ _ _ _ s); cbn [fst snd]; try done.
  - destruct Hb1 as [->|(raw & Hraw & ->)]; [by left|]. right. by eexists _, _, _, _, _.
  - rewrite Hlen4. do 2 apply le_n_S. apply Nat.le_0_l.
  - rewrite Hr4, Hlen4.
    replace (S (S (length (events w3))) - 1)%nat with (S (length (events w3))) by lia.
    replace (S (S (length (events w3))) - 2)%nat with (length (events w3)) by lia.
    rewrite Hb2. cbn [emit rows]. by rewrite Hrows2.
  - unfold network_calls. rewrite He4, List.filter_app. simpl. rewrite app_nil_r.
    fold (network_calls w3). rewrite Hb2. unfold emit. rewrite network_calls_app.
    rewrite Hnet2. simpl. unfold network_calls. lia.
Qed.

Lemma enhance_loop_each budget articles w :
  Forall2 (fun a b => exists w0 w1, enhance budget a w0 = (b, w1))
    articles
    (enhance_loop sha256_hex now db_raises uuid4_hex http_get chat_api
       trafilatura_extract newspaper_parse encode model budget articles w).1.
Proof.
  revert w. induction articles as [|a l IH]; intros w; cbn [enhance_loop]; [constructor|].
  destruct (enhance budget a w) as [b w1] eqn:E.
  specialize (IH w1). destruct (enhance_loop _ _ _ _ _ _ _ _ _ _ _ l w1) as [rest w2].
  cbn [fst] in *. constructor; [by exists w, w1 | done].
Qed.

(** C6, as the code has it. Let the article carry a URL and let a
    first enhancement leave a row for it whose summary is not empty.
    A second enhancement while that row is fresh, the database
    answering, makes no call to the page fetch nor to the generative
    backend, leaves the table as it is, and returns the row's summary
    with [enhancement_method = "cache"]. That summary is the one of
    the first pass whenever the first pass was itself a cache hit, or
    generated the brief and stored it. *)
Theorem second_enhancement_uses_cache :
  forall (budget1 budget2 : Z) (a : Article) (w : World) (row : CacheRow),
    truthy (url_of a) = true ->
    let r1 := enhance budget1 a w in
    rows r1.2 !! sha256_hex (url_of a) = Some row ->
    row_summary row <> [] ->
    now (length (events r1.2)) - hours 24 < fetched_at row ->
    db_raises (S (length (events r1.2))) = false ->
    let r2 := enhance budget2 r1.1 r1.2 in
    network_calls r2.2 = network_calls r1.2
    /\ rows r2.2 = rows r1.2
    /\ summary r2.1 = Some (row_summary row)
    /\ enhancement_method r2.1 = Some (u "cache")
    /\ (enhancement_method r1.1 = Some (u "cache")
        \/ enhancement_method r1.1 = Some (u "gpt_generated")
           /\ db_raises (length (events r1.2) - 1)%nat = false ->
        summary r2.1 = summary r1.1).
Proof.
  intros b1 b2 a w row Hurl r1 Hrow Hne Hfresh Hdb r2.
  destruct (enhance_article_cases b1 a w) as (Hu1 & _ & [i Hid1] & Hc1).
  fold r1 in Hu1, Hid1, Hc1. rewrite Hurl in Hc1.
  destruct (enhance_article_cases b2 r1.1 r1.2) as (_ & _ & _ & Hc2).
  fold r2 in Hc2. rewrite Hu1, Hurl in Hc2.
  assert (Hidx : lookup_index r1.1 r1.2 = length (events r1.2)).
  { unfold lookup_index. rewrite Hid1. lia. }
  assert (Hhit : network_calls r2.2 = network_calls r1.2 /\ rows r2.2 = rows r1.2
                 /\ summary r2.1 = Some (row_summary row)
                 /\ enhancement_method r2.1 = Some (u "cache")).
  { destruct Hc2 as [row' Hrow' _ _ _ Hsum _ Hm Hrows Hnet | Hmiss | s Hmiss].
    - rewrite Hu1, Hrow in Hrow'. injection Hrow' as <-. done.
    - exfalso. apply Hne. apply Hmiss; rewrite ?Hu1, ?Hidx; done.
    - exfalso. apply Hne. apply Hmiss; rewrite ?Hu1, ?Hidx; done. }
  destruct Hhit as (H1 & H2 & H3 & H4). repeat split; try done.
  intros Hfirst. rewrite H3.
  destruct Hc1 as [row0 Hrow0 _ _ _ Hsum0 _ _ Hrows0 _
                  | _ _ _ Hm0 _ _ | s _ _ Hsum0 _ Hm0 _ Hrows0 _].
  - rewrite Hrows0, Hrow0 in Hrow. injection Hrow as <-. done.
  - destruct Hfirst as [Hf | [Hf _]]; rewrite Hm0 in Hf; vm_compute in Hf; discriminate Hf.
  - destruct Hfirst as [Hf | [_ Hw]].
    + rewrite Hm0 in Hf. vm_compute in Hf. discriminate Hf.
    + rewrite Hw in Hrows0. rewrite Hrows0, lookup_insert_eq in Hrow.
      injection Hrow as <-. done.
Qed.

End EnhancerProperties.

Section EnhancerSummaryProperties.
Import ArticleEnhancer.
Variable sha256_hex : str -> str.
Variable now : nat -> Z.
Variable db_raises : nat -> bool.
Variable uuid4_hex : nat -> str.
Variable http_get : nat -> str -> option str.
Variable chat_api : nat -> str -> str -> Z -> option str.
Variable trafilatura_extract : str -> result (option str).
Variable newspaper_parse : str -> str -> result Parsed.
Variable encode : str -> option (list N).
Variable model : str.

Local Abbreviation lookup := (_get_cached_summary sha256_hex now db_raises).
Local Abbreviation fetch :=
  (_fetch_article_content http_get trafilatura_extract newspaper_parse).
Local Abbreviation enhance :=
  (enhance_article sha256_hex now db_raises uuid4_hex http_get chat_api
     trafilatura_extract newspaper_parse encode model).
Local Abbreviation loop :=
  (enhance_loop sha256_hex now db_raises uuid4_hex http_get chat_api
     trafilatura_extract newspaper_parse encode model).
Local Abbreviation source_of :=
  (summary_from sha256_hex now db_raises http_get chat_api trafilatura_extract
     newspaper_parse encode model).

(** The page fetch asks the backend by the number of events only. *)
Lemma fetch_by_index url_ w w' :
  length (events w') = length (events w) -> (fetch url_ w').1 = (fetch url_ w).1.
Proof.
  intros H. unfold _fetch_article_content. rewrite H.
  destruct (http_get _ _); [|done].
  destruct (trafilatura_extract _); [|done].
  destruct (_ && _); [done|].
  destruct (newspaper_parse _ _); [|done].
  by destruct (_ && _).
Qed.

Lemma enhance_article_summary budget a w : source_of budget a w (enhance budget a w).1.
Proof.
  unfold enhance_article. fold (with_id uuid4_hex a w).
  destruct (with_id_facts uuid4_hex a w) as (Hu & Hs & Hsum & Hid & Hrows & Hlen & Hnet).
  assert (Hkeep : enhanced (with_id uuid4_hex a w).1 = enhanced a
                  /\ enhancement_method (with_id uuid4_hex a w).1 = enhancement_method a).
  { unfold with_id. by destruct (id a). }
  destruct Hkeep as [Hen Hme].
  destruct (with_id uuid4_hex a w) as [a0 w0]. cbn [fst snd] in *.
  fold (url_of a0). rewrite Hu.
  destruct (truthy (url_of a)) eqn:Ht; cbn [negb].
  2:{ apply truthy_false in Ht. by apply summary_untouched. }
  apply truthy_true in Ht.
  pose proof (cached_lookup_cases sha256_hex now db_raises (url_of a) 24 w0)
    as (Hr & Hr1).
  pose proof (get_cached_summary_events sha256_hex now db_raises (url_of a) 24 w0) as He1.
  destruct (lookup (url_of a) 24 w0) as [c w1]. cbn [fst snd] in *.
  rewrite Hrows, Hlen in Hr.
  destruct (truthy (Dict.get c [])) eqn:Hc.
  { destruct c as [s|]; [|done]. cbn [Dict.get default] in *.
    destruct (db_raises (S (lookup_index a w))) eqn:Hdb; [done|].
    destruct (rows w !! sha256_hex (url_of a)) as [row|] eqn:Hrow; [|done].
    destruct (Z.gtb_spec (fetched_at row) (now (lookup_index a w) - hours 24))
      as [Hfresh|Hstale]; [|done].
    injection Hr as ->.
    apply (summary_cached _ _ _ _ _ _ _ _ _ _ _ _ _ row); try done.
    by apply truthy_true. }
  assert (Hmiss : missed sha256_hex now db_raises a w).
  { intros row Hrow Hfresh Hdb. rewrite Hdb, Hrow in Hr.
    destruct (Z.gtb_spec (fetched_at row) (now (lookup_index a w) - hours 24)); [|lia].
    subst c. by apply truthy_false. }
  assert (Hlen1 : length (events w1) = (lookup_index a w + 2)%nat).
  { rewrite He1, length_app, Hlen. done. }
  pose proof (fetch_world http_get trafilatura_extract newspaper_parse (url_of a) w1) as Hf.
  assert (Hpage : page_text http_get trafilatura_extract newspaper_parse a w
                    (fetch (url_of a) w1).1).
  { intros w' Hw'. apply fetch_by_index. by rewrite Hlen1. }
  destruct (fetch (url_of a) w1) as [content w2]. cbn [fst snd] in *.
  destruct (truthy (Dict.get content [])) eqn:Hcontent; cbn [negb].
  2:{ apply (summary_snippet _ _ _ _ _ _ _ _ _ _ _ _ _ content); try done.
      - by apply truthy_false.
      - cbn. by rewrite Hs. }
  destruct content as [content|]; [|done]. cbn [Dict.get default] in *.
  unfold Datatypes.id in *.
  assert (Hlen2 : length (events w2) = (lookup_index a w + 3)%nat).
  { rewrite Hf. unfold emit. cbn [events]. rewrite length_app, Hlen1. cbn [length]. lia. }
  apply (summary_generated _ _ _ _ _ _ _ _ _ _ _ _ _ content); try done.
  - by apply truthy_true.
  - unfold _generate_gpt_summary, brief_for. rewrite Hlen2.
    by destruct (chat_api _ _ _ _).
  - by destruct (_generate_gpt_summary _ _ _ _ _).
Qed.

(** The article returned at position [k] is made from the input
    article at that position, in the world the articles before it
    have left. *)
Lemma enhance_loop_lookup budget articles w k a :
  articles !! k = Some a ->
  (loop budget articles w).1 !! k
  = Some (enhance budget a (loop budget (take k articles) w).2).1.
Proof.
  revert w k. induction articles as [|a0 l IH]; intros w k Hk; [done|].
  cbn [enhance_loop].
  destruct (enhance budget a0 w) as [b w1] eqn:E.
  destruct k as [|k].
  - injection Hk as <-. cbn [take enhance_loop snd].
    destruct (loop budget l w1) as [rest w2]. cbn [fst]. by rewrite E.
  - cbn [lookup] in Hk. specialize (IH w1 k Hk).
    cbn [take enhance_loop]. rewrite E.
    destruct (loop budget l w1) as [rest w2].
    destruct (loop budget (take k l) w1) as [rest' w2']. cbn [fst snd] in *.
    done.
Qed.

Lemma enhance_loop_length budget articles w :
  length (loop budget articles w).1 = length articles.
Proof.
  revert w. induction articles as [|a l IH]; intros w; [done|].
  cbn [enhance_loop]. destruct (enhance budget a w) as [b w1].
  specialize (IH w1). destruct (loop budget l w1) as [rest w2]. cbn [fst length] in *.
  by rewrite IH.
Qed.

Lemma summary_from_nonempty budget a w b :
  source_of budget a w b ->
  truthy (url_of a) = true ->
  snippet a <> Some [] ->
  (forall n sp up mt raw, chat_api n sp up mt = Some raw -> strip raw <> []) ->
  exists s, summary b = Some s /\ s <> [].
Proof.
  intros H Hurl Hsnip Hchat.
  destruct H as [Hno _ _ _ | row _ _ _ _ Hne Hsum _ | content _ _ _ _ Hsum _
                | content _ _ _ _ Hsum _].
  - by rewrite Hno in Hurl.
  - by eexists.
  - eexists. split; [done|].
    destruct (snippet a) as [x|]; simpl.
    + intros E. apply Hsnip. by rewrite E.
    + intros E. vm_compute in E. discriminate E.
  - eexists. split; [done|]. unfold brief_for.
    destruct (chat_api _ _ _ _) as [raw|] eqn:E; [by eapply Hchat|].
    intros E'. vm_compute in E'. discriminate E'.
Qed.

(** C7, as the code has it. Every returned article is made from the
    input article at its position, in the world the articles before it
    have left. An article without URL is returned with its summary key
    untouched. An article with a URL gets as summary: the summary of
    its cache row, when the row is fresh and its summary not empty; or,
    the lookup finding nothing usable, the original snippet (the
    placeholder [(fetch failed)] when there is no snippet) after a
    failed fetch; or the stripped answer of the generative backend to
    the request made for the fetched text, the placeholder
    [(AI summary generation failed)] when that call raises. So the
    summary is not empty whenever the article carries a URL, its
    snippet is not empty and the backend never answers with a blank
    text. *)
Theorem enhanced_articles_have_summary :
  forall (articles : list Article) (w : World),
    let budget := _calculate_per_article_budget model (len articles) in
    let out :=
      (enhance_articles sha256_hex now db_raises uuid4_hex http_get chat_api
         trafilatura_extract newspaper_parse encode model articles w).1 in
    length out = length articles
    /\ forall (k : nat) (a : Article),
         articles !! k = Some a ->
         let w0 := (loop budget (take k articles) w).2 in
         exists b : Article,
           out !! k = Some b
           /\ source_of budget a w0 b
           /\ (truthy (url_of a) = true ->
               snippet a <> Some [] ->
               (forall n sp up mt raw,
                  chat_api n sp up mt = Some raw -> strip raw <> []) ->
               exists s, summary b = Some s /\ s <> []).
Proof.
  intros articles w budget out. subst out. unfold enhance_articles.
  destruct (truthy articles) eqn:Ha; cbn [negb].
  2:{ apply truthy_false in Ha. subst. split; [done|]. intros k a Hk. done. }
  fold budget. split; [apply enhance_loop_length|].
  intros k a Hk. cbv zeta. eexists. split; [by apply enhance_loop_lookup|].
  split; [apply enhance_article_summary|].
  eapply summary_from_nonempty, enhance_article_summary.
Qed.

End EnhancerSummaryProperties.

Section EnhancerExamples.
Import ArticleEnhancer Outside.

(** Against C7 as stated, three runs that return an article without a
    non-empty summary: the backend answers with blanks and the stripped
    brief is empty; the article has no URL and is returned as it came,
    without a summary; the fetch fails and the snippet kept is empty. *)
Lemma enhancement_leaves_empty_summary :
  List.map summary (Outside.enhance_articles page blank [article] start).1
    = [Some []]
  /\ List.map summary (Outside.enhance_articles page brief [article_without_url] start).1
     = [None]
  /\ List.map summary (Outside.enhance_articles None brief [article_without_snippet] start).1
     = [Some []].
Proof. vm_compute. repeat split; reflexivity. Qed.

(** Against C6 as stated: the empty summary of a first pass is stored
    at time 5; a second pass reads the clock at time 7, well within 24
    hours, finds the row, takes its empty summary for a miss, and
    fetches and asks the backend again. *)
Lemma blank_brief_second_pass :
  rows (Outside.enhance_articles page blank [article] start).2 !! sha256_hex (url_of article)
    = Some (mkRow (url_of article) [] 5)
  /\ now (length (events (Outside.enhance_articles page blank [article] start).2)) = 7
  /\ network_calls (Outside.enhance_articles page blank [article] start).2 = 2%nat
  /\ network_calls
       (Outside.enhance_articles page blank
          (Outside.enhance_articles page blank [article] start).1
          (Outside.enhance_articles page blank [article] start).2).2 = 4%nat
  /\ List.map enhancement_method
       (Outside.enhance_articles page blank
          (Outside.enhance_articles page blank [article] start).1
          (Outside.enhance_articles page blank [article] start).2).1
     = [Some (u "gpt_generated")].
Proof. vm_compute. repeat split; reflexivity. Qed.

(** The second pass after a first pass that generated and stored a
    brief. *)
Lemma second_enhancement_uses_cache_witness :
  let r1 := ArticleEnhancer.enhance_article sha256_hex now db_raises uuid4_hex
              (fun _ _ => page) (fun _ _ _ _ => brief) trafilatura_extract
              newspaper_parse encode model 180 article start in
  let r2 := ArticleEnhancer.enhance_article sha256_hex now db_raises uuid4_hex
              (fun _ _ => page) (fun _ _ _ _ => brief) trafilatura_extract
              newspaper_parse encode model 180 r1.1 r1.2 in
  network_calls r2.2 = network_calls r1.2
  /\ rows r2.2 = rows r1.2
  /\ summary r2.1 = Some (u "Records of Example Corp were exposed.")
  /\ enhancement_method r2.1 = Some (u "cache")
  /\ (enhancement_method r1.1 = Some (u "cache")
      \/ enhancement_method r1.1 = Some (u "gpt_generated")
         /\ db_raises (length (events r1.2) - 1)%nat = false ->
      summary r2.1 = summary r1.1).
Proof.
  apply (second_enhancement_uses_cache sha256_hex now db_raises uuid4_hex
    (fun _ _ => page) (fun _ _ _ _ => brief) trafilatura_extract newspaper_parse
    encode model 180 180 article start
    (mkRow (url_of article) (u "Records of Example Corp were exposed.") 5)).
  - reflexivity.
  - vm_compute. reflexivity.
  - discriminate.
  - vm_compute. reflexivity.
  - reflexivity.
Defined.

(** Both articles carry the same URL and a snippet, and the backend's
    answer is not blank: the second one, served from the cache the
    first has filled, has a summary that is not empty. *)
Lemma enhanced_articles_have_summary_witness :
  exists b : Article,
    (Outside.enhance_articles page brief [article; article] start).1 !! 1%nat = Some b
    /\ exists s, summary b = Some s /\ s <> [].
Proof.
  destruct (enhanced_articles_have_summary sha256_hex now db_raises uuid4_hex
              (fun _ _ => page) (fun _ _ _ _ => brief) trafilatura_extract
              newspaper_parse encode model [article; article] start) as [_ H].
  destruct (H 1%nat article eq_refl) as (b & Hb & _ & Hs).
  exists b. split; [exact Hb|]. apply Hs.
  - reflexivity.
  - discriminate.
  - intros _ _ _ _ raw [= <-]. vm_compute. discriminate.
Defined.

End EnhancerExamples.

(* ------------------------------------------------------------------ *)
(** *** Chunk reassembly *)
(* ------------------------------------------------------------------ *)

Section ReassemblyProperties.
Import Reassembly.
Variable creatable : str -> bool.
Variable default_audio_file : str.
Variable briefing_beside : str -> str.

Lemma append_chunks_cons (final : str) (i : nat) (f : str) (rest : list str) (fs : disk) :
  append_chunks final i (f :: rest) fs
  = match fs !! f with
    | None => (Raise OSError, fs)
    | Some data =>
        append_chunks final (S i) rest
          (alter (fun out => out ++ (if bool_decide (0 < i)%nat then drop 1024 data else data))
             final fs)
    end.
Proof. done. Qed.

Lemma append_later_chunks (final : str) (i : nat) (chunks : list (str * list byte))
    (fs : disk) (out : list byte) :
  (0 < i)%nat ->
  Forall (fun c => fs !! c.1 = Some c.2) chunks ->
  final ∉ chunks.*1 ->
  fs !! final = Some out ->
  append_chunks final i chunks.*1 fs
  = (Ok (), <[final := out ++ concat (List.map (drop 1024) chunks.*2)]> fs).
Proof.
  revert i fs out. induction chunks as [|[f d] chunks IH]; intros i fs out Hi Hall Hnot Hout.
  { cbn. rewrite app_nil_r. by rewrite insert_id. }
  cbn [fmap list_fmap fst snd append_chunks List.map concat].
  apply Forall_cons in Hall as [Hf Hall]. cbn [fst snd] in Hf. rewrite Hf.
  cbn [fmap list_fmap fst] in Hnot.
  apply not_elem_of_cons in Hnot as [Hne Hnot].
  rewrite bool_decide_eq_true_2 by done.
  assert (Ealt : alter (fun o => o ++ drop 1024 d) final fs
                 = <[final := out ++ drop 1024 d]> fs).
  { apply map_eq. intros k. rewrite lookup_alter, lookup_insert.
    case_decide; [subst; by rewrite Hout | done]. }
  rewrite Ealt.
  rewrite (IH (S i) _ (out ++ drop 1024 d)); try lia; try done.
  - by rewrite insert_insert_eq, app_assoc.
  - rewrite Forall_forall in Hall. apply Forall_forall. intros c Hc.
    rewrite lookup_insert_ne; [by apply Hall|].
    intros ->. apply Hnot. apply list_elem_of_fmap. by exists c.
  - by rewrite lookup_insert_eq.
Qed.

Lemma len_drop_1024 (d : list byte) : len (drop 1024 d) = len d - Z.min 1024 (len d).
Proof. unfold len. rewrite length_drop. lia. Qed.

Lemma len_concat_later (later : list (list byte)) :
  len (concat (List.map (drop 1024) later))
  = foldr (fun d n => len d + n) 0 later
    - foldr (fun d n => Z.min 1024 (len d) + n) 0 later.
Proof.
  induction later as [|d later IH]; cbn [List.map concat foldr]; [done|].
  rewrite len_app, IH, len_drop_1024. lia.
Qed.

Lemma len_reassembled contents :
  len (reassembled contents) = total_size contents - skipped_size contents.
Proof.
  destruct contents as [|first later]; [done|].
  unfold reassembled, total_size, skipped_size. cbn [foldr tail].
  rewrite len_app, len_concat_later. lia.
Qed.

Lemma skipped_size_full first later :
  Forall (fun d => 1024 <= len d) later ->
  skipped_size (first :: later) = 1024 * (len (first :: later) - 1).
Proof.
  unfold skipped_size. cbn [tail]. intros Hall.
  replace (len (first :: later) - 1) with (len later)
    by (unfold len; cbn [length]; lia).
  induction Hall as [|d later Hd Hall IH]; [done|].
  cbn [foldr]. rewrite IH. unfold len. cbn [length]. unfold len in Hd. lia.
Qed.

(** C2, as the code has it. The chunk files exist with the given
    contents and the final path can be written. One chunk: it is moved
    to the final path, content unchanged. Two or more chunks, none of
    them the final path: the final file holds the first chunk followed
    by every later chunk without its first 1024 bytes; its size is the
    sum of the chunk sizes minus, for every later chunk, 1024 or the
    size of the chunk when that is less; when every later chunk holds
    at least 1024 bytes this is sum - 1024 * (number of chunks - 1). *)
Theorem combine_audio_chunks_spec :
  forall (chunks : list (str * list byte)) (output_file : option str) (fs : disk),
    Forall (fun c => fs !! c.1 = Some c.2) chunks ->
    let r := _combine_audio_chunks creatable default_audio_file briefing_beside
               chunks.*1 output_file fs in
    (forall f d, chunks = [(f, d)] ->
       let final :=
         match output_file with
         | Some o => if truthy o then o else default_audio_file
         | None => default_audio_file
         end in
       creatable final = true ->
       r = (Ok final, <[final := d]> (delete f fs)))
    /\ ((2 <= length chunks)%nat ->
        let final :=
          match output_file with
          | Some o => o
          | None => briefing_beside (hd [] chunks.*1)
          end in
        creatable final = true ->
        final ∉ chunks.*1 ->
        r.1 = Ok final
        /\ r.2 = <[final := reassembled chunks.*2]> fs
        /\ len (reassembled chunks.*2)
           = total_size chunks.*2 - skipped_size chunks.*2
        /\ (Forall (fun d => 1024 <= len d) (tail chunks.*2) ->
            len (reassembled chunks.*2)
            = total_size chunks.*2 - 1024 * (len chunks - 1))).
Proof.
  intros chunks output_file fs Hall r. split.
  - intros f d -> final Hc. subst r.
    apply Forall_cons in Hall as [Hf _]. cbn [fst snd] in Hf.
    cbn [fmap list_fmap fst _combine_audio_chunks]. fold final.
    unfold move. by rewrite Hf, Hc.
  - intros Hlen final Hc Hnot.
    destruct chunks as [|[f0 d0] [|[f1 d1] chunks]]; cbn [length] in Hlen; try lia.
    assert (Er : r = (Ok final, <[final := reassembled ((f0, d0) :: (f1, d1) :: chunks).*2]> fs)).
    { subst r. cbn [fmap list_fmap fst snd _combine_audio_chunks].
      unfold _simple_combine_chunks. cbn [hd]. fold final.
      cbn [fmap list_fmap fst hd] in final. fold final. rewrite Hc.
      apply Forall_cons in Hall as [Hf0 Hall]. cbn [fst snd] in Hf0.
      cbn [fmap list_fmap fst] in Hnot.
      apply not_elem_of_cons in Hnot as [Hne0 Hnot].
      change (final ∉ ((f1, d1) :: chunks).*1) in Hnot.
      rewrite append_chunks_cons. rewrite lookup_insert_ne by done. rewrite Hf0.
      rewrite bool_decide_eq_false_2 by lia.
      assert (Ealt : alter (fun o => o ++ d0) final (<[final := []]> fs)
                     = <[final := d0]> fs).
      { apply map_eq. intros k. destruct (decide (final = k)) as [<-|Hk].
        - by rewrite lookup_alter_eq, !lookup_insert_eq.
        - by rewrite lookup_alter_ne, !lookup_insert_ne. }
      rewrite Ealt.
      pose proof (append_later_chunks final 1 ((f1, d1) :: chunks) (<[final := d0]> fs) d0)
        as Happ.
      cbn [fmap list_fmap fst snd] in Happ. rewrite Happ; try lia; try done.
      + by rewrite insert_insert_eq.
      + rewrite Forall_forall in Hall. apply Forall_forall. intros c Hin.
        rewrite lookup_insert_ne; [by apply Hall|].
        intros ->. apply Hnot. apply list_elem_of_fmap. by exists c.
      + by rewrite lookup_insert_eq. }
    rewrite Er. cbn [fst snd]. split; [done|]. split; [done|].
    split; [apply len_reassembled|].
    intros Hbig. rewrite len_reassembled.
    cbn [fmap list_fmap snd tail] in *. rewrite skipped_size_full by done.
    unfold len. cbn [length]. by rewrite !length_fmap.
Qed.

End ReassemblyProperties.

Section ReassemblyExamples.
Import SmallChunks.

(** Against C2 as stated: chunks of 3 and 2 bytes. The second chunk
    is shorter than 1024 bytes and adds nothing, so the combined file
    holds the 3 bytes of the first chunk, not 3 + 2 - 1024 * (2 - 1). *)
Lemma short_chunk_size_differs :
  SmallChunks._combine_audio_chunks [chunk0; chunk1] None fs
  = (Ok (u "daily_briefing.mp3"),
     <[u "daily_briefing.mp3" := [x49; x44; x33]]> fs)
  /\ len [x49; x44; x33] = 3
  /\ total_size [[x49; x44; x33]; [x49; x44]] - 1024 * (2 - 1) = -1019.
Proof. split; [|split]; reflexivity. Qed.

(** Two chunks of 1030 and 1027 bytes combine into 1030 + 3 bytes. *)
Lemma combine_audio_chunks_witness :
  (SmallChunks._combine_audio_chunks [chunk0; chunk1] None long_fs).1
    = Ok (u "daily_briefing.mp3")
  /\ (SmallChunks._combine_audio_chunks [chunk0; chunk1] None long_fs).2
     = <[u "daily_briefing.mp3" := reassembled [long0; long1]]> long_fs
  /\ len (reassembled [long0; long1])
     = total_size [long0; long1] - skipped_size [long0; long1]
  /\ (Forall (fun d => 1024 <= len d) [long1] ->
      len (reassembled [long0; long1]) = total_size [long0; long1] - 1024 * (2 - 1)).
Proof.
  assert (Hfs : Forall (fun c : str * list byte => long_fs !! c.1 = Some c.2)
                  [(chunk0, long0); (chunk1, long1)]).
  { repeat constructor. }
  apply (proj2 (combine_audio_chunks_spec creatable default_audio_file briefing_beside
                  [(chunk0, long0); (chunk1, long1)] None long_fs Hfs)).
  - cbn. lia.
  - reflexivity.
  - cbn. intros [H|[H|H]%elem_of_cons]%elem_of_cons.
    + vm_compute in H. discriminate H.
    + vm_compute in H. discriminate H.
    + by apply not_elem_of_nil in H.
Defined.

End ReassemblyExamples.

(* ------------------------------------------------------------------ *)
(** *** Synthesis: a chunk whose speech request fails *)
(* ------------------------------------------------------------------ *)

Section ElevenLabsFailure.
Variable creatable : str -> bool.
Variable chunk_path : nat -> str.
Variable speech_api : nat -> str -> option (list byte).

Lemma cleanup_deletes (l : list str) (fs : disk) (f : str) :
  f ∈ l -> Reassembly._cleanup_chunk_files l fs !! f = None.
Proof.
  unfold Reassembly._cleanup_chunk_files.
  assert (G : forall (l : list str) (fs : disk),
            fs !! f = None -> fold_left (fun fs c => delete c fs) l fs !! f = None).
  { clear. induction l as [|c l IH]; intros fs H; cbn [fold_left]; [done|].
    apply IH. destruct (decide (c = f)) as [->|Hn];
      [apply lookup_delete_eq | by rewrite lookup_delete_ne]. }
  revert fs. induction l as [|c l IH]; intros fs Hin; [by apply not_elem_of_nil in Hin|].
  cbn [fold_left]. apply elem_of_cons in Hin as [->|Hin].
  - apply G. apply lookup_delete_eq.
  - by apply IH.
Qed.

Lemma cleanup_keeps (l : list str) (fs : disk) (f : str) :
  f ∉ l -> Reassembly._cleanup_chunk_files l fs !! f = fs !! f.
Proof.
  unfold Reassembly._cleanup_chunk_files.
  revert fs. induction l as [|c l IH]; intros fs Hnot; cbn [fold_left]; [done|].
  apply not_elem_of_cons in Hnot as [Hne Hnot].
  rewrite IH by done. by rewrite lookup_delete_ne.
Qed.

(** The ElevenLabs loop: the chunks before the failing one are
    requested and written, the failing one is requested, the chunk
    files made so far are deleted and the exception leaves the loop. *)
Lemma elevenlabs_chunks_failure before failing after i audio_files (w : World) :
  (forall j chunk, before !! j = Some chunk ->
     is_Some (speech_api (length (requests w) + j) chunk)
     /\ creatable (chunk_path (i + j)) = true) ->
  speech_api (length (requests w) + length before) failing = None ->
  let r := ElevenLabsTTS.generate_chunks creatable chunk_path speech_api
             i (before ++ failing :: after) audio_files w in
  r.1 = Raise BackendError
  /\ requests r.2 = requests w ++ before ++ [failing]
  /\ (forall f, f ∈ audio_files
                \/ (exists j, (j < length before)%nat /\ f = chunk_path (i + j)) ->
                files r.2 !! f = None)
  /\ (forall f, f ∉ audio_files ->
                (forall j, (j < length before)%nat -> f <> chunk_path (i + j)) ->
                files r.2 !! f = files w !! f).
Proof.
  revert i audio_files w.
  induction before as [|c before IH]; intros i audio_files w Hok Hfail r; subst r.
  - cbn [app ElevenLabsTTS.generate_chunks]. unfold ElevenLabsTTS._generate_single_audio.
    cbn [length] in Hfail. rewrite Nat.add_0_r in Hfail. rewrite Hfail.
    cbn [fst snd requests files]. split; [done|]. split; [done|]. split.
    + intros f [Hf|(j & Hj & _)]; [by apply cleanup_deletes | cbn in Hj; lia].
    + intros f Hf _. by apply cleanup_keeps.
  - cbn [app ElevenLabsTTS.generate_chunks]. unfold ElevenLabsTTS._generate_single_audio.
    destruct (Hok 0%nat c eq_refl) as [[content Hc] Hcr].
    rewrite Nat.add_0_r in Hc, Hcr. rewrite Hc, Hcr. cbn [requests files].
    match goal with
    | |- context [ElevenLabsTTS.generate_chunks _ _ _ (S i) _ ?fl ?w1] =>
        specialize (IH (S i) fl w1)
    end.
    cbn [requests files] in IH. rewrite length_app in IH. cbn [length] in IH.
    destruct IH as (H1 & H2 & H3 & H4).
    + intros j chunk Hj. destruct (Hok (S j) chunk Hj) as [Hs Hp].
      split.
      * by replace (length (requests w) + 1 + j)%nat with (length (requests w) + S j)%nat by lia.
      * by replace (S i + j)%nat with (i + S j)%nat by lia.
    + cbn [length] in Hfail.
      by replace (length (requests w) + 1 + length before)%nat
           with (length (requests w) + S (length before))%nat by lia.
    + split; [done|]. split; [by rewrite H2, <- app_assoc|]. split.
      * intros f [Hf|(j & Hj & ->)]; apply H3.
        -- left. apply elem_of_app. by left.
        -- destruct j as [|j].
           ++ left. apply elem_of_app. right. rewrite Nat.add_0_r. by left.
           ++ right. exists j. cbn [length] in Hj. split; [lia|]. f_equal. lia.
      * intros f Hf Hpaths. rewrite H4.
        -- rewrite lookup_insert_ne; [done|]. intros E.
           apply (Hpaths 0%nat); [cbn [length]; lia | by rewrite Nat.add_0_r].
        -- intros [Hin|Hin%list_elem_of_singleton]%elem_of_app; [done|].
           apply (Hpaths 0%nat); [cbn [length]; lia | by rewrite Nat.add_0_r].
        -- intros j Hj E. apply (Hpaths (S j)); [cbn [length]; lia|].
           rewrite E. f_equal. lia.
Qed.

End ElevenLabsFailure.

Section SynthesisFailure.
Variable creatable : str -> bool.
Variable default_audio_file : str.
Variable briefing_beside : str -> str.
Variable chunk_path : nat -> str.
Variable elevenlabs_chunk_path : nat -> str.
Variable clean_text_for_audio : str -> str.
Variable speech_api : nat -> str -> option (list byte).
Variable elevenlabs_speech : nat -> str -> option (list byte).

(** The OpenAI loop: the same, but nothing is cleaned up. *)
Lemma openai_chunks_failure provider before failing after i audio_files (w : World) :
  AudioGenerator.is_elevenlabs provider = false ->
  (forall j chunk, before !! j = Some chunk ->
     truthy (strip (clean_text_for_audio chunk)) = true
     /\ is_Some (speech_api (length (requests w) + j) (clean_text_for_audio chunk))
     /\ creatable (chunk_path (i + j)) = true) ->
  truthy (strip (clean_text_for_audio failing)) = true ->
  speech_api (length (requests w) + length before) (clean_text_for_audio failing) = None ->
  let r := AudioGenerator.generate_chunks creatable default_audio_file briefing_beside
             chunk_path elevenlabs_chunk_path clean_text_for_audio speech_api
             elevenlabs_speech provider i (before ++ failing :: after) audio_files w in
  r.1 = Raise BackendError
  /\ requests r.2
     = requests w ++ List.map clean_text_for_audio before ++ [clean_text_for_audio failing]
  /\ (forall f, (forall j, (j < length before)%nat -> f <> chunk_path (i + j)) ->
                files r.2 !! f = files w !! f).
Proof.
  intros Hp. revert i audio_files w.
  induction before as [|c before IH]; intros i audio_files w Hok Hne Hfail r; subst r.
  - cbn [app AudioGenerator.generate_chunks]. unfold AudioGenerator.generate_audio.
    rewrite Hp. unfold AudioGenerator._generate_openai_audio. rewrite Hne. cbn [negb].
    cbn [length] in Hfail. rewrite Nat.add_0_r in Hfail. by rewrite Hfail.
  - cbn [app AudioGenerator.generate_chunks]. unfold AudioGenerator.generate_audio.
    rewrite Hp. unfold AudioGenerator._generate_openai_audio.
    destruct (Hok 0%nat c eq_refl) as (Hc0 & [content Hc] & Hcr).
    rewrite Nat.add_0_r in Hc, Hcr. rewrite Hc0. cbn [negb Dict.get default].
    rewrite Hc. change (Datatypes.id (chunk_path i)) with (chunk_path i). rewrite Hcr.
    cbn [requests files].
    match goal with
    | |- context [AudioGenerator.generate_chunks _ _ _ _ _ _ _ _ _ (S i) _ ?fl ?w1] =>
        specialize (IH (S i) fl w1)
    end.
    cbn [requests files] in IH. rewrite length_app in IH. cbn [length] in IH.
    fold (AudioGenerator.generate_audio creatable default_audio_file briefing_beside
            elevenlabs_chunk_path clean_text_for_audio speech_api elevenlabs_speech) in IH.
    destruct IH as (H1 & H2 & H3).
    + intros j chunk Hj. destruct (Hok (S j) chunk Hj) as (Ht & Hs & Hpth).
      split; [done|]. split.
      * by replace (length (requests w) + 1 + j)%nat with (length (requests w) + S j)%nat by lia.
      * by replace (S i + j)%nat with (i + S j)%nat by lia.
    + done.
    + cbn [length] in Hfail.
      by replace (length (requests w) + 1 + length before)%nat
           with (length (requests w) + S (length before))%nat by lia.
    + split; [done|]. split; [rewrite H2; cbn [List.map]; by rewrite <- app_assoc|].
      intros f Hpaths. rewrite H3.
      * rewrite lookup_insert_ne; [done|]. intros E.
        apply (Hpaths 0%nat); [cbn [length]; lia | by rewrite Nat.add_0_r].
      * intros j Hj E. apply (Hpaths (S j)); [cbn [length]; lia|].
        rewrite E. f_equal. lia.
Qed.

(** The chunk files the OpenAI loop has written are still there when
    the exception leaves it, each with the answer to its request. *)
Lemma openai_chunks_kept provider before failing after i audio_files (w : World) :
  AudioGenerator.is_elevenlabs provider = false ->
  (forall j chunk, before !! j = Some chunk ->
     truthy (strip (clean_text_for_audio chunk)) = true
     /\ is_Some (speech_api (length (requests w) + j) (clean_text_for_audio chunk))
     /\ creatable (chunk_path (i + j)) = true) ->
  truthy (strip (clean_text_for_audio failing)) = true ->
  speech_api (length (requests w) + length before) (clean_text_for_audio failing) = None ->
  let r := AudioGenerator.generate_chunks creatable default_audio_file briefing_beside
             chunk_path elevenlabs_chunk_path clean_text_for_audio speech_api
             elevenlabs_speech provider i (before ++ failing :: after) audio_files w in
  forall j chunk content,
    before !! j = Some chunk ->
    speech_api (length (requests w) + j) (clean_text_for_audio chunk) = Some content ->
    (forall j', (j < j' < length before)%nat -> chunk_path (i + j') <> chunk_path (i + j)) ->
    files r.2 !! chunk_path (i + j) = Some content.
Proof.
  intros Hp. revert i audio_files w.
  induction before as [|c before IH]; intros i audio_files w Hok Hne Hfail r; subst r.
  { intros j chunk content Hj. done. }
  intros j chunk content Hj Hs Hdistinct.
  pose proof (openai_chunks_failure provider) as Hrest.
  cbn [app AudioGenerator.generate_chunks]. unfold AudioGenerator.generate_audio.
  rewrite Hp. unfold AudioGenerator._generate_openai_audio.
  destruct (Hok 0%nat c eq_refl) as (Hc0 & [content0 Hc] & Hcr).
  rewrite Nat.add_0_r in Hc, Hcr. rewrite Hc0. cbn [negb Dict.get default].
  rewrite Hc. change (Datatypes.id (chunk_path i)) with (chunk_path i). rewrite Hcr.
  cbn [requests files].
  match goal with
  | |- context [AudioGenerator.generate_chunks _ _ _ _ _ _ _ _ _ (S i) _ ?fl ?w1] =>
      specialize (IH (S i) fl w1); specialize (Hrest before failing after (S i) fl w1 Hp)
  end.
  cbn [requests files] in IH, Hrest. rewrite length_app in IH, Hrest.
  cbn [length] in IH, Hrest.
  fold (AudioGenerator.generate_audio creatable default_audio_file briefing_beside
          elevenlabs_chunk_path clean_text_for_audio speech_api elevenlabs_speech)
    in IH, Hrest.
  assert (Hok' : forall j chunk, before !! j = Some chunk ->
            truthy (strip (clean_text_for_audio chunk)) = true
            /\ is_Some (speech_api (length (requests w) + 1 + j) (clean_text_for_audio chunk))
            /\ creatable (chunk_path (S i + j)) = true).
  { intros j' chunk' Hj'. destruct (Hok (S j') chunk' Hj') as (Ht & Hs' & Hpth).
    split; [done|]. split.
    - by replace (length (requests w) + 1 + j')%nat
        with (length (requests w) + S j')%nat by lia.
    - by replace (S i + j')%nat with (i + S j')%nat by lia. }
  assert (Hfail' : speech_api (length (requests w) + 1 + length before)
                     (clean_text_for_audio failing) = None).
  { cbn [length] in Hfail.
    by replace (length (requests w) + 1 + length before)%nat
      with (length (requests w) + S (length before))%nat by lia. }
  destruct j as [|j].
  - injection Hj as <-. rewrite Nat.add_0_r in Hs. rewrite Hc in Hs. injection Hs as <-.
    destruct (Hrest Hok' Hne Hfail') as (_ & _ & H3).
    rewrite Nat.add_0_r. rewrite H3; [apply lookup_insert_eq|].
    intros j' Hj' E. apply (Hdistinct (S j')); [cbn [length]; lia|].
    rewrite Nat.add_0_r, E. f_equal. lia.
  - replace (i + S j)%nat with (S i + j)%nat by lia.
    apply (IH Hok' Hne Hfail' j chunk content); [done| |].
    + by replace (length (requests w) + 1 + j)%nat
        with (length (requests w) + S j)%nat by lia.
    + intros j' Hj' E. apply (Hdistinct (S j')); [cbn [length]; lia|].
      by rewrite <- !Nat.add_succ_comm.
Qed.

(** C10, as the code has it. In a run over several chunks, let the
    speech request of one chunk fail after the chunks before it were
    synthesised. Then the run raises the failure instead of returning
    a file: the chunks after the failing one are never sent to the
    speech backend and no file other than chunk files is written. The
    ElevenLabs run first deletes the chunk files it has made; the
    OpenAI run leaves them, each chunk file holding the audio that was
    answered for its chunk (the chunk paths being distinct). *)
Theorem failed_chunk_aborts_synthesis :
  forall (text : str) (w : World) (before : list str) (failing : str) (after : list str),
    (forall (self : ElevenLabsTTS.t) (output_file : str),
       ElevenLabsTTS._split_text_into_chunks self text = before ++ failing :: after ->
       (forall j chunk, before !! j = Some chunk ->
          is_Some (elevenlabs_speech (length (requests w) + j) chunk)
          /\ creatable (elevenlabs_chunk_path j) = true) ->
       elevenlabs_speech (length (requests w) + length before) failing = None ->
       let r := ElevenLabsTTS._generate_chunked_audio creatable default_audio_file
                  briefing_beside elevenlabs_chunk_path elevenlabs_speech
                  self text output_file w in
       r.1 = Raise BackendError
       /\ requests r.2 = requests w ++ before ++ [failing]
       /\ (forall j, (j < length before)%nat ->
              files r.2 !! elevenlabs_chunk_path j = None)
       /\ (forall f, (forall j, (j < length before)%nat -> f <> elevenlabs_chunk_path j) ->
              files r.2 !! f = files w !! f))
    /\ (forall (tts_provider : str) (output_file : option str),
         AudioGenerator.is_elevenlabs tts_provider = false ->
         AudioGenerator.validate_text_length tts_provider text = false ->
         AudioGenerator.split_long_text tts_provider text None
           = before ++ failing :: after ->
         (forall j chunk, before !! j = Some chunk ->
            truthy (strip (clean_text_for_audio chunk)) = true
            /\ is_Some (speech_api (length (requests w) + j) (clean_text_for_audio chunk))
            /\ creatable (chunk_path j) = true) ->
         truthy (strip (clean_text_for_audio failing)) = true ->
         speech_api (length (requests w) + length before) (clean_text_for_audio failing)
           = None ->
         let r := AudioGenerator.generate_audio_from_long_text creatable
                    default_audio_file briefing_beside chunk_path elevenlabs_chunk_path
                    clean_text_for_audio speech_api elevenlabs_speech
                    tts_provider text output_file w in
         r.1 = Raise BackendError
         /\ requests r.2
            = requests w ++ List.map clean_text_for_audio before
                ++ [clean_text_for_audio failing]
         /\ (forall j chunk content,
                before !! j = Some chunk ->
                speech_api (length (requests w) + j) (clean_text_for_audio chunk)
                  = Some content ->
                (forall j', (j' < length before)%nat -> j' <> j ->
                   chunk_path j' <> chunk_path j) ->
                files r.2 !! chunk_path j = Some content)
         /\ (forall f, (forall j, (j < length before)%nat -> f <> chunk_path j) ->
                files r.2 !! f = files w !! f)).
Proof.
  intros text w before failing after. split.
  - intros self output_file Hsplit Hok Hfail r. subst r.
    unfold ElevenLabsTTS._generate_chunked_audio. rewrite Hsplit.
    destruct (elevenlabs_chunks_failure creatable elevenlabs_chunk_path elevenlabs_speech
                before failing after 0 [] w Hok Hfail) as (H1 & H2 & H3 & H4).
    destruct (ElevenLabsTTS.generate_chunks _ _ _ _ _ _ _) as [[files_|e] w'];
      cbn [fst snd] in *; [discriminate H1|].
    injection H1 as ->.
    split; [done|]. split; [done|]. split.
    + intros j Hj. apply H3. right. by exists j.
    + intros f Hf. apply H4; [apply not_elem_of_nil | done].
  - intros provider output_file Hp Hv Hsplit Hok Hne Hfail r. subst r.
    unfold AudioGenerator.generate_audio_from_long_text. rewrite Hp, Hv, Hsplit.
    destruct (openai_chunks_failure provider before failing after 0 [] w Hp Hok Hne Hfail)
      as (H1 & H2 & H3).
    pose proof (openai_chunks_kept provider before failing after 0 [] w Hp Hok Hne Hfail)
      as H4.
    destruct (AudioGenerator.generate_chunks _ _ _ _ _ _ _ _ _ _ _ _ _) as [[files_|e] w'];
      cbn [fst snd] in *; [discriminate H1|].
    injection H1 as ->. split; [done|]. split; [done|]. split; [|done].
    intros j chunk content Hj Hs Hd. apply (H4 j chunk content Hj Hs).
    intros j' Hj'. apply Hd; lia.
Qed.

End SynthesisFailure.

Section SynthesisExamples.
Import FailingSpeech.

(** Against C10 as stated: the text splits into two chunks; the speech
    request for the first one fails, the one for the second would
    succeed. The run raises the failure, having sent the first chunk
    only: the second chunk is never synthesised. *)
Lemma failing_chunk_stops_synthesis :
  ElevenLabsTTS._split_text_into_chunks ElevenLabsTTS.__init__ (text 500)
    = [first_sentence 500 ++ u "."; second_sentence 500 ++ u "."]
  /\ speech_api 1 (second_sentence 500 ++ u ".") = Some [x49; x44; x33]
  /\ FailingSpeech._generate_chunked_audio (text 500) (u "out.mp3") start
     = (Raise BackendError, mkWorld ∅ [first_sentence 500 ++ u "."]).
Proof. vm_compute. repeat split; reflexivity. Qed.

(** The first chunk is synthesised, the request for the second fails:
    the ElevenLabs run deletes the first chunk file, the OpenAI run (on
    a text beyond its single-request limit) leaves it. *)
Lemma failed_chunk_aborts_synthesis_witness :
  (let r := ElevenLabsTTS._generate_chunked_audio creatable default_audio_file
              briefing_beside chunk_path second_fails ElevenLabsTTS.__init__
              (text 500) (u "out.mp3") start in
   r.1 = Raise BackendError
   /\ requests r.2
      = requests start ++ [first_sentence 500 ++ u "."] ++ [second_sentence 500 ++ u "."]
   /\ (forall j, (j < length [first_sentence 500 ++ u "."])%nat ->
          files r.2 !! chunk_path j = None)
   /\ (forall f, (forall j, (j < length [first_sentence 500 ++ u "."])%nat ->
                    f <> chunk_path j) ->
          files r.2 !! f = files start !! f))
  /\ (let r := AudioGenerator.generate_audio_from_long_text creatable default_audio_file
                 briefing_beside chunk_path chunk_path clean_text_for_audio second_fails
                 second_fails (u "openai") (text 2100) None start in
      r.1 = Raise BackendError
      /\ requests r.2 = [first_sentence 2100 ++ u "."; second_sentence 2100 ++ u "."]
      /\ files r.2 !! chunk_path 0 = Some [x49; x44; x33]).
Proof.
  split.
  - apply (proj1 (failed_chunk_aborts_synthesis creatable default_audio_file
                    briefing_beside chunk_path chunk_path clean_text_for_audio
                    second_fails second_fails (text 500) start
                    [first_sentence 500 ++ u "."] (second_sentence 500 ++ u ".") [])).
    + vm_compute. reflexivity.
    + intros [|j] chunk H.
      * injection H as <-. split; [by eexists | reflexivity].
      * destruct j; discriminate H.
    + reflexivity.
  - intros r.
    destruct (proj2 (failed_chunk_aborts_synthesis creatable default_audio_file
                       briefing_beside chunk_path chunk_path clean_text_for_audio
                       second_fails second_fails (text 2100) start
                       [first_sentence 2100 ++ u "."] (second_sentence 2100 ++ u ".") [])
                (u "openai") None) as (H1 & H2 & H3 & _).
    + reflexivity.
    + vm_compute. reflexivity.
    + vm_compute. reflexivity.
    + intros [|j] chunk H.
      * injection H as <-. split; [by vm_compute|]. split; [by eexists | reflexivity].
      * destruct j; discriminate H.
    + by vm_compute.
    + reflexivity.
    + split; [exact H1|]. split; [exact H2|].
      apply (H3 0%nat (first_sentence 2100 ++ u ".") [x49; x44; x33]); [done|done|].
      intros j' Hj' Hne. cbn [length] in Hj'. lia.
Defined.

End SynthesisExamples.

(* ------------------------------------------------------------------ *)
(** *** Splitting text into chunks *)
(* ------------------------------------------------------------------ *)

Section StripFacts.

Lemma lstrip_inked x : inked x -> inked (lstrip x).
Proof.
  induction x as [|c x IH]; intros (d & Hd & Hs); [by apply not_elem_of_nil in Hd|].
  cbn [lstrip]. destruct (is_space c) eqn:Hc; [|by exists d].
  apply IH. exists d. split; [|done].
  apply elem_of_cons in Hd as [->|Hd]; [congruence | done].
Qed.

Lemma rev_inked x : inked x -> inked (rev x).
Proof.
  intros (d & Hd & Hs). exists d. split; [|done].
  apply list_elem_of_In, in_rev. rewrite rev_involutive. by apply list_elem_of_In.
Qed.

Lemma strip_inked x : inked x -> truthy (strip x) = true.
Proof.
  intros H. unfold strip, rstrip.
  apply lstrip_inked, rev_inked, lstrip_inked, rev_inked in H.
  destruct H as (d & Hd & _). apply truthy_true. intros E. rewrite E in Hd.
  by apply not_elem_of_nil in Hd.
Qed.

Lemma sentence_inked a : inked (a ++ u ". ").
Proof.
  exists 46%N. split; [|done]. apply elem_of_app. right. by left.
Qed.

Lemma strip_nil : strip [] = [].
Proof. done. Qed.

End StripFacts.

Section OpenAISplit.
Import AudioGenerator.
Variable max_chars : Z.
Variable text : str.

Local Abbreviation fine := (openai_fine max_chars text).
Local Abbreviation open_ok := (openai_open max_chars text).

Lemma open_ok_fine cur : open_ok cur -> truthy cur = true -> fine (strip cur).
Proof.
  intros [->|[Hle|(s & Hs & Hlong & ->)]] Ht; [done | left | right].
  - pose proof (len_strip cur). lia.
  - by exists s.
Qed.

Lemma openai_sentence_step_inv chunks cur s :
  s ∈ split (u ". ") text -> Forall fine chunks -> open_ok cur ->
  Forall fine (sentence_step max_chars (chunks, cur) s).1
  /\ open_ok (sentence_step max_chars (chunks, cur) s).2.
Proof.
  intros Hs Hchunks Hcur. unfold sentence_step.
  destruct (Z.leb_spec (len (cur ++ s ++ u ". ")) max_chars) as [Hle|Hgt]; cbn [fst snd].
  - split; [done|]. right. by left.
  - split.
    + destruct (truthy cur) eqn:Ht; [|done].
      apply Forall_app. split; [done|]. constructor; [by apply open_ok_fine | constructor].
    + destruct (Z.le_gt_cases (len (s ++ u ". ")) max_chars) as [Hfit|Hlong].
      * right. by left.
      * right. right. exists s. split; [done|]. split; [lia | done].
Qed.

Lemma openai_fold_inv sentences chunks cur :
  (forall s, s ∈ sentences -> s ∈ split (u ". ") text) ->
  Forall fine chunks -> open_ok cur ->
  Forall fine (fold_left (sentence_step max_chars) sentences (chunks, cur)).1
  /\ open_ok (fold_left (sentence_step max_chars) sentences (chunks, cur)).2.
Proof.
  revert chunks cur. induction sentences as [|s l IH]; intros chunks cur Hsub Hc Ho.
  { done. }
  cbn [fold_left].
  destruct (openai_sentence_step_inv chunks cur s) as [H1 H2];
    [apply Hsub; by left | done | done |].
  destruct (sentence_step max_chars (chunks, cur) s) as [chunks' cur'].
  apply IH; [|done|done]. intros s' Hs'. apply Hsub. by right.
Qed.

Lemma split_long_text_fine provider c :
  c ∈ split_long_text provider text (Some max_chars) -> fine c.
Proof.
  unfold split_long_text.
  destruct (Z.leb_spec (len text) max_chars) as [Hle|Hgt].
  { intros Hc. apply list_elem_of_singleton in Hc as ->. by left. }
  destruct (openai_fold_inv (split (u ". ") text) [] []) as [H1 H2];
    [done | constructor | by left |].
  destruct (fold_left _ _ _) as [chunks cur]. cbn [fst snd] in *.
  rewrite Forall_forall in H1.
  destruct (truthy cur) eqn:Ht; [|apply H1].
  intros [Hc|Hc]%elem_of_app; [by apply H1|].
  apply list_elem_of_singleton in Hc as ->. by apply open_ok_fine.
Qed.

End OpenAISplit.

Section ElevenLabsSplit.
Import ElevenLabsTTS.
Variable self : t.

Lemma word_step_shift chunks wc w :
  word_step self (chunks, wc) w
  = (chunks ++ (word_step self ([], wc) w).1, (word_step self ([], wc) w).2).
Proof.
  unfold word_step. destruct (_ <=? _); cbn [fst snd]; [by rewrite app_nil_r|].
  destruct (truthy (strip wc)); cbn [fst snd app]; by rewrite ?app_nil_r.
Qed.

Lemma word_fold_shift ws chunks wc :
  fold_left (word_step self) ws (chunks, wc)
  = (chunks ++ (fold_left (word_step self) ws ([], wc)).1,
     (fold_left (word_step self) ws ([], wc)).2).
Proof.
  revert chunks wc. induction ws as [|w ws IH]; intros chunks wc; cbn [fold_left].
  { cbn [fst snd]. by rewrite app_nil_r. }
  rewrite word_step_shift.
  destruct (word_step self ([], wc) w) as [d wc'] eqn:E. cbn [fst snd].
  rewrite (IH (chunks ++ d) wc'), (IH d wc'). cbn [fst snd]. by rewrite app_assoc.
Qed.

(** While every word with its separator fits, so does every sub-chunk
    the word loop closes, and so does what it leaves open. *)
Lemma word_fold_bound ws chunks wc :
  (forall w, w ∈ ws -> len w + 1 <= max_chars self) ->
  Forall (fun c => len c <= max_chars self) chunks ->
  wc = [] \/ len wc <= max_chars self ->
  Forall (fun c => len c <= max_chars self) (fold_left (word_step self) ws (chunks, wc)).1
  /\ ((fold_left (word_step self) ws (chunks, wc)).2 = []
      \/ len (fold_left (word_step self) ws (chunks, wc)).2 <= max_chars self).
Proof.
  revert chunks wc. induction ws as [|w ws IH]; intros chunks wc Hw Hc Hwc; [done|].
  cbn [fold_left]. unfold word_step at 2 4 6.
  assert (Hws : forall w', w' ∈ ws -> len w' + 1 <= max_chars self).
  { intros w' H. apply Hw. by right. }
  destruct (Z.leb_spec (len (wc ++ w ++ u " ")) (max_chars self)) as [Hle|Hgt].
  - apply IH; [done | done | by right].
  - apply IH; [done | |].
    + destruct (truthy (strip wc)) eqn:Ht; [|done].
      apply Forall_app. split; [done|]. constructor; [|constructor].
      destruct Hwc as [->|Hwc]; [done|]. pose proof (len_strip wc). lia.
    + right. rewrite len_app. change (len (u " ")) with 1. apply Hw. by left.
Qed.

Variable text : str.

Local Abbreviation fine := (elevenlabs_fine self text).
Local Abbreviation open_ok := (elevenlabs_open self text).
Local Abbreviation progress := (elevenlabs_progress self text).

Lemma elevenlabs_open_fine cur :
  open_ok cur -> truthy (strip cur) = true -> fine (strip cur).
Proof.
  intros [->|[Hle|(s & Hs & Hlong & ->)]] Ht; [done | left | right].
  - pose proof (len_strip cur). lia.
  - exists s. split; [done|]. split; [done|]. right. by left.
Qed.

Lemma elevenlabs_sentence_step_inv chunks cur s :
  s ∈ split (u ". ") text -> Forall fine chunks -> open_ok cur ->
  Forall fine (sentence_step self (chunks, cur) s).1
  /\ open_ok (sentence_step self (chunks, cur) s).2
  /\ progress (sentence_step self (chunks, cur) s).
Proof.
  intros Hs Hchunks Hcur. unfold sentence_step.
  destruct (Z.leb_spec (len (cur ++ s ++ u ". ")) (max_chars self)) as [Hle|Hgt];
    cbn [fst snd].
  { split; [done|]. split; [right; by left|]. right. left. cbn [snd].
    rewrite app_assoc. apply strip_inked, sentence_inked. }
  assert (Hflush : Forall fine
            (if truthy (strip cur) then chunks ++ [strip cur] else chunks)).
  { destruct (truthy (strip cur)) eqn:Ht; [|done].
    apply Forall_app. split; [done|].
    constructor; [by apply elevenlabs_open_fine | constructor]. }
  destruct (Z.gtb_spec (len (s ++ u ". ")) (max_chars self)) as [Hlong|Hfit].
  - rewrite word_fold_shift.
    change (fold_left (word_step self) (words s) ([], [])) with (word_chunks self s).
    assert (Hwords : Forall fine (word_chunks self s).1).
    { apply Forall_forall. intros c Hc. right. exists s.
      split; [done|]. split; [lia|]. by left. }
    assert (Hprog : exists s, s ∈ split (u ". ") text
                              /\ max_chars self < len (s ++ u ". ")).
    { exists s. split; [done | lia]. }
    destruct (truthy (strip (word_chunks self s).2)); cbn [fst snd].
    + split; [by apply Forall_app|]. split; [|by right; right].
      right. right. exists s. split; [done|]. split; [lia | done].
    + split; [by apply Forall_app|]. split; [by left | by right; right].
  - cbn [fst snd]. split; [done|]. split; [right; left; lia|].
    right. left. cbn [snd]. apply strip_inked, sentence_inked.
Qed.

Lemma elevenlabs_fold_inv sentences st :
  (forall s, s ∈ sentences -> s ∈ split (u ". ") text) ->
  Forall fine st.1 -> open_ok st.2 -> progress st \/ sentences <> [] ->
  Forall fine (fold_left (sentence_step self) sentences st).1
  /\ open_ok (fold_left (sentence_step self) sentences st).2
  /\ progress (fold_left (sentence_step self) sentences st).
Proof.
  revert st. induction sentences as [|s l IH]; intros [chunks cur] Hsub Hc Ho Hp.
  { cbn [fold_left]. destruct Hp as [Hp|Hp]; done. }
  cbn [fold_left]. cbn [fst snd] in Hc, Ho.
  destruct (elevenlabs_sentence_step_inv chunks cur s) as (H1 & H2 & H3);
    [apply Hsub; by left | done | done |].
  apply IH; [|done|done|by left]. intros s' Hs'. apply Hsub. by right.
Qed.

(** Every chunk of the ElevenLabs splitter is within the maximum or
    stems from a sentence that alone exceeds it. *)
Lemma split_text_into_chunks_fine c :
  c ∈ _split_text_into_chunks self text -> fine c.
Proof.
  unfold _split_text_into_chunks.
  destruct (elevenlabs_fold_inv (split (u ". ") text) ([], [])) as (H1 & H2 & H3);
    [done | constructor | by left | right; apply split_aux_nonempty |].
  destruct (fold_left _ _ _) as [chunks cur]. cbn [fst snd] in *.
  assert (Hall : Forall fine (if truthy (strip cur) then chunks ++ [strip cur] else chunks)).
  { destruct (truthy (strip cur)) eqn:Ht; [|done].
    apply Forall_app. split; [done|].
    constructor; [by apply elevenlabs_open_fine | constructor]. }
  rewrite Forall_forall in Hall.
  destruct (negb (truthy (if truthy (strip cur) then chunks ++ [strip cur] else chunks))
            && truthy (strip text)) eqn:Hfb; [|apply Hall].
  intros Hc. apply list_elem_of_singleton in Hc as ->.
  apply andb_true_iff in Hfb as [Hnone _]. apply negb_true_iff, truthy_false in Hnone.
  destruct (truthy (strip cur)) eqn:Ht.
  { by apply app_eq_nil in Hnone as [_ ?]. }
  subst chunks. unfold elevenlabs_progress in H3. cbn [fst snd] in H3.
  destruct H3 as [H3|[H3|(s & Hs & Hlong)]].
  - done.
  - congruence.
  - right. exists s. split; [done|]. split; [done|]. right. by right.
Qed.

End ElevenLabsSplit.

Section WordBoundaries.
Import ElevenLabsTTS.
Variable self : t.

Lemma spaced_snoc group w : spaced (group ++ [w]) = spaced group ++ w ++ u " ".
Proof.
  unfold spaced. rewrite List.map_app, concat_app. cbn [List.map concat].
  by rewrite app_nil_r.
Qed.

(** The word loop cuts between words only: the words of the sentence,
    in order, fall into groups; every group closed with something in it
    becomes one sub-chunk, its words joined by single spaces, and the
    last group is what stays open. *)
Lemma word_fold_groups ws open_group :
  exists groups last,
    open_group ++ ws = concat groups ++ last
    /\ (fold_left (word_step self) ws ([], spaced open_group)).1
       = List.map (fun g => strip (spaced g))
           (List.filter (fun g => truthy (strip (spaced g))) groups)
    /\ (fold_left (word_step self) ws ([], spaced open_group)).2 = spaced last.
Proof.
  revert open_group. induction ws as [|w ws IH]; intros g0.
  { exists [], g0. by rewrite app_nil_r. }
  cbn [fold_left]. unfold word_step at 2 4.
  destruct (len (spaced g0 ++ w ++ u " ") <=? max_chars self).
  - rewrite <- spaced_snoc.
    destruct (IH (g0 ++ [w])) as (groups & last & E & H1 & H2).
    exists groups, last. split; [by rewrite <- E, <- app_assoc | done].
  - assert (Hsp : spaced [w] = w ++ u " ").
    { unfold spaced. cbn [List.map concat]. by rewrite app_nil_r. }
    rewrite <- Hsp.
    destruct (IH [w]) as (groups & last & E & H1 & H2).
    exists (g0 :: groups), last.
    rewrite word_fold_shift. cbn [fst snd concat List.filter].
    split; [by rewrite <- app_assoc, <- E|]. split; [|done].
    rewrite H1. by destruct (truthy (strip (spaced g0))).
Qed.

End WordBoundaries.


(* ------------------------------------------------------------------ *)
(** *** The scenarios of the specification, computed *)
(* ------------------------------------------------------------------ *)

Section ScenarioChecks.
Import Scenarios.

(** An analyzer built for Gemini and asked while OpenAI is selected
    reserves 2000 tokens, below its floor of 8000: the floor of C1 needs
    the profile to stay as it was when the analyzer was built. *)
Example budget_needs_stable_profile :
  ArticleAnalyzer._calculate_dynamic_limits (fun _ => None)
    (ArticleAnalyzer.__init__ (u "gemini")) (u "openai") [] []
  = (500000, 2000).
Proof. reflexivity. Qed.

(** Two queries overlapping in one URL: each URL once, the fields of
    the first article seen. *)
Example overlapping_queries_deduplicated :
  List.map (fun a => (title a, url a, category a))
    (NewsCollector.collect_daily_news false 5 searches)
  = [(Some (u "Ransomware hits a port"), Some (u "https://a.example/1"), Some (u "Query_1"));
     (Some (u "Breach at a bank"), Some (u "https://b.example/2"), Some (u "Query_1"));
     (Some (u "Funding round"), Some (u "https://c.example/3"), Some (u "Query_2"))].
Proof. vm_compute. reflexivity. Qed.

(** Scores 2, 0 and 1 with a minimum of 1: the two scoring articles
    are kept, the higher score first. *)
Example scored_articles_filtered :
  List.map (fun a => (url a, relevance_score a))
    (NewsCollector.filter_relevant_articles ascii_lower keywords (Some 1) 5 scored)
  = [(Some (u "https://a.example/1"), Some 2); (Some (u "https://c.example/3"), Some 1)].
Proof. vm_compute. reflexivity. Qed.

(** Two marked URLs out of three grouped articles: the two articles
    come back flagged, the one of the first canonical category first. *)
Example marked_articles_extracted :
  List.map fst grouped = [u "Breaches & Incidents"; u "APTs & Cyber-Espionage"]
  /\ List.map (fun a => (url a, selected_for_podcast a))
       (ArticleAnalyzer._extract_selected_articles response grouped)
     = [(Some (u "https://a.com"), Some true); (Some (u "https://b.com"), Some true)].
Proof. vm_compute. split; reflexivity. Qed.

End ScenarioChecks.

(* ================================================================== *)
(** ** Splitting, joining and stripping *)
(* ================================================================== *)

Section SplitJoin.

Lemma join_cons sep p rest :
  rest <> [] -> join sep (p :: rest) = p ++ sep ++ join sep rest.
Proof. destruct rest; [done|]. done. Qed.

Lemma starts_with_length p s : starts_with p s = true -> (length p <= length s)%nat.
Proof.
  intros H. apply starts_with_inv in H. rewrite H. rewrite length_app. lia.
Qed.

Lemma join_split_aux sep k cur s :
  sep <> [] -> (k <= length s)%nat ->
  join sep (split_aux sep k cur s) = rev cur ++ drop k s.
Proof.
  intros Hsep. revert k cur.
  induction s as [|c s IH]; intros k cur Hk.
  - simpl in Hk. assert (k = 0%nat) as -> by lia. simpl. by rewrite app_nil_r.
  - destruct k as [|k].
    + cbn [split_aux drop].
      destruct (starts_with sep (c :: s)) eqn:E.
      * rewrite join_cons by apply split_aux_nonempty.
        pose proof (starts_with_length _ _ E) as Hl.
        apply starts_with_inv in E.
        destruct sep as [|a sep]; [done|].
        simpl in Hl. rewrite IH by (simpl; lia). simpl.
        simpl in E. injection E as -> E. rewrite E at 2. done.
      * rewrite IH by lia. simpl. by rewrite <- app_assoc.
    + cbn [split_aux drop]. apply IH. simpl in Hk. lia.
Qed.

Lemma join_split sep s : sep <> [] -> join sep (split sep s) = s.
Proof. intros H. unfold split. rewrite join_split_aux by (done || lia). done. Qed.

Lemma closed_app a b : closed (a ++ b) = closed a ++ closed b.
Proof. unfold closed. by rewrite List.map_app, concat_app. Qed.

Lemma closed_join l : l <> [] -> closed l = join (u ". ") l ++ u ". ".
Proof.
  induction l as [|s l IH]; [done|]. intros _.
  destruct l as [|t l].
  - unfold closed. simpl. by rewrite app_nil_r.
  - rewrite join_cons by done. change (closed (s :: t :: l)) with ((s ++ u ". ") ++ closed (t :: l)).
    rewrite IH by done. by rewrite <- !app_assoc.
Qed.

Lemma closed_split text : closed (split (u ". ") text) = text ++ u ". ".
Proof.
  rewrite closed_join by apply split_aux_nonempty.
  by rewrite join_split.
Qed.

End SplitJoin.

Section StripTwice.

Lemma lstrip_head s c t : lstrip s = c :: t -> is_space c = false.
Proof.
  induction s as [|d s IH]; simpl; [done|].
  destruct (is_space d) eqn:E; [done|]. intros [= -> _]. done.
Qed.

Lemma lstrip_fixed s : match s with [] => True | c :: _ => is_space c = false end -> lstrip s = s.
Proof. destruct s as [|c s]; simpl; [done|]. by intros ->. Qed.

Lemma lstrip_lstrip s : lstrip (lstrip s) = lstrip s.
Proof.
  apply lstrip_fixed. destruct (lstrip s) eqn:E; [done|]. by eapply lstrip_head.
Qed.

Lemma lstrip_suffix s : exists p, s = p ++ lstrip s.
Proof.
  induction s as [|c s [p IH]]; [by exists []|]. simpl.
  destruct (is_space c); [|by exists []].
  exists (c :: p). simpl. by rewrite <- IH.
Qed.

Lemma strip_trimmed_ends s :
  lstrip (strip s) = strip s /\ lstrip (rev (strip s)) = rev (strip s).
Proof.
  unfold strip, rstrip. rewrite rev_involutive. split; [|apply lstrip_lstrip].
  apply lstrip_fixed.
  destruct (lstrip_suffix (rev (lstrip s))) as [p Hp].
  apply (f_equal (@rev _)) in Hp. rewrite rev_involutive, rev_app_distr in Hp.
  destruct (rev (lstrip (rev (lstrip s)))) as [|c r] eqn:E; [done|].
  simpl in Hp. by eapply lstrip_head.
Qed.

Lemma strip_strip s : strip (strip s) = strip s.
Proof.
  destruct (strip_trimmed_ends s) as [H1 H2].
  unfold strip at 1. unfold rstrip. rewrite H1, H2. apply rev_involutive.
Qed.

Lemma strip_is_trimmed s : truthy (strip s) = true -> trimmed (strip s).
Proof. intros H. split; [by apply truthy_true | apply strip_strip]. Qed.

End StripTwice.

(* ================================================================== *)
(** ** utils/helpers.py: truncate_text *)
(* ================================================================== *)

Section TruncateText.
Import Helpers.

Lemma take_sentences_bound m sentences truncated :
  truncated = [] \/ len truncated <= m ->
  take_sentences m truncated sentences = [] \/ len (take_sentences m truncated sentences) <= m.
Proof.
  revert truncated. induction sentences as [|s l IH]; intros truncated H; simpl; [done|].
  destruct (Z.leb_spec (len (truncated ++ s ++ u ". ")) m); [|done].
  apply IH. by right.
Qed.

Lemma take_sentences_run m sentences truncated :
  (take_sentences m truncated sentences = truncated ++ closed sentences
   /\ (sentences = [] \/ len (truncated ++ closed sentences) <= m))
  \/ exists k : nat,
       (k < length sentences)%nat
       /\ take_sentences m truncated sentences = truncated ++ closed (take k sentences)
       /\ (k = 0%nat \/ len (truncated ++ closed (take k sentences)) <= m)
       /\ m < len (truncated ++ closed (take (S k) sentences)).
Proof.
  revert truncated. induction sentences as [|s l IH]; intros truncated.
  - left. split; [|by left]. unfold closed. simpl. by rewrite app_nil_r.
  - cbn [take_sentences].
    destruct (Z.leb_spec (len (truncated ++ s ++ u ". ")) m) as [Hfit|Hover].
    + destruct (IH (truncated ++ s ++ u ". ")) as [[E Hl]|(k & Hk & E & Hm & Hn)].
      * left. change (closed (s :: l)) with ((s ++ u ". ") ++ closed l).
        rewrite E, <- ?app_assoc. split; [done|]. right.
        destruct Hl as [->|Hl].
        -- change (closed []) with (@nil N). rewrite app_nil_r.
           by rewrite <- ?app_assoc in Hfit.
        -- by rewrite <- ?app_assoc in Hl.
      * right. exists (S k). split; [simpl; lia|].
        change (take (S k) (s :: l)) with (s :: take k l).
        change (take (S (S k)) (s :: l)) with (s :: take (S k) l).
        change (closed (s :: ?x)) with ((s ++ u ". ") ++ closed x).
        rewrite E, <- ?app_assoc in *. split; [done|]. split; [|done].
        right. destruct Hm as [->|Hm]; [|done].
        change (closed (take 0 l)) with (@nil N). by rewrite app_nil_r.
    + right. exists 0%nat. split; [simpl; lia|].
      change (closed (take 0 (s :: l))) with (@nil N).
      change (closed (take 1 (s :: l))) with ((s ++ u ". ") ++ closed []).
      change (closed []) with (@nil N).
      rewrite !app_nil_r. split; [done|]. split; [by left|].
      by rewrite <- ?app_assoc in *.
Qed.

Lemma prefix_app_short {A} (a b c : list A) :
  a `prefix_of` b ++ c -> (length a <= length b)%nat -> a `prefix_of` b.
Proof.
  intros [d Hd] Hl.
  assert (a = take (length a) b) as ->; [|apply prefix_take].
  apply (f_equal (take (length a))) in Hd.
  rewrite take_app_le in Hd by done. rewrite take_app_length in Hd. done.
Qed.

Lemma closed_take_prefix k sentences : closed (take k sentences) `prefix_of` closed sentences.
Proof.
  rewrite <- (take_drop k sentences) at 2. rewrite closed_app. by apply prefix_app_r.
Qed.

(** X1. For a limit that is not negative, [truncate_text] returns a text of
    at most [max_length] characters (4000 when no limit is given). *)
Theorem truncate_text_within_limit :
  forall (text : str) (max_length : option Z),
    let m := Dict.get max_length 4000 in
    0 <= m -> len (truncate_text text max_length) <= m.
Proof.
  intros text max_length m Hm. unfold truncate_text. fold m.
  destruct (Z.leb_spec (len text) m); [done|].
  destruct (take_sentences_bound m (split (u ". ") text) []) as [E|E]; [by left| |].
  - rewrite E. done.
  - pose proof (len_strip (take_sentences m [] (split (u ". ") text))). lia.
Qed.

(** X2. [truncate_text] returns a text within the limit unchanged. A
    longer text is cut between sentences: the result is the first [k]
    pieces of [text.split('. ')], each followed by ". ", with the
    whitespace at both ends stripped; this run is a prefix of the text,
    it fits the limit (or is empty), the next sentence would not have
    fitted, and the last piece is never taken. *)
Theorem truncate_text_whole_sentences :
  forall (text : str) (max_length : option Z),
    let m := Dict.get max_length 4000 in
    let sentences := split (u ". ") text in
    (len text <= m -> truncate_text text max_length = text)
    /\ (m < len text ->
        exists k : nat,
          (k < length sentences)%nat
          /\ truncate_text text max_length = strip (closed (take k sentences))
          /\ closed (take k sentences) `prefix_of` text
          /\ (k = 0%nat \/ len (closed (take k sentences)) <= m)
          /\ m < len (closed (take (S k) sentences))).
Proof.
  intros text max_length m sentences. unfold truncate_text. fold m. split.
  - intros H. by destruct (Z.leb_spec (len text) m); [|lia].
  - intros H. destruct (Z.leb_spec (len text) m); [lia|].
    destruct (take_sentences_run m sentences []) as [[E Hl]|(k & Hk & E & Hfit & Hn)].
    + exfalso. destruct Hl as [Hl|Hl].
      * by apply (split_aux_nonempty (u ". ") 0 [] text).
      * simpl in Hl. unfold sentences in Hl. rewrite closed_split, len_app in Hl.
        pose proof (len_nonneg (u ". ")). lia.
    + simpl in E, Hfit, Hn. exists k. fold sentences. rewrite E.
      split; [done|]. split; [done|]. split; [|done].
      apply prefix_app_short with (u ". ").
      * rewrite <- closed_split. apply closed_take_prefix.
      * destruct Hfit as [->|Hfit]; [simpl; lia|]. unfold len in *. lia.
Qed.

End TruncateText.

Lemma truncate_text_within_limit_witness :
  0 <= 8 /\ len (Helpers.truncate_text (u "One. Two. Three") (Some 8)) <= 8.
Proof.
  split; [lia|].
  apply (truncate_text_within_limit (u "One. Two. Three") (Some 8)). simpl. lia.
Defined.

(* ================================================================== *)
(** ** Sentence splitting of the two providers *)
(* ================================================================== *)

Section ChunkShape.
Import ElevenLabsTTS.
Variable self : t.

Lemma snoc_trimmed chunks x :
  Forall trimmed chunks ->
  Forall trimmed (if truthy (strip x) then chunks ++ [strip x] else chunks).
Proof.
  intros H. destruct (truthy (strip x)) eqn:E; [|done].
  apply Forall_app. split; [done|]. apply Forall_singleton. by apply strip_is_trimmed.
Qed.

Lemma word_step_trimmed chunks wc w :
  Forall trimmed chunks -> Forall trimmed (word_step self (chunks, wc) w).1.
Proof.
  intros H. unfold word_step.
  destruct (len (wc ++ w ++ u " ") <=? max_chars self); [done|].
  cbn [fst]. by apply snoc_trimmed.
Qed.

Lemma word_fold_trimmed ws chunks wc :
  Forall trimmed chunks -> Forall trimmed (fold_left (word_step self) ws (chunks, wc)).1.
Proof.
  revert chunks wc. induction ws as [|w ws IH]; intros chunks wc H; [done|].
  cbn [fold_left]. pose proof (word_step_trimmed chunks wc w H) as H'.
  destruct (word_step self (chunks, wc) w) as [chunks' wc']. by apply IH.
Qed.

Lemma sentence_step_trimmed chunks cur s :
  Forall trimmed chunks -> Forall trimmed (sentence_step self (chunks, cur) s).1.
Proof.
  intros H. unfold sentence_step.
  destruct (len (cur ++ s ++ u ". ") <=? max_chars self); [done|].
  pose proof (snoc_trimmed chunks cur H) as H'.
  destruct (len (s ++ u ". ") >? max_chars self); [|done].
  pose proof (word_fold_trimmed (words s) _ [] H') as H''.
  destruct (fold_left (word_step self) (words s) _) as [chunks' wc'].
  by destruct (truthy (strip wc')).
Qed.

Lemma sentence_fold_trimmed sentences chunks cur :
  Forall trimmed chunks ->
  Forall trimmed (fold_left (sentence_step self) sentences (chunks, cur)).1.
Proof.
  revert chunks cur. induction sentences as [|s l IH]; intros chunks cur H; [done|].
  cbn [fold_left]. pose proof (sentence_step_trimmed chunks cur s H) as H'.
  destruct (sentence_step self (chunks, cur) s) as [chunks' cur']. by apply IH.
Qed.

(** X3. Every chunk the ElevenLabs splitter returns is non-empty and has
    no whitespace at either end, and a text that is not blank gives at
    least one chunk. *)
Theorem elevenlabs_chunks_trimmed :
  forall (text : str),
    Forall trimmed (_split_text_into_chunks self text)
    /\ (truthy (strip text) = true -> _split_text_into_chunks self text <> []).
Proof.
  intros text. unfold _split_text_into_chunks.
  match goal with
  | |- context [fold_left ?f ?l ?i] =>
      pose proof (sentence_fold_trimmed l [] [] (Forall_nil_2 _)) as H;
      change (Forall trimmed (fold_left f l i).1) in H;
      destruct (fold_left f l i) as [chunks cur]
  end.
  cbn [fst] in H. pose proof (snoc_trimmed chunks cur H) as H'.
  destruct (truthy (strip text)) eqn:E.
  - destruct (if truthy (strip cur) then chunks ++ [strip cur] else chunks) eqn:E'; simpl.
    + split; [|done]. apply Forall_singleton. by apply strip_is_trimmed.
    + done.
  - rewrite andb_false_r. done.
Qed.

End ChunkShape.

Section ShortText.
Import ElevenLabsTTS.
Variable self : t.

Lemma sentence_fold_fits l cur :
  len (cur ++ closed l) <= max_chars self ->
  fold_left (sentence_step self) l ([], cur) = ([], cur ++ closed l).
Proof.
  revert cur. induction l as [|s l IH]; intros cur H.
  - change (closed []) with (@nil N). by rewrite app_nil_r.
  - change (closed (s :: l)) with ((s ++ u ". ") ++ closed l) in *.
    cbn [fold_left]. unfold sentence_step at 2.
    rewrite !len_app in H. pose proof (len_nonneg (closed l)).
    destruct (Z.leb_spec (len (cur ++ s ++ u ". ")) (max_chars self)) as [_|Hn].
    + rewrite IH; rewrite <- ?app_assoc; [done|]. rewrite !len_app. lia.
    + rewrite !len_app in Hn. lia.
Qed.

(** X4. A text of at most [max_chars - 2] characters comes out of the
    ElevenLabs splitter as one chunk: the text followed by ". ",
    stripped. The splitter closes the last sentence too, so a text that
    ends in a full stop is synthesized with two. *)
Theorem elevenlabs_short_text_one_chunk :
  forall (text : str),
    len text + 2 <= max_chars self ->
    _split_text_into_chunks self text = [strip (text ++ u ". ")].
Proof.
  intros text H. unfold _split_text_into_chunks.
  rewrite sentence_fold_fits.
  - simpl app. rewrite closed_split.
    by rewrite (strip_inked _ (sentence_inked text)).
  - simpl app. rewrite closed_split, len_app. change (len (u ". ")) with 2. lia.
Qed.

End ShortText.

Lemma elevenlabs_short_text_one_chunk_witness :
  len (u "Good morning.") + 2 <= 1000
  /\ ElevenLabsTTS._split_text_into_chunks ElevenLabsTTS.__init__ (u "Good morning.")
     = [u "Good morning.."].
Proof.
  split; [by vm_compute|].
  apply (elevenlabs_short_text_one_chunk ElevenLabsTTS.__init__ (u "Good morning.")).
  by vm_compute.
Defined.

Section SentenceGroups.
Import AudioGenerator.
Variable m : Z.

Local Abbreviation chunk_of := (fun g : list str => strip (closed g)).

Lemma closed_truthy open : truthy (closed open) = truthy open.
Proof. destruct open as [|s l]; [done|]. by destruct s. Qed.

Lemma closed_snoc open s : closed (open ++ [s]) = closed open ++ s ++ u ". ".
Proof. rewrite closed_app. unfold closed at 2. simpl. by rewrite app_nil_r. Qed.

Lemma closed_concat groups : closed (concat groups) = concat (List.map closed groups).
Proof.
  induction groups as [|g groups IH]; [done|]. simpl. by rewrite closed_app, IH.
Qed.

Lemma openai_fold_groups l groups open :
  Forall (fun g => g <> []) groups ->
  exists groups' open',
    concat groups' ++ open' = concat groups ++ open ++ l
    /\ Forall (fun g => g <> []) groups'
    /\ fold_left (sentence_step m) l (List.map chunk_of groups, closed open)
       = (List.map chunk_of groups', closed open')
    /\ (open <> [] \/ l <> [] -> open' <> []).
Proof.
  revert groups open. induction l as [|s l IH]; intros groups open Hg.
  - exists groups, open. rewrite app_nil_r. repeat split; try done. by intros [|].
  - cbn [fold_left]. unfold sentence_step at 2.
    destruct (len (closed open ++ s ++ u ". ") <=? m).
    + rewrite <- closed_snoc.
      destruct (IH groups (open ++ [s]) Hg) as (g' & o' & E & Hg' & F & Ho).
      exists g', o'. rewrite <- app_assoc in E. repeat split; try done.
      intros _. apply Ho. left. by destruct open.
    + rewrite closed_truthy.
      assert (s ++ u ". " = closed [s]) as -> by (unfold closed; simpl; by rewrite app_nil_r).
      destruct open as [|o open].
      * simpl truthy. cbv iota.
        destruct (IH groups [s] Hg) as (g' & o' & E & Hg' & F & Ho).
        exists g', o'. repeat split; try done. intros _. apply Ho. by left.
      * simpl truthy. cbv iota.
        change [strip (closed (o :: open))] with (List.map chunk_of [o :: open]).
        rewrite <- List.map_app.
        destruct (IH (groups ++ [o :: open]) [s]) as (g' & o' & E & Hg' & F & Ho).
        { apply Forall_app. split; [done|]. by apply Forall_singleton. }
        exists g', o'. rewrite concat_app in E. simpl in E. rewrite app_nil_r in E.
        rewrite <- !app_assoc in E. repeat split; try done. intros _. apply Ho. by left.
Qed.

End SentenceGroups.

Section SentenceBoundaries.
Import AudioGenerator.

(** X5. [split_long_text] returns a text within the limit as its only
    chunk (the limit is the argument, else 5000 for ElevenLabs and 4000
    otherwise). A longer text is cut between sentences only: the pieces
    of [text.split('. ')] fall into consecutive non-empty groups, each
    chunk is the sentences of its group, each closed by ". ", stripped,
    and the chunks before stripping make up the text followed by
    ". ". *)
Theorem split_long_text_at_sentences :
  forall (tts_provider : str) (text : str) (max_chars : option Z),
    let limit :=
      match max_chars with
      | None => if is_elevenlabs tts_provider then 5000 else 4000
      | Some limit => limit
      end in
    (len text <= limit -> split_long_text tts_provider text max_chars = [text])
    /\ (limit < len text ->
        exists groups : list (list str),
          concat groups = split (u ". ") text
          /\ Forall (fun g => g <> []) groups
          /\ split_long_text tts_provider text max_chars
             = List.map (fun g => strip (closed g)) groups
          /\ concat (List.map closed groups) = text ++ u ". ").
Proof.
  intros tts_provider text max_chars limit. unfold split_long_text. fold limit. split.
  - intros H. by destruct (Z.leb_spec (len text) limit); [|lia].
  - intros H. destruct (Z.leb_spec (len text) limit); [lia|].
    destruct (openai_fold_groups limit (split (u ". ") text) [] [] (Forall_nil_2 _))
      as (g & o & E & Hg & F & Ho).
    change (fold_left (sentence_step limit) (split (u ". ") text) ([], [])
            = (List.map (fun g => strip (closed g)) g, closed o)) in F.
    rewrite F. rewrite closed_truthy.
    assert (o <> []) as Ho'.
    { apply Ho. right. apply split_aux_nonempty. }
    destruct o as [|s o]; [done|]. simpl truthy. cbv iota.
    exists (g ++ [s :: o]).
    assert (concat (g ++ [s :: o]) = split (u ". ") text) as Hc.
    { rewrite concat_app. simpl. by rewrite app_nil_r. }
    split; [done|]. split.
    { apply Forall_app. split; [done|]. by apply Forall_singleton. }
    split.
    { by rewrite List.map_app. }
    rewrite <- closed_concat, Hc. apply closed_split.
Qed.

End SentenceBoundaries.

Section SplittersAgree.
Variable m : Z.

Lemma inked_truthy x : inked x -> truthy x = true.
Proof. intros (c & Hc & _). destruct x; [by apply elem_of_nil in Hc | done]. Qed.

Lemma openai_step_inked chunks cur s :
  inked (AudioGenerator.sentence_step m (chunks, cur) s).2.
Proof.
  unfold AudioGenerator.sentence_step.
  destruct (len (cur ++ s ++ u ". ") <=? m); cbn [snd].
  - rewrite app_assoc. apply sentence_inked.
  - apply sentence_inked.
Qed.

Lemma elevenlabs_step_agrees chunks cur s :
  len (s ++ u ". ") <= m -> cur = [] \/ inked cur ->
  ElevenLabsTTS.sentence_step (ElevenLabsTTS.mk m) (chunks, cur) s
  = AudioGenerator.sentence_step m (chunks, cur) s.
Proof.
  intros Hs Hc. unfold ElevenLabsTTS.sentence_step, AudioGenerator.sentence_step.
  cbn [ElevenLabsTTS.max_chars].
  destruct (len (cur ++ s ++ u ". ") <=? m); [done|].
  destruct (Z.gtb_spec (len (s ++ u ". ")) m); [lia|].
  destruct Hc as [->|Hc]; [done|].
  by rewrite (strip_inked _ Hc), (inked_truthy _ Hc).
Qed.

Lemma elevenlabs_fold_agrees l chunks cur :
  Forall (fun s => len (s ++ u ". ") <= m) l -> cur = [] \/ inked cur ->
  fold_left (ElevenLabsTTS.sentence_step (ElevenLabsTTS.mk m)) l (chunks, cur)
  = fold_left (AudioGenerator.sentence_step m) l (chunks, cur)
  /\ (l <> [] -> inked (fold_left (AudioGenerator.sentence_step m) l (chunks, cur)).2).
Proof.
  revert chunks cur. induction l as [|s l IH]; intros chunks cur Hl Hc; [done|].
  apply Forall_cons in Hl as [Hs Hl]. cbn [fold_left].
  rewrite elevenlabs_step_agrees by done.
  destruct (AudioGenerator.sentence_step m (chunks, cur) s) as [chunks' cur'] eqn:E0.
  assert (Hi : inked cur').
  { change cur' with (chunks', cur').2. rewrite <- E0. apply openai_step_inked. }
  destruct (IH chunks' cur' Hl (or_intror Hi)) as [E Hn].
  split; [done|]. intros _. destruct l as [|t l]; [done|]. by apply Hn.
Qed.

End SplittersAgree.

(** X6. On a text longer than the limit in which every sentence with its
    ". " fits the limit, the ElevenLabs splitter with that limit and
    [split_long_text] with that limit return the same chunks. *)
Theorem splitters_agree_on_short_sentences :
  forall (tts_provider : str) (text : str) (limit : Z),
    limit < len text ->
    Forall (fun s => len (s ++ u ". ") <= limit) (split (u ". ") text) ->
    ElevenLabsTTS._split_text_into_chunks (ElevenLabsTTS.mk limit) text
    = AudioGenerator.split_long_text tts_provider text (Some limit).
Proof.
  intros tts_provider text limit Hlong Hs.
  unfold ElevenLabsTTS._split_text_into_chunks, AudioGenerator.split_long_text.
  destruct (Z.leb_spec (len text) limit); [lia|].
  destruct (elevenlabs_fold_agrees limit (split (u ". ") text) [] [] Hs (or_introl eq_refl))
    as [E Hi].
  rewrite E. specialize (Hi (split_aux_nonempty _ _ _ _)).
  destruct (fold_left (AudioGenerator.sentence_step limit) _ _) as [chunks cur].
  cbn [snd] in Hi. rewrite (strip_inked _ Hi), (inked_truthy _ Hi).
  by destruct chunks.
Qed.

Lemma splitters_agree_on_short_sentences_witness :
  12 < len (u "One two. Three. Four five")
  /\ Forall (fun s => len (s ++ u ". ") <= 12) (split (u ". ") (u "One two. Three. Four five"))
  /\ ElevenLabsTTS._split_text_into_chunks (ElevenLabsTTS.mk 12) (u "One two. Three. Four five")
     = AudioGenerator.split_long_text (u "openai") (u "One two. Three. Four five") (Some 12).
Proof.
  assert (H1 : 12 < len (u "One two. Three. Four five")) by (by vm_compute).
  assert (H2 : Forall (fun s => len (s ++ u ". ") <= 12)
                 (split (u ". ") (u "One two. Three. Four five"))).
  { assert (split (u ". ") (u "One two. Three. Four five")
            = [u "One two"; u "Three"; u "Four five"]) as -> by (by vm_compute).
    repeat (apply Forall_cons; split; [by vm_compute|]). apply Forall_nil_2. }
  split; [exact H1|]. split; [exact H2|].
  exact (splitters_agree_on_short_sentences (u "openai") _ 12 H1 H2).
Defined.

(* ------------------------------------------------------------------ *)
(** *** Chunk sizes of the two splitters *)
(* ------------------------------------------------------------------ *)

Section SizedGroups.
Import AudioGenerator.
Variable m : Z.

Local Abbreviation chunk_of := (fun g : list str => strip (closed g)).
Local Abbreviation sized := (fun g : list str => g <> [] /\ sentence_group_fits m g).

Lemma openai_fold_sized l groups open :
  Forall sized groups ->
  open = [] \/ sentence_group_fits m open ->
  exists groups' open',
    concat groups' ++ open' = concat groups ++ open ++ l
    /\ Forall sized groups'
    /\ fold_left (sentence_step m) l (List.map chunk_of groups, closed open)
       = (List.map chunk_of groups', closed open')
    /\ (open <> [] \/ l <> [] -> open' <> [])
    /\ (open' = [] \/ sentence_group_fits m open').
Proof.
  revert groups open. induction l as [|s l IH]; intros groups open Hg Ho.
  - exists groups, open. rewrite app_nil_r. repeat split; try done. by intros [|].
  - cbn [fold_left]. unfold sentence_step at 2.
    destruct (Z.leb_spec (len (closed open ++ s ++ u ". ")) m) as [Hfit|Hover].
    + rewrite <- closed_snoc in *.
      destruct (IH groups (open ++ [s]) Hg) as (g' & o' & E & Hg' & F & Hn & Ho').
      { right. by left. }
      exists g', o'. rewrite <- app_assoc in E. repeat split; try done.
      intros _. apply Hn. left. by destruct open.
    + rewrite closed_truthy.
      assert (Hs : s ++ u ". " = closed [s])
        by (unfold closed; simpl; by rewrite app_nil_r).
      assert (Hone : [s] = [] \/ sentence_group_fits m [s]).
      { right. destruct (Z.le_gt_cases (len (s ++ u ". ")) m) as [H|H].
        - left. by rewrite <- Hs.
        - right. exists s. split; [done|lia]. }
      rewrite Hs.
      destruct open as [|o open].
      * simpl truthy. cbv iota.
        destruct (IH groups [s] Hg Hone) as (g' & o' & E & Hg' & F & Hn & Ho').
        exists g', o'. repeat split; try done. intros _. apply Hn. by left.
      * simpl truthy. cbv iota.
        change [strip (closed (o :: open))] with (List.map chunk_of [o :: open]).
        rewrite <- List.map_app.
        destruct (IH (groups ++ [o :: open]) [s]) as (g' & o' & E & Hg' & F & Hn & Ho').
        { apply Forall_app. split; [done|]. apply Forall_singleton.
          split; [done|]. by destruct Ho. }
        { done. }
        exists g', o'. rewrite concat_app in E. simpl in E. rewrite app_nil_r in E.
        rewrite <- !app_assoc in E. repeat split; try done. intros _. apply Hn. by left.
Qed.

End SizedGroups.

Section OpenStop.

Lemma lstrip_app_ink x c z :
  is_space c = false -> lstrip (x ++ c :: z) = lstrip x ++ c :: z.
Proof.
  intros Hc. induction x as [|d x IH]; cbn [app lstrip]; [by rewrite Hc|].
  by destruct (is_space d).
Qed.

(** What is left open by the word loop, with the full stop the sentence
    loop appends: the stop stays, the space behind it goes. *)
Lemma strip_full_stop x : strip (x ++ u ". ") = lstrip x ++ [46%N].
Proof.
  unfold strip, rstrip. change (u ". ") with [46%N; 32%N].
  rewrite lstrip_app_ink by done.
  rewrite rev_app_distr.
  change (lstrip (rev [46%N; 32%N] ++ rev (lstrip x))) with (46%N :: rev (lstrip x)).
  cbn [rev]. by rewrite rev_involutive.
Qed.

Lemma len_strip_full_stop x : len (strip (x ++ u ". ")) <= len x + 1.
Proof.
  rewrite strip_full_stop, len_app. pose proof (lstrip_length x).
  unfold len. cbn [length]. lia.
Qed.

End OpenStop.

Section ChunkSizes.


End ChunkSizes.

Section ChunkExamples.
Import LongTexts.



End ChunkExamples.

(* ================================================================== *)
(** ** utils/helpers.py: clean_text_for_audio *)
(* ================================================================== *)

Section CleanText.
Import Helpers.
Variable unicode_alnum : char -> bool.

Lemma lstrip_subseteq s c : c ∈ lstrip s -> c ∈ s.
Proof.
  destruct (lstrip_suffix s) as [p Hp]. intros H. rewrite Hp.
  apply elem_of_app. by right.
Qed.

Lemma elem_of_List_filter {A} (f : A -> bool) l x :
  x ∈ List.filter f l <-> x ∈ l /\ f x = true.
Proof. rewrite !list_elem_of_In. apply filter_In. Qed.

Lemma elem_of_rev (s : str) c : c ∈ rev s <-> c ∈ s.
Proof. rewrite !list_elem_of_In. symmetry. apply in_rev. Qed.

Lemma strip_subseteq s c : c ∈ strip s -> c ∈ s.
Proof.
  unfold strip, rstrip. intros H.
  apply lstrip_subseteq. apply elem_of_rev. apply lstrip_subseteq.
  by apply elem_of_rev.
Qed.

Lemma collapse_whitespace_elem b s c :
  c ∈ collapse_whitespace b s -> c = 32%N \/ (c ∈ s /\ is_space c = false).
Proof.
  revert b. induction s as [|d s IH]; intros b; simpl.
  - by intros ?%elem_of_nil.
  - destruct (is_space d) eqn:E.
    + destruct b.
      * intros H. destruct (IH _ H) as [|[? ?]]; [by left|]. right. split; [by right|done].
      * intros [->|H]%elem_of_cons; [by left|].
        destruct (IH _ H) as [|[? ?]]; [by left|]. right. split; [by right|done].
    + intros [->|H]%elem_of_cons.
      * right. split; [by left|done].
      * destruct (IH _ H) as [|[? ?]]; [by left|]. right. split; [by right|done].
Qed.

(** X7. The text [clean_text_for_audio] returns holds only spaces, the
    punctuation [.,!?;:-()] and word characters other than the
    underscore: no markdown character and no whitespace other than the
    space; and it has no whitespace at either end. *)
Theorem clean_text_characters :
  forall (text : str),
    let out := clean_text_for_audio unicode_alnum text in
    Forall (fun c =>
      c = 32%N
      \/ is_punctuation c = true
      \/ (is_word unicode_alnum c = true /\ c <> 95%N /\ is_space c = false)) out
    /\ strip out = out.
Proof.
  intros text out. split; [|apply strip_strip].
  apply Forall_forall. intros c Hc.
  apply strip_subseteq in Hc.
  apply elem_of_List_filter in Hc as [Hc Hkept].
  apply collapse_whitespace_elem in Hc as [->|[Hc Hs]]; [by left|].
  apply elem_of_List_filter in Hc as [_ Hmd].
  rewrite Hs, orb_false_r in Hkept.
  destruct (is_punctuation c) eqn:Hp; [by right; left|].
  rewrite orb_false_r in Hkept. right. right.
  split; [by destruct (is_word unicode_alnum c)|]. split; [|done].
  intros ->. done.
Qed.

Lemma non_space_run_all run :
  Forall (fun c => is_space c = false) run -> ArticleAnalyzer.non_space_run run = run.
Proof.
  induction 1 as [|c run Hc _ IH]; simpl; [done|]. by rewrite Hc, IH.
Qed.

Lemma match_url_complete v : url_shape v -> ArticleAnalyzer.match_url [] v = Some v.
Proof.
  intros (run & Hv & Hne & Hrun).
  pose proof (non_space_run_all run Hrun) as Hr.
  assert (truthy run = true) as Ht by (by apply truthy_true).
  destruct Hv as [-> | ->];
    unfold ArticleAnalyzer.match_url, ArticleAnalyzer.match_rest,
      ArticleAnalyzer.strip_prefix; simpl; rewrite ?drop_0, Hr, Ht; done.
Qed.

Lemma remove_urls_skip s : remove_urls (length s) s = [].
Proof. induction s as [|c s IH]; [done|]. simpl. exact IH. Qed.

Lemma remove_urls_whole v : url_shape v -> remove_urls 0 v = [].
Proof.
  intros H. pose proof (match_url_complete v H) as E.
  destruct v as [|c v]; [done|]. cbn [remove_urls]. rewrite E.
  simpl. apply remove_urls_skip.
Qed.

Lemma clean_text_url v : url_shape v -> clean_text_for_audio unicode_alnum v = [].
Proof. intros H. unfold clean_text_for_audio. by rewrite remove_urls_whole. Qed.

End CleanText.

Section UrlOnlyText.
Variable creatable : str -> bool.
Variable default_audio_file : str.
Variable briefing_beside : str -> str.
Variable chunk_path : nat -> str.
Variable elevenlabs_chunk_path : nat -> str.
Variable unicode_alnum : char -> bool.
Variable openai_speech : nat -> str -> option (list byte).
Variable elevenlabs_speech : nat -> str -> option (list byte).

Lemma split_no_space s cur :
  Forall (fun c => is_space c = false) s ->
  split_aux (u ". ") 0 cur s = [rev cur ++ s].
Proof.
  revert cur. induction s as [|c s IH]; intros cur H.
  - simpl. by rewrite app_nil_r.
  - apply Forall_cons in H as [Hc H]. cbn [split_aux].
    assert (starts_with (u ". ") (c :: s) = false) as ->.
    { destruct s as [|d s]; cbn [starts_with u List.map list_ascii_of_string].
      - by destruct (_ =? c)%N.
      - apply Forall_cons in H as [Hd _].
        destruct (_ =? c)%N; [|done].
        change (N_of_ascii " ") with 32%N.
        destruct (N.eqb_spec 32 d) as [<-|]; done. }
    rewrite IH by done. simpl. by rewrite <- app_assoc.
Qed.

Lemma url_shape_stop v : url_shape v -> url_shape (v ++ [46%N]).
Proof.
  intros (run & Hv & Hne & Hrun). exists (run ++ [46%N]). split; [|split].
  - destruct Hv as [-> | ->]; [left | right]; by rewrite <- app_assoc.
  - by destruct run.
  - apply Forall_app. split; [done|]. by apply Forall_singleton.
Qed.

Lemma strip_sentence v :
  Forall (fun c => is_space c = false) v -> strip (v ++ u ". ") = v ++ [46%N].
Proof.
  intros H. unfold strip, rstrip.
  rewrite (lstrip_fixed (v ++ u ". ")).
  - rewrite rev_app_distr. simpl. by rewrite rev_involutive.
  - destruct H; simpl; done.
Qed.

Local Abbreviation run_long :=
  (AudioGenerator.generate_audio_from_long_text creatable default_audio_file
     briefing_beside chunk_path elevenlabs_chunk_path
     (Helpers.clean_text_for_audio unicode_alnum) openai_speech elevenlabs_speech).

(** X8. A text that is one URL is refused by
    [generate_audio_from_long_text] with ValueError "Text cannot be
    empty", for either provider and whatever its length: cleaning
    removes the URL, and nothing is synthesized or written. *)
Theorem url_only_text_is_rejected :
  forall (tts_provider : str) (v : str) (output_file : option str) (w : World),
    url_shape v ->
    run_long tts_provider v output_file w
    = (Raise (ValueError (u "Text cannot be empty")), w).
Proof.
  intros tts_provider v output_file w Hv.
  pose proof (clean_text_url unicode_alnum v Hv) as Hclean.
  unfold AudioGenerator.generate_audio_from_long_text.
  destruct (AudioGenerator.is_elevenlabs tts_provider) eqn:Hp.
  - unfold AudioGenerator.elevenlabs_generate_audio, ElevenLabsTTS.generate_audio.
    by rewrite Hclean.
  - destruct (AudioGenerator.validate_text_length tts_provider v) eqn:Hlen.
    + unfold AudioGenerator.generate_audio. rewrite Hp.
      unfold AudioGenerator._generate_openai_audio. by rewrite Hclean.
    + unfold AudioGenerator.validate_text_length in Hlen. rewrite Hp in Hlen.
      apply negb_false_iff in Hlen. apply Z.gtb_lt in Hlen.
      pose proof (url_shape_no_space v Hv) as Hns.
      assert (AudioGenerator.split_long_text tts_provider v None = [v ++ [46%N]]) as ->.
      { unfold AudioGenerator.split_long_text. rewrite Hp.
        destruct (Z.leb_spec (len v) 4000); [lia|].
        unfold split. rewrite split_no_space by done. cbn [fold_left rev app].
        unfold AudioGenerator.sentence_step.
        destruct (Z.leb_spec (len ([] ++ v ++ u ". ")) 4000) as [Hl|_].
        { rewrite app_nil_l, len_app in Hl. pose proof (len_nonneg (u ". ")). lia. }
        cbn [truthy]. rewrite (inked_truthy _ (sentence_inked v)).
        by rewrite strip_sentence. }
      cbn [AudioGenerator.generate_chunks]. unfold AudioGenerator.generate_audio.
      rewrite Hp. unfold AudioGenerator._generate_openai_audio.
      by rewrite (clean_text_url unicode_alnum _ (url_shape_stop v Hv)).
Qed.

End UrlOnlyText.

Lemma url_only_text_is_rejected_witness :
  url_shape (u "https://example.com/report")
  /\ AudioGenerator.generate_audio_from_long_text (fun _ => true) (u "daily_briefing.mp3")
       (fun _ => u "daily_briefing.mp3") FailingSpeech.chunk_path FailingSpeech.chunk_path
       (Helpers.clean_text_for_audio (fun _ => false)) FailingSpeech.second_fails
       FailingSpeech.second_fails (u "openai") (u "https://example.com/report") None
       FailingSpeech.start
     = (Raise (ValueError (u "Text cannot be empty")), FailingSpeech.start).
Proof.
  assert (H : url_shape (u "https://example.com/report")).
  { exists (u "example.com/report"). split; [by right|]. split; [done|].
    repeat (apply Forall_cons; split; [done|]). apply Forall_nil_2. }
  split; [exact H|].
  exact (url_only_text_is_rejected _ _ _ _ _ _ _ _ (u "openai") _ None FailingSpeech.start H).
Defined.

(* ================================================================== *)
(** ** Enhancer: budget and trimming *)
(* ================================================================== *)

Section EnhancerBudget.
Import ArticleEnhancer.

Lemma per_article_budget_range model n :
  if ModelManager.should_apply_token_limits model
  then 120 <= _calculate_per_article_budget model n <= 180
  else 0 <= _calculate_per_article_budget model n <= 1000.
Proof.
  unfold _calculate_per_article_budget. cbv zeta. change (10600 - 800) with 9800.
  destruct (ModelManager.should_apply_token_limits model); cbn [negb].
  - destruct (Z.leb_spec n 60); [lia|].
    assert (9800 / n <= 163); [|lia].
    apply Z.lt_succ_r, Z.div_lt_upper_bound; lia.
  - assert (0 <= 8000 / Z.max 1 n) by (apply Z.div_pos; lia). lia.
Qed.

(** X9. The per-article summary budget. For a model with token limits it
    lies between 120 and 180, is 180 up to 60 articles and 120 from 81
    articles on, and beyond 60 articles the budgets of all articles sum
    to at most 9800 tokens or 120 per article. For a Gemini model it
    lies between 0 and 1000, is 1000 up to 8 articles and 0 beyond 8000
    articles, and the budgets sum to at most 8000. In both cases the
    budget does not grow with the number of articles. *)
Theorem per_article_budget_bounds :
  forall (model : str) (n n' : Z),
    let b := _calculate_per_article_budget model n in
    (ModelManager.should_apply_token_limits model = true ->
       120 <= b <= 180
       /\ (n <= 60 -> b = 180)
       /\ (81 <= n -> b = 120)
       /\ (60 < n -> n * b <= Z.max 9800 (120 * n)))
    /\ (ModelManager.should_apply_token_limits model = false ->
          0 <= b <= 1000
          /\ (n <= 8 -> b = 1000)
          /\ (8000 < n -> b = 0)
          /\ (1 <= n -> n * b <= 8000))
    /\ (n <= n' -> _calculate_per_article_budget model n' <= b).
Proof.
  intros model n n' b. subst b. unfold _calculate_per_article_budget.
  cbv zeta. change (10600 - 800) with 9800.
  destruct (ModelManager.should_apply_token_limits model); cbn [negb].
  - split; [intros _|split; [done|]].
    + destruct (Z.leb_spec n 60).
      * repeat split; try lia.
      * assert (0 <= 9800 / n <= 163).
        { split; [apply Z.div_pos; lia|].
          apply Z.lt_succ_r, Z.div_lt_upper_bound; lia. }
        pose proof (Z.mul_div_le 9800 n ltac:(lia)).
        split; [lia|]. split; [lia|]. split.
        -- intros Hn. assert (9800 / n < 121); [|lia].
           apply Z.div_lt_upper_bound; lia.
        -- intros _. destruct (Z.max_spec 120 (9800 / n)) as [[_ ->]|[_ ->]]; lia.
    + intros Hn.
      destruct (Z.leb_spec n 60), (Z.leb_spec n' 60); try lia.
      * assert (9800 / n' <= 163); [|lia].
        apply Z.lt_succ_r, Z.div_lt_upper_bound; lia.
      * assert (9800 / n' <= 9800 / n); [|lia].
        apply Z.div_le_compat_l; lia.
  - split; [done|]. split; [intros _|].
    + assert (0 <= 8000 / Z.max 1 n) by (apply Z.div_pos; lia).
      repeat split; try lia.
      * intros Hn. assert (1000 <= 8000 / Z.max 1 n); [|lia].
        apply Z.div_le_lower_bound; lia.
      * intros Hn. rewrite Z.div_small by lia. lia.
      * intros Hn. rewrite Z.max_r by lia.
        pose proof (Z.mul_div_le 8000 n ltac:(lia)). nia.
    + intros Hn.
      assert (8000 / Z.max 1 n' <= 8000 / Z.max 1 n); [|lia].
      apply Z.div_le_compat_l; lia.
Qed.

End EnhancerBudget.

Section EnhancerTrim.
Import ArticleEnhancer.
Variable encode : str -> option (list N).
Variable model : str.

Lemma rfind_from_found c s i :
  0 <= i ->
  rfind_from c i s = -1
  \/ exists k : nat, rfind_from c i s = i + Z.of_nat k /\ s !! k = Some c.
Proof.
  revert i. induction s as [|d s IH]; intros i Hi; [by left|].
  cbn [rfind_from].
  destruct (IH (i + 1) ltac:(lia)) as [E|(k & E & Hk)].
  - rewrite E. cbn. destruct (N.eqb_spec d c) as [->|]; [|by left].
    right. exists 0%nat. split; [lia|done].
  - rewrite E. destruct (Z.leb_spec 0 (i + 1 + Z.of_nat k)); [|lia].
    right. exists (S k). split; [lia|done].
Qed.

Lemma rfind_found c s :
  0 <= rfind c s -> s !! Z.to_nat (rfind c s) = Some c.
Proof.
  unfold rfind. intros H.
  destruct (rfind_from_found c s 0 ltac:(lia)) as [E|(k & E & Hk)]; [lia|].
  rewrite E. by replace (Z.to_nat (0 + Z.of_nat k)) with k by lia.
Qed.

Lemma last_take_lookup {A} (l : list A) k x :
  l !! k = Some x -> last (take (S k) l) = Some x.
Proof.
  intros H. rewrite last_lookup.
  pose proof (lookup_lt_Some _ _ _ H).
  rewrite length_take. replace (Init.Nat.pred (S k `min` length l)) with k by lia.
  rewrite lookup_take_lt by lia. done.
Qed.

(** X10. [_trim_article_content] returns a prefix of the content: the
    content itself for a model without token limits or when it is within
    [max_article_tokens]; otherwise at most 20000 characters, either the
    first 20000 or a cut just after a full stop beyond character
    16000. *)
Theorem trim_article_content_prefix :
  forall (content : str),
    let r := _trim_article_content encode model content in
    r `prefix_of` content
    /\ (ModelManager.should_apply_token_limits model = false -> r = content)
    /\ (_count_tokens encode model content <= max_article_tokens -> r = content)
    /\ (ModelManager.should_apply_token_limits model = true ->
        max_article_tokens < _count_tokens encode model content ->
        len r <= 20000
        /\ (r = slice_to 20000 content \/ 16000 < len r /\ last r = Some 46%N)).
Proof.
  intros content r. subst r. unfold _trim_article_content.
  destruct (ModelManager.should_apply_token_limits model); cbn [negb].
  2: { repeat split; try done. }
  destruct (Z.leb_spec (_count_tokens encode model content) max_article_tokens).
  { split; [done|]. split; [done|]. split; [done|]. intros _ ?. lia. }
  change (max_article_tokens * 4) with 20000.
  set (trimmed_content := slice_to 20000 content).
  assert (trimmed_content = take (Z.to_nat 20000) content) as Ht.
  { unfold trimmed_content. by rewrite slice_to_take by lia. }
  assert (len trimmed_content <= 20000) as Hlen.
  { rewrite Ht. unfold len. rewrite length_take. lia. }
  clearbody trimmed_content.
  destruct (Z.gtb_spec (10 * rfind 46%N trimmed_content) (8 * 20000)) as [Hp|Hp].
  - rewrite slice_to_take by lia.
    pose proof (rfind_found 46%N trimmed_content ltac:(lia)) as Hk.
    pose proof (lookup_lt_Some _ _ _ Hk) as Hlt.
    replace (Z.to_nat (rfind 46%N trimmed_content + 1))
      with (S (Z.to_nat (rfind 46%N trimmed_content))) by lia.
    split; [|split; [done|split; [intros; lia|]]].
    + etrans; [apply prefix_take|]. rewrite Ht. apply prefix_take.
    + intros _ _. split.
      * unfold len, char in *. rewrite length_take. lia.
      * right. split; [|by apply last_take_lookup].
        unfold len. rewrite length_take. unfold char in *. lia.
  - split; [rewrite Ht; apply prefix_take|]. split; [done|]. split; [intros; lia|].
    intros _ _. split; [done|by left].
Qed.

End EnhancerTrim.

(* ================================================================== *)
(** ** Enhancer: page fetch and cache *)
(* ================================================================== *)

Section EnhancerFetch.
Import ArticleEnhancer.
Variable http_get : nat -> str -> option str.
Variable trafilatura_extract : str -> result (option str).
Variable newspaper_parse : str -> str -> result Parsed.

Lemma len_join_last sep parts x : len x <= len (join sep (parts ++ [x])).
Proof.
  induction parts as [|p parts IH]; [simpl; lia|].
  change ((p :: parts) ++ [x]) with (p :: (parts ++ [x])).
  rewrite join_cons by (by destruct parts). rewrite !len_app.
  pose proof (len_nonneg p). pose proof (len_nonneg sep). lia.
Qed.

(** X11. [_fetch_article_content] makes exactly one page request, for the
    given URL, leaves the summary table alone, and a text it returns is
    longer than 100 characters. *)
Theorem fetch_article_content_shape :
  forall (url_ : str) (w : World),
    let r := _fetch_article_content http_get trafilatura_extract newspaper_parse url_ w in
    events r.2 = events w ++ [Fetch url_]
    /\ rows r.2 = rows w
    /\ match r.1 with
       | Some text => 100 < len text
       | None => True
       end.
Proof.
  intros url_ w r. subst r. unfold _fetch_article_content.
  destruct (http_get _ _) as [html|]; [|done].
  destruct (trafilatura_extract html) as [extracted|]; [|done].
  destruct (truthy (Dict.get extracted []) && _) eqn:E.
  - apply andb_true_iff in E as [E1 E2]. split; [done|]. split; [done|].
    destruct extracted as [text|]; [|done]. cbn [fst Dict.get default] in *.
    apply Z.gtb_lt in E2. pose proof (len_strip text). unfold str, char, Datatypes.id in *. lia.
  - destruct (newspaper_parse url_ html) as [article|]; [|done].
    destruct (truthy (p_text article) && _) eqn:E'; [|done].
    apply andb_true_iff in E' as [_ E2]. split; [done|]. split; [done|].
    cbn [fst]. apply Z.gtb_lt in E2. pose proof (len_strip (p_text article)).
    rewrite !app_assoc.
    pose proof (len_join_last [10; 10]%N
      (((if truthy (p_title article) then [u "Title: " ++ p_title article] else [])
        ++ (if truthy (p_authors article)
            then [u "Author: " ++ join (u ", ") (p_authors article)] else []))
       ++ match p_publish_date article with Some d => [u "Date: " ++ d] | None => [] end)
      (u "Content: " ++ p_text article)) as Hj.
    rewrite len_app in Hj. pose proof (len_nonneg (u "Content: ")).
    unfold str, char in *. lia.
Qed.

End EnhancerFetch.

Section EnhancerCache.
Import ArticleEnhancer.
Variable sha256_hex : str -> str.
Variable now : nat -> Z.
Variable db_raises : nat -> bool.

Local Abbreviation lookup := (_get_cached_summary sha256_hex now db_raises).
Local Abbreviation store := (_cache_summary sha256_hex now db_raises).

(** X12. A summary stored with [_cache_summary] is what
    [_get_cached_summary] returns for the same URL, when the database
    works at both operations and the lookup falls within the freshness
    window of the store; the rows of URLs with another hash are left as
    they were. *)
Theorem cached_summary_round_trip :
  forall (url_ summary_ : str) (max_age_hours : Z) (w : World),
    db_raises (S (length (events w))) = false ->
    db_raises (S (length (events w) + 2)) = false ->
    now (length (events w) + 2)%nat - hours max_age_hours < now (length (events w)) ->
    (lookup url_ max_age_hours (store url_ summary_ w)).1 = Some summary_
    /\ forall other : str,
         sha256_hex other <> sha256_hex url_ ->
         rows (store url_ summary_ w) !! sha256_hex other = rows w !! sha256_hex other.
Proof.
  intros url_ summary_ max_age_hours w Hw Hr Hfresh.
  destruct (store_world sha256_hex now db_raises url_ summary_ w) as [He Hrows].
  rewrite Hw in Hrows. split.
  - destruct (cached_lookup_cases sha256_hex now db_raises url_ max_age_hours
                (store url_ summary_ w)) as [E _].
    rewrite E, He, length_app. cbn [length]. rewrite Hr, Hrows, lookup_insert_eq.
    cbn [fetched_at row_summary].
    by destruct (Z.gtb_spec (now (length (events w)))
                   (now (length (events w) + 2)%nat - hours max_age_hours)); [|lia].
  - intros other Hother. rewrite Hrows. by rewrite lookup_insert_ne.
Qed.

End EnhancerCache.

Lemma cached_summary_round_trip_witness :
  Outside.db_raises 1 = false
  /\ (ArticleEnhancer._get_cached_summary Outside.sha256_hex Outside.now Outside.db_raises
        (u "https://news.example/breach") 24
        (ArticleEnhancer._cache_summary Outside.sha256_hex Outside.now Outside.db_raises
           (u "https://news.example/breach") (u "A brief.") Outside.start)).1
     = Some (u "A brief.").
Proof.
  split; [done|].
  apply (cached_summary_round_trip Outside.sha256_hex Outside.now Outside.db_raises
           (u "https://news.example/breach") (u "A brief.") 24 Outside.start);
    by vm_compute.
Defined.

(* ================================================================== *)
(** ** Enhancer: records and requests *)
(* ================================================================== *)

Section EnhancerRecords.
Import ArticleEnhancer.
Variable sha256_hex : str -> str.
Variable now : nat -> Z.
Variable db_raises : nat -> bool.
Variable uuid4_hex : nat -> str.
Variable http_get : nat -> str -> option str.
Variable chat_api : nat -> str -> str -> Z -> option str.
Variable trafilatura_extract : str -> result (option str).
Variable newspaper_parse : str -> str -> result Parsed.
Variable encode : str -> option (list N).
Variable model : str.

Local Abbreviation enhance :=
  (enhance_article sha256_hex now db_raises uuid4_hex http_get chat_api
     trafilatura_extract newspaper_parse encode model).
Local Abbreviation enhance_all :=
  (enhance_articles sha256_hex now db_raises uuid4_hex http_get chat_api
     trafilatura_extract newspaper_parse encode model).

(** X13. When the generative backend raises at every call and an article
    with a URL goes through generation with the database working, the
    failure placeholder becomes its summary and is stored in the cache;
    a second enhancement while that row is fresh returns the placeholder
    with [enhancement_method = "cache"] and calls neither the page fetch
    nor the backend: the failure is served from the cache. *)
Theorem failed_generation_is_cached :
  forall (budget1 budget2 : Z) (a : Article) (w : World),
    (forall n sp up mt, chat_api n sp up mt = None) ->
    truthy (url_of a) = true ->
    let r1 := enhance budget1 a w in
    enhancement_method r1.1 = Some (u "gpt_generated") ->
    db_raises (length (events r1.2) - 1)%nat = false ->
    now (length (events r1.2)) - hours 24 < now (length (events r1.2) - 2)%nat ->
    db_raises (S (length (events r1.2))) = false ->
    let r2 := enhance budget2 r1.1 r1.2 in
    summary r1.1 = Some failure_placeholder
    /\ rows r1.2 !! sha256_hex (url_of a)
       = Some (mkRow (url_of a) failure_placeholder (now (length (events r1.2) - 2)%nat))
    /\ enhancement_method r2.1 = Some (u "cache")
    /\ summary r2.1 = Some failure_placeholder
    /\ network_calls r2.2 = network_calls r1.2.
Proof.
  intros b1 b2 a w Hdown Hurl r1 Hm Hw Hfresh Hr r2.
  destruct (enhance_article_cases sha256_hex now db_raises uuid4_hex http_get chat_api
              trafilatura_extract newspaper_parse encode model b1 a w)
    as (Hu1 & _ & [i Hid1] & Hc1).
  fold r1 in Hu1, Hid1, Hc1. rewrite Hurl in Hc1.
  assert (Hfirst : summary r1.1 = Some failure_placeholder
            /\ rows r1.2 !! sha256_hex (url_of a)
               = Some (mkRow (url_of a) failure_placeholder
                         (now (length (events r1.2) - 2)%nat))).
  { destruct Hc1 as [row _ _ _ _ _ _ Hm0 _ _ | _ _ _ Hm0 _ _ | s _ Hs Hsum _ _ _ Hrows _].
    - rewrite Hm0 in Hm. vm_compute in Hm. discriminate Hm.
    - rewrite Hm0 in Hm. vm_compute in Hm. discriminate Hm.
    - destruct Hs as [->|(n & sp & up & mt & raw & Hraw & _)].
      + split; [done|]. rewrite Hrows, Hw. apply lookup_insert_eq.
      + by rewrite Hdown in Hraw. }
  destruct Hfirst as [Hsum1 Hrow1]. split; [done|]. split; [done|].
  destruct (enhance_article_cases sha256_hex now db_raises uuid4_hex http_get chat_api
              trafilatura_extract newspaper_parse encode model b2 r1.1 r1.2)
    as (_ & _ & _ & Hc2).
  fold r2 in Hc2. rewrite Hu1, Hurl in Hc2.
  assert (Hidx : lookup_index r1.1 r1.2 = length (events r1.2)).
  { unfold lookup_index. rewrite Hid1. lia. }
  assert (Hne : failure_placeholder <> []) by done.
  destruct Hc2 as [row' Hrow' _ _ _ Hsum _ Hm2 _ Hnet | Hmiss | s Hmiss].
  - rewrite Hu1, Hrow1 in Hrow'. injection Hrow' as <-. done.
  - exfalso. apply Hne.
    apply (Hmiss _ ltac:(rewrite Hu1; exact Hrow1)); rewrite ?Hidx; done.
  - exfalso. apply Hne.
    apply (Hmiss _ ltac:(rewrite Hu1; exact Hrow1)); rewrite ?Hidx; done.
Qed.

Lemma setters_keep_fields a b :
  collected_fields_kept a b ->
  forall s1 s2 e,
    collected_fields_kept a
      (Dict.set_enhancement_method s1 (Dict.set_enhanced e (Dict.set_summary s2 b))).
Proof. intros H s1 s2 e. exact H. Qed.

Lemma with_id_keeps_fields a w : collected_fields_kept a (with_id uuid4_hex a w).1.
Proof.
  unfold with_id, collected_fields_kept. destruct (id a) as [i|] eqn:E; cbn [fst].
  - rewrite E. by repeat split.
  - repeat split; try done. all: by intros [? ?].
Qed.

Lemma enhance_article_keeps_fields budget a w :
  collected_fields_kept a (enhance budget a w).1.
Proof.
  unfold enhance_article. fold (with_id uuid4_hex a w).
  pose proof (with_id_keeps_fields a w) as H.
  destruct (with_id uuid4_hex a w) as [a0 w0]. cbn [fst] in H.
  destruct (truthy (Dict.get (url a0) [])); cbn [negb]; [|done].
  destruct (_get_cached_summary _ _ _ _ _ _) as [c w1].
  destruct (truthy (Dict.get c [])); [by apply setters_keep_fields|].
  destruct (_fetch_article_content _ _ _ _ _) as [content w2].
  destruct (truthy (Dict.get content [])); cbn [negb]; [|by apply setters_keep_fields].
  destruct (_generate_gpt_summary _ _ _ _ _) as [s w3]. cbn [fst]. exact H.
Qed.

(** X14. [enhance_articles] returns one article per input article, in
    order, with every collected field unchanged and with an identifier,
    the article's own when it had one. *)
Theorem enhance_articles_keeps_fields :
  forall (articles : list Article) (w : World),
    Forall2 collected_fields_kept articles (enhance_all articles w).1.
Proof.
  intros articles w. unfold enhance_articles.
  destruct (truthy articles) eqn:Ha; cbn [negb].
  - eapply Forall2_impl; [apply enhance_loop_each|].
    intros a b (w0 & w1 & E).
    pose proof (enhance_article_keeps_fields
                  (_calculate_per_article_budget model (len articles)) a w0) as H.
    by rewrite E in H.
  - apply truthy_false in Ha. subst. constructor.
Qed.

Lemma generate_gpt_summary_event text budget w :
  (_generate_gpt_summary chat_api model text budget w).2
  = emit (Chat (summary_system_prompt budget)
            (u "Article text:" ++ [10%N] ++ u "---" ++ [10%N] ++ text)
            (ModelManager.effective_max_tokens model budget)) w.
Proof. unfold _generate_gpt_summary. by destruct (chat_api _ _ _ _). Qed.

Lemma enhance_article_events budget a w :
  exists es,
    events (enhance budget a w).2 = events w ++ es
    /\ Forall (chat_capped (ModelManager.effective_max_tokens model budget)) es.
Proof.
  unfold enhance_article. fold (with_id uuid4_hex a w).
  assert (exists es0, events (with_id uuid4_hex a w).2 = events w ++ es0
                      /\ Forall (chat_capped (ModelManager.effective_max_tokens model budget)) es0)
    as (es0 & He0 & Hc0).
  { unfold with_id. destruct (id a).
    - exists []. by rewrite app_nil_r.
    - exists [Uuid]. split; [done|]. by repeat constructor. }
  destruct (with_id uuid4_hex a w) as [a0 w0]. cbn [snd] in He0.
  destruct (truthy (Dict.get (url a0) [])); cbn [negb]; [|by exists es0].
  pose proof (get_cached_summary_events sha256_hex now db_raises (Dict.get (url a0) []) 24 w0)
    as He1.
  destruct (_get_cached_summary _ _ _ _ _ _) as [c w1]. cbn [snd] in He1.
  destruct (truthy (Dict.get c [])).
  { exists (es0 ++ [Clock; DbRead (sha256_hex (Dict.get (url a0) []))]). cbn [snd].
    rewrite He1, He0, <- app_assoc. split; [done|].
    apply Forall_app. split; [done|]. by repeat constructor. }
  pose proof (fetch_world http_get trafilatura_extract newspaper_parse
                (Dict.get (url a0) []) w1) as He2.
  destruct (_fetch_article_content _ _ _ _ _) as [content w2]. cbn [snd] in He2.
  destruct (truthy (Dict.get content [])); cbn [negb].
  2:{ exists (es0 ++ [Clock; DbRead (sha256_hex (Dict.get (url a0) []))]
              ++ [Fetch (Dict.get (url a0) [])]). cbn [snd].
      rewrite He2. cbn [emit events]. rewrite He1, He0, <- !app_assoc. split; [done|].
      apply Forall_app. split; [done|]. by repeat constructor. }
  pose proof (generate_gpt_summary_event
                (_trim_article_content encode model (Dict.get content [])) budget w2) as He3.
  destruct (_generate_gpt_summary _ _ _ _ _) as [s w3]. cbn [snd] in He3.
  destruct (store_world sha256_hex now db_raises (Dict.get (url a0) []) s w3) as [He4 _].
  cbn [snd]. rewrite He4, He3. cbn [emit events]. rewrite He2. cbn [emit events].
  rewrite He1, He0, <- !app_assoc.
  eexists. split; [done|].
  apply Forall_app. split; [done|]. by repeat constructor.
Qed.

Lemma enhance_loop_events budget articles w :
  exists es,
    events (enhance_loop sha256_hex now db_raises uuid4_hex http_get chat_api
              trafilatura_extract newspaper_parse encode model budget articles w).2
    = events w ++ es
    /\ Forall (chat_capped (ModelManager.effective_max_tokens model budget)) es.
Proof.
  revert w. induction articles as [|a l IH]; intros w; cbn [enhance_loop].
  - exists []. by rewrite app_nil_r.
  - destruct (enhance_article_events budget a w) as (es1 & E1 & H1).
    destruct (enhance budget a w) as [b w1]. cbn [snd] in E1.
    destruct (IH w1) as (es2 & E2 & H2).
    destruct (enhance_loop _ _ _ _ _ _ _ _ _ _ _ l w1) as [rest w2]. cbn [snd] in *.
    exists (es1 ++ es2). rewrite E2, E1, <- app_assoc. split; [done|].
    by apply Forall_app.
Qed.

(** X15. Every request to the generative backend made during one
    [enhance_articles] carries the same output cap, the effective
    maximum for the per-article budget of the run: 12000 for [gemini],
    6000 for [gemini-flash], and the budget itself, between 120 and
    180, for a model with token limits. *)
Theorem summary_requests_capped :
  forall (articles : list Article) (w : World),
    let budget := _calculate_per_article_budget model (len articles) in
    let cap := ModelManager.effective_max_tokens model budget in
    (exists es,
       events (enhance_all articles w).2 = events w ++ es
       /\ Forall (chat_capped cap) es)
    /\ (model = u "gemini" -> cap = 12000)
    /\ (model = u "gemini-flash" -> cap = 6000)
    /\ (ModelManager.should_apply_token_limits model = true ->
        cap = budget /\ 120 <= cap <= 180).
Proof.
  intros articles w budget cap. split; [|split; [|split]].
  - unfold enhance_articles. destruct (truthy articles); cbn [negb].
    + apply enhance_loop_events.
    + exists []. by rewrite app_nil_r.
  - intros ->. subst cap budget.
    pose proof (per_article_budget_range (u "gemini") (len articles)) as H.
    change (ModelManager.should_apply_token_limits (u "gemini")) with false in H.
    cbv beta iota in H.
    unfold ModelManager.effective_max_tokens.
    change (str_eqb (u "gemini") (u "gemini")) with true. cbn [andb].
    by destruct (Z.ltb_spec (_calculate_per_article_budget (u "gemini") (len articles)) 8000);
      [|lia].
  - intros ->. subst cap budget.
    pose proof (per_article_budget_range (u "gemini-flash") (len articles)) as H.
    change (ModelManager.should_apply_token_limits (u "gemini-flash")) with false in H.
    cbv beta iota in H.
    unfold ModelManager.effective_max_tokens.
    change (str_eqb (u "gemini-flash") (u "gemini")) with false.
    change (str_eqb (u "gemini-flash") (u "gemini-flash")) with true. cbn [andb].
    by destruct (Z.ltb_spec (_calculate_per_article_budget (u "gemini-flash") (len articles))
                   4000); [|lia].
  - intros Hlim. subst cap budget.
    pose proof (per_article_budget_range model (len articles)) as Hb.
    rewrite Hlim in Hb.
    assert (ModelManager.effective_max_tokens model
              (_calculate_per_article_budget model (len articles))
            = _calculate_per_article_budget model (len articles)) as ->; [|done].
    unfold ModelManager.effective_max_tokens.
    unfold ModelManager.should_apply_token_limits, ModelManager.is_gemini, str_in in Hlim.
    cbn [existsb] in Hlim. apply negb_true_iff in Hlim.
    rewrite orb_false_r in Hlim. apply orb_false_iff in Hlim as [H1 H2].
    by rewrite H1, H2.
Qed.

End EnhancerRecords.

Section EnhancerRecordExamples.
Import ArticleEnhancer Outside.

Lemma failed_generation_is_cached_witness :
  let r1 := ArticleEnhancer.enhance_article sha256_hex now db_raises uuid4_hex
              (fun _ _ => page) (fun _ _ _ _ => None) trafilatura_extract
              newspaper_parse encode model 180 article start in
  let r2 := ArticleEnhancer.enhance_article sha256_hex now db_raises uuid4_hex
              (fun _ _ => page) (fun _ _ _ _ => None) trafilatura_extract
              newspaper_parse encode model 180 r1.1 r1.2 in
  summary r1.1 = Some failure_placeholder
  /\ rows r1.2 !! sha256_hex (url_of article)
     = Some (mkRow (url_of article) failure_placeholder (now (length (events r1.2) - 2)%nat))
  /\ enhancement_method r2.1 = Some (u "cache")
  /\ summary r2.1 = Some failure_placeholder
  /\ network_calls r2.2 = network_calls r1.2.
Proof.
  apply (failed_generation_is_cached sha256_hex now db_raises uuid4_hex
    (fun _ _ => page) (fun _ _ _ _ => None) trafilatura_extract newspaper_parse
    encode model 180 180 article start).
  - reflexivity.
  - reflexivity.
  - vm_compute. reflexivity.
  - reflexivity.
  - vm_compute. reflexivity.
  - reflexivity.
Defined.

End EnhancerRecordExamples.

(* ================================================================== *)
(** ** Collector: the collected articles *)
(* ================================================================== *)

Section CollectedArticles.
Import NewsCollector.

Lemma elem_of_flat_map {A B} (f : A -> list B) l b :
  b ∈ flat_map f l <-> exists a, a ∈ l /\ b ∈ f a.
Proof.
  rewrite list_elem_of_In, in_flat_map. split; intros (a & H1 & H2); exists a;
    by rewrite ?list_elem_of_In in *.
Qed.

Lemma search_news_clean q r a :
  a ∈ search_news q r ->
  (exists t, title a = Some t /\ trimmed t)
  /\ (exists s, snippet a = Some s /\ trimmed s)
  /\ is_Some (url a) /\ is_Some (source a) /\ is_Some (date a)
  /\ query a = Some q
  /\ relevance_score a = None /\ id a = None /\ summary a = None.
Proof.
  unfold search_news. destruct r as [items|]; [|by intros ?%elem_of_nil].
  intros (item & _ & H)%elem_of_flat_map. cbn [title snippet Dict.get default] in H.
  unfold Datatypes.id in H.
  destruct (truthy (strip (Dict.get (raw_title item) []))
            && truthy (strip (Dict.get (raw_snippet item) []))) eqn:E;
    [|by apply elem_of_nil in H].
  apply list_elem_of_singleton in H as ->. apply andb_true_iff in E as [E1 E2].
  cbn. split_and!; try done; try (by eexists); eexists; (split; [done|]);
    by apply strip_is_trimmed.
Qed.

Lemma slice_to_subseteq {A} n (l : list A) x : x ∈ slice_to n l -> x ∈ l.
Proof. unfold slice_to. destruct (0 <=? n); apply subseteq_take. Qed.

Lemma tag_query_tagged dorks max i q articles a :
  a ∈ tag_query dorks max i q articles ->
  exists a0, a0 ∈ articles
    /\ a = Dict.set_search_mode (if dorks then u "google_dorks" else u "basic_keywords")
             (Dict.set_category (category_for dorks i) (Dict.set_search_query q a0)).
Proof.
  unfold tag_query. intros H. apply list_elem_of_In, in_map_iff in H as (a0 & <- & H).
  apply list_elem_of_In in H. exists a0. split; [|done].
  destruct (dorks && truthy articles); [by eapply slice_to_subseteq | done].
Qed.

Lemma merge_queries_origin dorks max i searches a :
  a ∈ merge_queries dorks max i searches ->
  exists (j : nat) q r,
    searches !! j = Some (q, r)
    /\ a ∈ tag_query dorks max (i + j) q (search_news q r).
Proof.
  revert i. induction searches as [|[q r] rest IH]; intros i; cbn [merge_queries].
  - by intros ?%elem_of_nil.
  - intros [H|H]%elem_of_app.
    + exists 0%nat, q, r. split; [done|]. by rewrite Nat.add_0_r.
    + destruct (IH _ H) as (j & q' & r' & Hj & Ha).
      exists (S j), q', r'. split; [done|]. by rewrite <- Nat.add_succ_comm.
Qed.

(** X16. Every article [collect_daily_news] returns has a title and a
    snippet that are non-empty and without whitespace at either end, a
    non-empty URL, a source and a date, names in [query] and
    [search_query] the query that found it, carries the category of that
    query's position and the search mode, and has no score, identifier
    or summary yet. *)
Theorem collected_articles_are_complete :
  forall (is_google_dorks : bool) (max_per_category : Z)
         (searches : list (str * option (list RawItem))),
    Forall (collected_from is_google_dorks searches)
      (collect_daily_news is_google_dorks max_per_category searches).
Proof.
  intros dorks max searches. apply Forall_forall. intros a Ha.
  unfold collect_daily_news in Ha.
  destruct (unique_by_url_fresh ∅ (merge_queries dorks max 0 searches)) as [_ Hurl].
  rewrite Forall_forall in Hurl. destruct (Hurl a Ha) as [_ Hne].
  pose proof (unique_by_url_sublist ∅ (merge_queries dorks max 0 searches)) as Hsub.
  apply (sublist_subseteq _ _ Hsub) in Ha.
  apply merge_queries_origin in Ha as (j & q & r & Hj & Ha).
  apply tag_query_tagged in Ha as (a0 & Ha0 & ->).
  destruct (search_news_clean q r a0 Ha0) as (Ht & Hs & [v Hv] & Hso & Hd & Hq & Hr & Hi & Hsum).
  unfold collected_from. split_and!; try done.
  - exists v. split; [done|]. unfold url_of in Hne. cbn in Hne. by rewrite Hv in Hne.
  - by exists j, q, r.
Qed.

(** X17. In Google-dorks mode with a cap per category that is not
    negative, the collector returns at most cap times the number of
    queries articles. *)
Theorem google_dorks_cap :
  forall (max_per_category : Z) (searches : list (str * option (list RawItem))),
    0 <= max_per_category ->
    len (collect_daily_news true max_per_category searches)
    <= max_per_category * len searches.
Proof.
  intros max searches Hmax. unfold collect_daily_news.
  assert (forall i, len (merge_queries true max i searches) <= max * len searches) as Hm.
  { induction searches as [|[q r] rest IH]; intros i; cbn [merge_queries].
    - unfold len. simpl. lia.
    - rewrite len_app. specialize (IH (S i)).
      assert (len (tag_query true max i q (search_news q r)) <= max) as Ht.
      { unfold tag_query, len. rewrite length_map. cbn [andb].
        destruct (search_news q r) as [|a l]; [simpl; lia|]. cbn [truthy].
        rewrite slice_to_take by done. rewrite length_take. lia. }
      unfold len in *. rewrite length_cons. lia. }
  pose proof (sublist_length _ _
                (unique_by_url_sublist ∅ (merge_queries true max 0 searches))) as Hl.
  specialize (Hm 0%nat). unfold len in *. lia.
Qed.

End CollectedArticles.

Lemma google_dorks_cap_witness :
  0 <= 1
  /\ len (NewsCollector.collect_daily_news true 1 Scenarios.searches)
     <= 1 * len Scenarios.searches.
Proof.
  split; [lia|]. apply (google_dorks_cap 1 Scenarios.searches). lia.
Defined.

(* ================================================================== *)
(** ** Analyzer: grouping and the emergency fallback *)
(* ================================================================== *)

Section Grouping.
Import ArticleAnalyzer.

Lemma filter_none {A} (f : A -> bool) l :
  (forall x, x ∈ l -> f x = false) -> List.filter f l = [].
Proof.
  induction l as [|x l IH]; intros H; [done|]. simpl.
  rewrite (H x) by (by left). apply IH. intros y Hy. apply H. by right.
Qed.

Lemma in_bucket_true c a : in_bucket c a = true <-> bucket_of a = c.
Proof. unfold in_bucket. apply str_eqb_eq. Qed.

Lemma in_bucket_false c a : in_bucket c a = false <-> bucket_of a <> c.
Proof. unfold in_bucket, str_eqb. apply bool_decide_eq_false. Qed.

Lemma add_to_bucket_keys c a groups :
  (add_to_bucket c a groups).*1
  = if bool_decide (c ∈ groups.*1) then groups.*1 else groups.*1 ++ [c].
Proof.
  induction groups as [|[k l] groups IH]; [done|]. cbn [add_to_bucket].
  unfold str_eqb. destruct (bool_decide_reflect (k = c)) as [->|Hk].
  - cbn. rewrite bool_decide_eq_true_2; [done|by left].
  - cbn. rewrite IH. destruct (bool_decide_reflect (c ∈ groups.*1)) as [Hc|Hc].
    + rewrite bool_decide_eq_true_2; [done|by right].
    + rewrite bool_decide_eq_false_2; [done|].
      intros [?|?]%elem_of_cons; [by subst|done].
Qed.

Lemma add_to_bucket_forall (P Q : str * list Article -> Prop) c a groups :
  NoDup groups.*1 -> Forall P groups ->
  (forall k l, k <> c -> P (k, l) -> Q (k, l)) ->
  (forall l, P (c, l) -> Q (c, l ++ [a])) ->
  (c ∉ groups.*1 -> Q (c, [a])) ->
  Forall Q (add_to_bucket c a groups).
Proof.
  intros Hnd Hall Hother Hsame Hnew.
  induction groups as [|[k l] groups IH]; cbn [add_to_bucket].
  - apply Forall_singleton, Hnew, not_elem_of_nil.
  - apply Forall_cons in Hall as [Hp Hall]. apply NoDup_cons in Hnd as [Hk Hnd].
    unfold str_eqb. destruct (bool_decide_reflect (k = c)) as [->|Hkc].
    + apply Forall_cons. split; [by apply Hsame|].
      apply Forall_forall. intros [k' l'] Hin.
      rewrite Forall_forall in Hall. apply Hother; [|by apply Hall].
      intros ->. apply Hk. apply list_elem_of_fmap. by exists (c, l').
    + apply Forall_cons. split; [by apply Hother|].
      apply IH; try done. intros Hc. apply Hnew.
      intros [?|?]%elem_of_cons; [by subst|done].
Qed.

Lemma add_to_bucket_perm c a groups :
  Permutation (all_articles (add_to_bucket c a groups)) (a :: all_articles groups).
Proof.
  unfold all_articles. induction groups as [|[k l] groups IH]; cbn [add_to_bucket].
  - done.
  - destruct (str_eqb k c); cbn [flat_map snd].
    + rewrite <- app_assoc. symmetry. apply Permutation_middle.
    + rewrite IH. symmetry. apply Permutation_middle.
Qed.

Lemma add_to_bucket_bucketed seen a groups :
  bucketed seen groups ->
  bucketed (seen ++ [a]) (add_to_bucket (bucket_of a) a groups).
Proof.
  intros (Hnd & Hall & Hcov & Hperm). unfold bucketed.
  rewrite add_to_bucket_keys. split; [|split; [|split]].
  - destruct (bool_decide_reflect (bucket_of a ∈ groups.*1)) as [Hc|Hc]; [done|].
    apply NoDup_app. split; [done|]. split; [|apply NoDup_singleton].
    intros x Hx ->%list_elem_of_singleton. done.
  - eapply add_to_bucket_forall; [done|exact Hall|..].
    + intros k l Hk [Hne Hl]. cbn [fst snd] in *. split; [done|].
      rewrite List.filter_app, <- Hl. cbn [List.filter].
      rewrite (proj2 (in_bucket_false k a)) by done. by rewrite app_nil_r.
    + intros l [Hne Hl]. cbn [fst snd] in *. split; [by destruct l|].
      rewrite List.filter_app, <- Hl. cbn [List.filter].
      by rewrite (proj2 (in_bucket_true (bucket_of a) a)).
    + intros Hc. cbn [fst snd]. split; [done|].
      rewrite List.filter_app. cbn [List.filter].
      rewrite (proj2 (in_bucket_true (bucket_of a) a)) by done.
      rewrite filter_none; [done|]. intros b Hb. apply in_bucket_false.
      intros E. apply Hc. rewrite <- E. by apply Hcov.
  - intros b [Hb| ->%list_elem_of_singleton]%elem_of_app.
    + specialize (Hcov b Hb).
      destruct (bool_decide (bucket_of a ∈ groups.*1)); [done|].
      apply elem_of_app. by left.
    + destruct (bool_decide_reflect (bucket_of a ∈ groups.*1)); [done|].
      apply elem_of_app. right. by apply list_elem_of_singleton.
  - rewrite add_to_bucket_perm, Hperm. apply Permutation_cons_append.
Qed.

Lemma group_fold_bucketed l seen groups :
  bucketed seen groups ->
  bucketed (seen ++ l)
    (fold_left (fun categories article =>
       add_to_bucket (Dict.get (category article) (u "Uncategorized")) article categories)
       l groups).
Proof.
  revert seen groups. induction l as [|a l IH]; intros seen groups H.
  - by rewrite app_nil_r.
  - cbn [fold_left]. rewrite (cons_middle a seen l), app_assoc.
    apply IH. by apply add_to_bucket_bucketed.
Qed.

Lemma group_articles_bucketed articles :
  bucketed articles (_group_articles_by_category articles).
Proof.
  apply (group_fold_bucketed articles [] []).
  split; [apply NoDup_nil_2|]. split; [apply Forall_nil_2|]. split; [|done].
  by intros a ?%elem_of_nil.
Qed.

(** X18. [_group_articles_by_category] partitions the articles: the
    category keys are distinct, each bucket is non-empty and holds
    exactly the articles of its category (a missing category counts as
    "Uncategorized") in input order, the category of every article has a
    bucket, and the buckets together are a permutation of the
    input. *)
Theorem group_articles_by_category_partition :
  forall (articles : list Article),
    let groups := _group_articles_by_category articles in
    NoDup groups.*1
    /\ Forall (fun g => g.2 <> [] /\ g.2 = List.filter (in_bucket g.1) articles) groups
    /\ (forall a, a ∈ articles -> bucket_of a ∈ groups.*1)
    /\ Permutation (all_articles groups) articles.
Proof. intros articles. exact (group_articles_bucketed articles). Qed.

Lemma head_filter_find {A} (f : A -> bool) l : head (List.filter f l) = List.find f l.
Proof. induction l as [|x l IH]; [done|]. simpl. by destruct (f x). Qed.

Lemma emergency_fallback_fold groups content selected :
  (fold_left (fun (st : str * list Article) (bucket : str * list Article) =>
     match snd bucket with
     | [] => st
     | article :: _ =>
         (fst st ++ u "**" ++ fst bucket ++ u ":** "
            ++ Dict.get (title article) (u "No title") ++ nl,
          snd st ++ [article])
     end) groups (content, selected)).2
  = selected ++ flat_map (fun g => option_list (head g.2)) groups.
Proof.
  revert content selected. induction groups as [|[k l] groups IH]; intros content selected.
  - simpl. by rewrite app_nil_r.
  - cbn [fold_left snd fst flat_map]. destruct l as [|a l].
    + by rewrite IH.
    + rewrite IH. cbn. by rewrite <- app_assoc.
Qed.

Lemma emergency_fallback_selected groups :
  (_emergency_fallback_analysis groups).2
  = flat_map (fun g => option_list (head g.2)) groups.
Proof.
  unfold _emergency_fallback_analysis.
  pose proof (emergency_fallback_fold groups (u "## Emergency Analysis Summary" ++ nl ++ nl) [])
    as H.
  destruct (fold_left _ groups _) as [content selected]. exact H.
Qed.

Lemma first_of_each_bucket articles groups :
  Forall (fun g => g.2 <> [] /\ g.2 = List.filter (in_bucket g.1) articles) groups ->
  bucket_of <$> flat_map (fun g => option_list (head g.2)) groups = groups.*1
  /\ Forall (fun a => List.find (in_bucket (bucket_of a)) articles = Some a)
       (flat_map (fun g => option_list (head g.2)) groups).
Proof.
  induction groups as [|[k l] groups IH]; intros H; [done|].
  apply Forall_cons in H as [[Hne Hl] H]. cbn [fst snd] in *.
  destruct (IH H) as [IH1 IH2]. cbn [flat_map snd].
  destruct l as [|a l]; [done|]. cbn [head option_list app].
  assert (List.find (in_bucket k) articles = Some a) as Hfind.
  { rewrite <- head_filter_find, <- Hl. done. }
  assert (bucket_of a = k) as Hk.
  { apply find_some in Hfind as [_ Hk]. by apply in_bucket_true. }
  split.
  - cbn. by rewrite Hk, IH1.
  - apply Forall_cons. split; [by rewrite Hk|done].
Qed.

(** X19. The emergency fallback selects, for each category of the grouped
    articles and in bucket order, the first article of that category in
    the input: one article per category, no category twice, no category
    left out. *)
Theorem emergency_fallback_first_of_each_category :
  forall (articles : list Article),
    let groups := _group_articles_by_category articles in
    let selected := (_emergency_fallback_analysis groups).2 in
    bucket_of <$> selected = groups.*1
    /\ NoDup (bucket_of <$> selected)
    /\ Forall (fun a => List.find (in_bucket (bucket_of a)) articles = Some a) selected
    /\ (forall a, a ∈ articles -> bucket_of a ∈ bucket_of <$> selected).
Proof.
  intros articles groups selected. subst selected groups.
  destruct (group_articles_bucketed articles) as (Hnd & Hall & Hcov & _).
  set (groups := _group_articles_by_category articles) in *.
  rewrite emergency_fallback_selected.
  destruct (first_of_each_bucket articles groups Hall) as [H1 H2].
  rewrite H1. done.
Qed.

End Grouping.

(* ================================================================== *)
(** ** Analyzer: the analysis request *)
(* ================================================================== *)

Section AnalysisRequests.
Import ArticleAnalyzer.
Variable encode : str -> option (list N).
Variable load_prompt : str -> attempt str.
Variable format_prompt : str -> str -> attempt str.
Variable chat_api : nat -> request -> str + str.

Local Abbreviation analyze :=
  (analyze_articles_by_category encode load_prompt format_prompt chat_api).

Lemma dynamic_limits_values model sp up :
  _calculate_dynamic_limits encode (__init__ model) model sp up
  = (max_message_tokens (__init__ model),
     if ModelManager.should_apply_token_limits model then 2000 else 8000).
Proof.
  unfold _calculate_dynamic_limits.
  destruct (init_cases model) as [[-> ->] | [-> ->]];
    cbv zeta; cbn [max_context_tokens max_message_tokens min_completion_tokens];
    by vm_compute.
Qed.

Lemma effective_completion model :
  ModelManager.effective_max_tokens model
    (if ModelManager.should_apply_token_limits model then 2000 else 8000)
  = if ModelManager.should_apply_token_limits model then 2000 else 8000.
Proof.
  unfold ModelManager.effective_max_tokens, ModelManager.should_apply_token_limits,
    ModelManager.is_gemini, str_in. cbn [existsb].
  destruct (str_eqb model (u "gemini")), (str_eqb model (u "gemini-flash")); done.
Qed.

(** X20. An analyzer built for the selected model sends at most one
    request per analysis, and a request it sends fits the model: its two
    messages are within the message budget, messages and output cap
    together are within the context window, and the output cap is 2000
    with token limits and 8000 without. *)
Theorem analysis_request_within_window :
  forall (model : str) (articles : list Article) (requests : list request),
    let self := __init__ model in
    let r := analyze self model articles requests in
    r.2 = requests
    \/ exists request_,
         r.2 = requests ++ [request_]
         /\ message_tokens encode model request_ <= max_message_tokens self
         /\ message_tokens encode model request_ + req_max_tokens request_
            <= max_context_tokens self
         /\ req_max_tokens request_
            = if ModelManager.should_apply_token_limits model then 2000 else 8000.
Proof.
  intros model articles requests self r. subst r self.
  unfold analyze_articles_by_category.
  destruct (truthy articles); cbn [negb]; [|by left].
  destruct (load_prompt _) as [sp|]; [|by left].
  rewrite dynamic_limits_values.
  destruct (_trim_articles_to_fit _ _ _ _ _) as [formatted|]; [|by left].
  destruct (format_prompt _ _) as [up|]; [|by left].
  rewrite effective_completion.
  destruct (Z.gtb_spec (_count_tokens encode model sp + _count_tokens encode model up)
              (max_message_tokens (__init__ model))) as [|Hfit]; [by left|].
  right. eexists. split.
  { by destruct (chat_api _ _). }
  unfold message_tokens. cbn [req_system req_user req_max_tokens].
  split; [done|]. split; [|done].
  destruct (init_cases model) as [[E ->] | [E ->]]; rewrite E in *;
    cbn [max_context_tokens max_message_tokens] in *; lia.
Qed.

(** X21. Whatever the backend answers, the articles an analysis selects
    are articles of the input, unchanged (emergency fallback) or flagged
    [selected_for_podcast]; nothing else is ever selected. *)
Theorem analysis_selects_input_articles :
  forall (self : t) (model : str) (articles : list Article) (requests : list request),
    match (analyze self model articles requests).1 with
    | Done (_, selected) =>
        Forall (fun b => exists a, a ∈ articles
                  /\ (b = a \/ b = Dict.set_selected_for_podcast true a)) selected
    | Failed _ => True
    end.
Proof.
  intros self model articles requests. unfold analyze_articles_by_category.
  destruct (truthy articles); cbn [negb fst]; [|done].
  destruct (load_prompt _) as [sp|]; [|done].
  destruct (_calculate_dynamic_limits _ _ _ _ _) as [m c].
  destruct (_trim_articles_to_fit _ _ _ _ _) as [formatted|]; [|done].
  destruct (format_prompt _ _) as [up|]; [|done].
  destruct (group_articles_bucketed articles) as (_ & Hall & _ & Hperm).
  set (groups := _group_articles_by_category articles) in *.
  destruct (_ >? _).
  - cbn [fst].
    pose proof (emergency_fallback_selected groups) as E.
    destruct (_emergency_fallback_analysis groups) as [text selected]. cbn [snd] in E.
    subst selected. apply Forall_forall. intros b Hb.
    exists b. split; [|by left]. rewrite <- Hperm. unfold all_articles.
    apply elem_of_flat_map in Hb as (g & Hg & Hb). apply elem_of_flat_map.
    exists g. split; [done|]. destruct (g.2) as [|a l]; [by apply elem_of_nil in Hb|].
    apply list_elem_of_singleton in Hb as ->. by left.
  - destruct (chat_api _ _) as [answer|message]; cbn [fst]; [|done].
    apply Forall_forall. intros b Hb.
    unfold _extract_selected_articles, Py.sort in Hb.
    rewrite (sort_by_perm get_category_order _), selection_flat in Hb.
    apply list_elem_of_In, in_map_iff in Hb as (a & <- & Ha).
    apply filter_In in Ha as [Ha _]. apply list_elem_of_In in Ha.
    exists a. split; [by rewrite <- Hperm|by right].
Qed.

End AnalysisRequests.

(* ================================================================== *)
(** ** Analyzer: summary trimming; configuration validation *)
(* ================================================================== *)

Section TrimSummary.
Import ArticleAnalyzer.
Variable encode : str -> option (list N).

Lemma slice_to_prefix {A} n (l : list A) : slice_to n l `prefix_of` l.
Proof. unfold slice_to. destruct (0 <=? n); apply prefix_take. Qed.

Lemma len_slice_to {A} n (l : list A) : 0 <= n -> len (slice_to n l) <= n.
Proof. intros H. rewrite slice_to_take by done. unfold len. rewrite length_take. lia. Qed.

(** X22. The trimming of one summary in [_trim_articles_to_fit]: a summary
    within the target stays as it is; a longer one becomes a prefix of
    itself, of at most 4 * target characters, followed by
    "... [trimmed]"; the only failure is the OverflowError of the
    product with 0.7 when 4 * target is too large for a float. *)
Theorem trimmed_summary_shape :
  forall (model : str) (target_tokens_per_article : Z) (summary_ : str),
    let tokens := _count_tokens encode model summary_ in
    match trim_summary encode model target_tokens_per_article summary_ with
    | Done shown =>
        tokens <= target_tokens_per_article /\ shown = summary_
        \/ target_tokens_per_article < tokens
           /\ exists kept,
                kept `prefix_of` summary_
                /\ shown = kept ++ u "... [trimmed]"
                /\ (0 <= target_tokens_per_article ->
                    len kept <= 4 * target_tokens_per_article)
    | Failed e =>
        e = Exc.OverflowError /\ target_tokens_per_article < tokens
    end.
Proof.
  intros model target summary_ tokens. subst tokens. unfold trim_summary.
  destruct (Z.gtb_spec (_count_tokens encode model summary_) target) as [Hgt|Hle];
    [|by left].
  set (cut := slice_to (target * 4) summary_).
  assert (Hcut : cut `prefix_of` summary_) by apply slice_to_prefix.
  assert (Hlen : 0 <= target -> len cut <= 4 * target).
  { intros H. pose proof (len_slice_to (target * 4) summary_ ltac:(lia)). unfold cut. lia. }
  assert (Hshape : forall kept, kept = cut \/ kept = slice_to (rfind 46%N cut + 1) cut ->
            kept `prefix_of` summary_ /\ (0 <= target -> len kept <= 4 * target)).
  { intros kept [->| ->]; [done|]. split.
    - etrans; [apply slice_to_prefix|done].
    - intros H. specialize (Hlen H).
      pose proof (prefix_length _ _ (slice_to_prefix (rfind 46%N cut + 1) cut)).
      unfold len in *. lia. }
  destruct (PyFloat.of_int (target * 4)) eqn:E; try (by split);
    right; (split; [done|]); eexists; (split; [|split; [reflexivity|]]);
    match goal with
    | |- context [if ?b then _ else _] => destruct b
    end; apply Hshape; auto.
Qed.

End TrimSummary.

Section Validation.

(** X23. With the model [gemini-flash] selected, [Config.validate] does
    not read the OpenRouter key: its result is the same whatever that
    key is, and it passes only with an OpenAI key; yet the client the
    model manager builds for that model is keyed with the OpenRouter
    key. *)
Theorem flash_validation_reads_openai_key :
  forall (accepts : ManagerState.client -> bool) (cls : Config.t) (key : option str),
    Config.SELECTED_MODEL cls = u "gemini-flash" ->
    Config.validate
      (Config.mk (Config.OPENAI_API_KEY cls) key (Config.SERPER_API_KEY cls)
         (Config.ELEVEN_LABS_API_KEY cls) (Config.SELECTED_MODEL cls)
         (Config.TTS_PROVIDER cls))
    = Config.validate cls
    /\ (Config.validate cls = Ok true -> Config.missing (Config.OPENAI_API_KEY cls) = false)
    /\ forall self',
         ManagerState._setup_client accepts cls ManagerState.__init__ = (Done (), self') ->
         ManagerState.api_key <$> ManagerState.client_ self'
         = Some (Config.OPEN_ROUTER_API_KEY cls).
Proof.
  intros accepts cls key Hm. split; [|split].
  - unfold Config.validate. cbn [Config.SELECTED_MODEL Config.OPEN_ROUTER_API_KEY
      Config.OPENAI_API_KEY Config.TTS_PROVIDER Config.ELEVEN_LABS_API_KEY
      Config.SERPER_API_KEY]. by rewrite Hm.
  - unfold Config.validate. rewrite Hm.
    change (str_eqb (u "gemini-flash") (u "gemini")) with false. cbv iota.
    destruct (Config.missing (Config.OPENAI_API_KEY cls)); [done|done].
  - intros self'. unfold ManagerState._setup_client, ManagerState._configure_for_model.
    rewrite Hm. cbn.
    destruct (accepts _); intros [= <-]; done.
Qed.

End Validation.

Lemma flash_validation_reads_openai_key_witness :
  let cls := Config.mk (Some (u "sk-openai")) None (Some (u "serper")) None
               (u "gemini-flash") (u "openai") in
  Config.validate cls = Ok true
  /\ Config.missing (Config.OPEN_ROUTER_API_KEY cls) = true
  /\ forall self',
       ManagerState._setup_client (fun _ => true) cls ManagerState.__init__ = (Done (), self') ->
       ManagerState.api_key <$> ManagerState.client_ self'
       = Some (Config.OPEN_ROUTER_API_KEY cls).
Proof.
  intros cls. split; [done|]. split; [done|].
  apply (flash_validation_reads_openai_key (fun _ => true) cls None). done.
Defined.

(* ================================================================== *)
(** ** utils/model_manager.py: the manager *)
(* ================================================================== *)

Section Manager.
Import ManagerState.
Variable accepts : client -> bool.

Lemma in_gemini_profile m c : in_gemini (profile m c) = ModelManager.is_gemini m.
Proof.
  unfold in_gemini, profile, ModelManager.is_gemini, str_in, str_eqb. cbn [model existsb].
  rewrite orb_false_r. f_equal; apply bool_decide_ext; split; congruence.
Qed.

Lemma setup_client_cases cls self :
  _setup_client accepts cls self
  = if bool_decide (model self = Some (Config.SELECTED_MODEL cls)) then (Done (), self)
    else if accepts (client_for cls)
    then (Done (), profile (Config.SELECTED_MODEL cls) (client_for cls))
    else (Failed Exc.OpenAIError,
          mk (Some (Config.SELECTED_MODEL cls)) (model_name self) (max_input_tokens self)
             (max_output_tokens self) (client_ self)).
Proof.
  unfold _setup_client.
  destruct (bool_decide (model self = Some (Config.SELECTED_MODEL cls))); [done|].
  unfold _configure_for_model, client_for, profile, model_name_of,
    ModelManager.is_gemini, ModelManager.max_input_tokens, ModelManager.max_output_tokens,
    str_in, str_eqb.
  cbn [model existsb model_name max_input_tokens max_output_tokens client_].
  destruct (bool_decide_reflect (Some (Config.SELECTED_MODEL cls) = Some (u "gemini")))
    as [[= E]|E].
  - rewrite E. rewrite !bool_decide_eq_true_2 by done. cbn. by destruct (accepts _).
  - rewrite (bool_decide_eq_false_2 (Config.SELECTED_MODEL cls = u "gemini")) by congruence.
    destruct (bool_decide_reflect
                (Some (Config.SELECTED_MODEL cls) = Some (u "gemini-flash"))) as [[= E']|E'].
    + rewrite E'. rewrite !bool_decide_eq_true_2 by done. cbn. by destruct (accepts _).
    + rewrite (bool_decide_eq_false_2 (Config.SELECTED_MODEL cls = u "gemini-flash"))
        by congruence.
      cbn. by destruct (accepts _).
Qed.

Lemma setup_client_done cls self self' :
  settled self -> _setup_client accepts cls self = (Done (), self') ->
  exists c, self' = profile (Config.SELECTED_MODEL cls) c.
Proof.
  intros Hs. rewrite setup_client_cases.
  destruct (bool_decide_reflect (model self = Some (Config.SELECTED_MODEL cls))) as [E|E].
  - intros [= <-]. destruct Hs as [->|(m & c & ->)]; [done|].
    cbn in E. injection E as ->. by exists c.
  - destruct (accepts _); intros [= <-]. by eexists.
Qed.

(** X24. When the client constructor accepts the key of the selected
    model, a manager that is fresh or configured for any model sets
    itself up for the selected one and answers with its values: the
    token estimate, whether limits apply, and the context and output
    limits. *)
Theorem manager_answers_for_selected_model :
  forall (cls : Config.t) (self : t) (text : str),
    settled self ->
    accepts (client_for cls) = true ->
    let m := Config.SELECTED_MODEL cls in
    (exists c, _setup_client accepts cls self = (Done (), profile m c))
    /\ (count_tokens_estimate accepts cls text self).1
       = Done (ModelManager.count_tokens_estimate m text)
    /\ (should_apply_token_limits accepts cls self).1
       = Done (ModelManager.should_apply_token_limits m)
    /\ (get_max_context_tokens accepts cls self).1
       = Done (Some (ModelManager.get_max_context_tokens m))
    /\ (get_max_output_tokens accepts cls self).1
       = Done (Some (ModelManager.max_output_tokens m)).
Proof.
  intros cls self text Hs Hacc m.
  assert (exists c, _setup_client accepts cls self = (Done (), profile m c)) as [c E].
  { destruct (_setup_client accepts cls self) as [[[]|e] self'] eqn:E.
    - destruct (setup_client_done cls self self' Hs E) as [c ->]. by exists c.
    - rewrite setup_client_cases in E.
      destruct (bool_decide _); [done|]. by rewrite Hacc in E. }
  split; [by exists c|].
  unfold count_tokens_estimate, should_apply_token_limits, get_max_context_tokens,
    get_max_output_tokens. rewrite E. cbn [fst]. rewrite in_gemini_profile.
  done.
Qed.

(** X25. When the selected model changes and the client constructor
    raises, the manager has already recorded the new model: the next
    calls do not retry the set-up and answer with the context and output
    limits of the previous model, while [should_apply_token_limits]
    answers for the new one. *)
Theorem failed_client_leaves_stale_limits :
  forall (cls : Config.t) (previous : str) (c : client),
    previous <> Config.SELECTED_MODEL cls ->
    accepts (client_for cls) = false ->
    let r := _setup_client accepts cls (profile previous c) in
    r.1 = Failed Exc.OpenAIError
    /\ model r.2 = Some (Config.SELECTED_MODEL cls)
    /\ get_max_context_tokens accepts cls r.2
       = (Done (Some (ModelManager.max_input_tokens previous)), r.2)
    /\ get_max_output_tokens accepts cls r.2
       = (Done (Some (ModelManager.max_output_tokens previous)), r.2)
    /\ should_apply_token_limits accepts cls r.2
       = (Done (ModelManager.should_apply_token_limits (Config.SELECTED_MODEL cls)), r.2).
Proof.
  intros cls previous c Hm Hacc r. subst r.
  rewrite setup_client_cases.
  rewrite bool_decide_eq_false_2 by (cbn; congruence). rewrite Hacc. cbn [fst snd model].
  split; [done|]. split; [done|].
  unfold get_max_context_tokens, get_max_output_tokens, should_apply_token_limits,
    _setup_client. cbn [model]. rewrite bool_decide_eq_true_2 by done.
  split; [done|]. split; [done|].
  f_equal. f_equal.
  unfold in_gemini, ModelManager.should_apply_token_limits, ModelManager.is_gemini,
    str_in, str_eqb. cbn [model existsb]. rewrite orb_false_r.
  f_equal. f_equal; apply bool_decide_ext; split; congruence.
Qed.

End Manager.

Lemma manager_answers_for_selected_model_witness :
  let cls := Config.mk (Some (u "sk-openai")) (Some (u "sk-or")) (Some (u "serper")) None
               (u "gemini") (u "openai") in
  settled ManagerState.__init__
  /\ (ManagerState.get_max_context_tokens (fun _ => true) cls ManagerState.__init__).1
     = Done (Some 1048576).
Proof.
  intros cls.
  assert (H : settled ManagerState.__init__) by (by left).
  split; [exact H|].
  apply (manager_answers_for_selected_model (fun _ => true) cls ManagerState.__init__ [] H).
  done.
Defined.

Lemma failed_client_leaves_stale_limits_witness :
  let cls := Config.mk (Some (u "sk-openai")) None (Some (u "serper")) None
               (u "gemini") (u "openai") in
  let c := ManagerState.mkClient (Some (u "sk-openai")) None in
  let r := ManagerState._setup_client (fun _ => false) cls (profile (u "openai") c) in
  r.1 = Failed Exc.OpenAIError
  /\ ManagerState.get_max_context_tokens (fun _ => false) cls r.2 = (Done (Some 8192), r.2).
Proof.
  intros cls c r.
  destruct (failed_client_leaves_stale_limits (fun _ => false) cls (u "openai") c)
    as (H1 & _ & H2 & _); [done|done|].
  split; [exact H1|exact H2].
Defined.

(* ================================================================== *)
(** ** utils/search_config_loader.py: keyword files *)
(* ================================================================== *)

Section KeywordFiles.
Import SearchConfigLoader.

Lemma keywords_of_clean lines : Forall keyword_line (keywords_of lines).
Proof.
  unfold keywords_of. apply Forall_forall. intros k (line & _ & Hk)%elem_of_flat_map.
  destruct (truthy (strip line)) eqn:Ht; [|by apply elem_of_nil in Hk].
  destruct (starts_with (u "#") (strip line)) eqn:Hc; [by apply elem_of_nil in Hk|].
  apply list_elem_of_singleton in Hk as ->. split; [by apply strip_is_trimmed|done].
Qed.

(** X26. Loading a keyword list that is not cached: on success every
    keyword is non-empty, has no whitespace at either end and does not
    start with [#], and the list is cached under its name; a missing
    file raises FileNotFoundError and an unreadable one RuntimeError,
    the loader left as it was. *)
Theorem loaded_keywords_are_clean :
  forall (fs : files) (config_name : str) (self : t),
    _cache self !! config_name = None ->
    match load_keywords_list fs config_name self with
    | (Done keywords, self') =>
        Forall keyword_line keywords
        /\ _cache self' !! config_name = Some keywords
        /\ exists text, keyword_files fs config_name = Some (Some text)
    | (Failed e, self') =>
        self' = self
        /\ (e = Exc.FileNotFoundError /\ keyword_files fs config_name = None
            \/ e = Exc.RuntimeError /\ keyword_files fs config_name = Some None)
    end.
Proof.
  intros fs name self Hc. unfold load_keywords_list. rewrite Hc.
  destruct (keyword_files fs name) as [[text|]|].
  - split; [apply keywords_of_clean|]. split; [apply lookup_insert_eq|by eexists].
  - split; [done|by right].
  - split; [done|by left].
Qed.

(** X27. After a successful load, loading the same name again answers
    from the cache, whatever the files now are and without changing the
    loader; after [reload_config] with that (non-empty) name or
    [clear_cache], the next load reads the file again, with the errors
    of a missing or unreadable file. *)
Theorem keyword_cache_round_trip :
  forall (fs fs' : files) (config_name : str) (self self' : t) (keywords : list str),
    load_keywords_list fs config_name self = (Done keywords, self') ->
    load_keywords_list fs' config_name self' = (Done keywords, self')
    /\ (truthy config_name = true ->
        (load_keywords_list fs' config_name (reload_config (Some config_name) self')).1
        = match keyword_files fs' config_name with
          | None => Failed Exc.FileNotFoundError
          | Some None => Failed Exc.RuntimeError
          | Some (Some text) => Done (keywords_of (readlines text))
          end)
    /\ (load_keywords_list fs' config_name (clear_cache self')).1
       = match keyword_files fs' config_name with
         | None => Failed Exc.FileNotFoundError
         | Some None => Failed Exc.RuntimeError
         | Some (Some text) => Done (keywords_of (readlines text))
         end.
Proof.
  intros fs fs' name self self' kws H.
  assert (_cache self' !! name = Some kws) as Hc.
  { unfold load_keywords_list in H. destruct (_cache self !! name) as [k|] eqn:E.
    - injection H as <- <-. done.
    - destruct (keyword_files fs name) as [[text|]|]; [|done|done].
      injection H as <- <-. apply lookup_insert_eq. }
  split; [|split].
  - unfold load_keywords_list. by rewrite Hc.
  - intros Ht. unfold reload_config, load_keywords_list.
    change (default [] (Some name)) with name. rewrite Ht.
    cbn [_cache]. rewrite lookup_delete_eq.
    by destruct (keyword_files fs' name) as [[text|]|].
  - unfold clear_cache, load_keywords_list. cbn [_cache]. rewrite lookup_empty.
    by destruct (keyword_files fs' name) as [[text|]|].
Qed.

End KeywordFiles.

Lemma loaded_keywords_are_clean_witness :
  let text := u "# feeds" ++ [10%N] ++ u "  zero day " ++ [10%N] ++ [10%N] in
  let fs := SearchConfigLoader.mkFiles None (fun _ => Some (Some text)) in
  SearchConfigLoader._cache SearchConfigLoader.__init__ !! u "basic-keywords" = None
  /\ exists keywords self',
       SearchConfigLoader.load_keywords_list fs (u "basic-keywords")
         SearchConfigLoader.__init__ = (Done keywords, self')
       /\ Forall keyword_line keywords
       /\ SearchConfigLoader._cache self' !! u "basic-keywords" = Some keywords.
Proof.
  intros text fs. split; [done|].
  pose proof (loaded_keywords_are_clean fs (u "basic-keywords")
                SearchConfigLoader.__init__ eq_refl) as H.
  destruct (SearchConfigLoader.load_keywords_list fs (u "basic-keywords")
              SearchConfigLoader.__init__) as [[keywords|e] self'].
  - exists keywords, self'. by destruct H as (? & ? & _).
  - by destruct H as (_ & [[_ H]|[_ H]]).
Defined.

Lemma keyword_cache_round_trip_witness :
  let text := u "# feeds" ++ [10%N] ++ u "  zero day " ++ [10%N] in
  let fs := SearchConfigLoader.mkFiles None (fun _ => Some (Some text)) in
  let gone := SearchConfigLoader.mkFiles None (fun _ => None) in
  let r := SearchConfigLoader.load_keywords_list fs (u "google-dorks")
             SearchConfigLoader.__init__ in
  r.1 = Done [u "zero day"]
  /\ SearchConfigLoader.load_keywords_list gone (u "google-dorks") r.2
     = (Done [u "zero day"], r.2).
Proof.
  intros text fs gone r.
  assert (H : r = (Done [u "zero day"], r.2)) by (by vm_compute).
  split; [by rewrite H|].
  apply (keyword_cache_round_trip fs gone (u "google-dorks")
           SearchConfigLoader.__init__ r.2 [u "zero day"] H).
Defined.

(* ================================================================== *)
(** ** main.py: search modes *)
(* ================================================================== *)

Section SearchModes.
Import SearchConfigLoader Main.

Lemma assoc_set_same key value fields :
  Json.assoc key (Json.assoc_set key value fields) = Some value.
Proof.
  induction fields as [|[k v] fields IH]; cbn [Json.assoc_set Json.assoc].
  - unfold str_eqb. by rewrite bool_decide_eq_true_2.
  - destruct (str_eqb k key) eqn:E; cbn [Json.assoc]; by rewrite E.
Qed.

Lemma assoc_set_other key key' value fields :
  key' <> key ->
  Json.assoc key' (Json.assoc_set key value fields) = Json.assoc key' fields.
Proof.
  intros Hne. induction fields as [|[k v] fields IH]; cbn [Json.assoc_set Json.assoc].
  - unfold str_eqb. by rewrite bool_decide_eq_false_2 by congruence.
  - destruct (str_eqb k key) eqn:E; cbn [Json.assoc]; [|by rewrite IH].
    apply str_eqb_eq in E as ->.
    unfold str_eqb. by rewrite bool_decide_eq_false_2 by congruence.
Qed.

Lemma set_enabled_read mode value params params' fallback :
  set_enabled mode value params = Done params' ->
  read_enabled params' mode fallback = Done (JBool value)
  /\ forall other fallback',
       other <> mode ->
       read_enabled params' other fallback' = read_enabled params other fallback'.
Proof.
  unfold set_enabled, read_enabled, enabled.
  destruct params as [| | | | | |fields]; try done. cbn [Json.getitem Json.get].
  destruct (Json.assoc (u "search_modes") fields) as [sm|] eqn:Esm; [|done].
  destruct sm as [| | | | | |modes]; try done. cbn [Json.getitem].
  destruct (Json.assoc mode modes) as [entry|] eqn:Eentry; [|done].
  destruct entry as [| | | | | |entry]; try done. cbn [Json.setitem].
  intros [= <-]. cbn [Json.get]. rewrite assoc_set_same, ?Esm.
  cbn [default from_option Json.get]. unfold Datatypes.id.
  split.
  - cbn [Json.get]. rewrite assoc_set_same.
    cbn [default from_option]. unfold Datatypes.id, Json.get.
    by rewrite assoc_set_same.
  - intros other fallback' Hne. cbn [Json.get]. by rewrite assoc_set_other by done.
Qed.

Lemma active_queries_keep_parameters fs cache fields r loader' :
  get_active_search_queries fs (mk cache (Some (JObject fields))) = (r, loader') ->
  _parameters loader' = Some (JObject fields).
Proof.
  unfold get_active_search_queries, load_parameters. cbn [_parameters].
  set (params := JObject fields).
  assert (Hload : forall name l r' l', load_keywords_list fs name l = (r', l') ->
                    _parameters l' = _parameters l).
  { intros name l r' l'. unfold load_keywords_list.
    destruct (_cache l !! name); [by intros [= _ <-]|].
    destruct (keyword_files fs name) as [[text|]|]; by intros [= _ <-]. }
  destruct (Json.get params _ _) as [sm|]; [|by intros [= _ <-]].
  destruct (enabled sm (u "basic_keywords") true) as [basic|]; [|by intros [= _ <-]].
  destruct (if Json.truth basic then get_basic_keywords fs (mk cache (Some params))
            else (Done [], mk cache (Some params))) as [r1 l1] eqn:E1.
  assert (_parameters l1 = Some params) as H1.
  { destruct (Json.truth basic).
    - by apply Hload in E1.
    - by injection E1 as _ <-. }
  destruct r1 as [active|]; [|by intros [= _ <-]].
  destruct (enabled sm (u "google_dorks") false) as [dorks|]; [|by intros [= _ <-]].
  destruct (Json.truth dorks); [|by intros [= _ <-]].
  destruct (get_google_dorks fs l1) as [[more|] l2] eqn:E2;
    apply Hload in E2; intros [= _ <-]; congruence.
Qed.

Lemma is_search_mode_enabled_read fs mode loader fields :
  _parameters loader = Some (JObject fields) ->
  is_search_mode_enabled fs mode loader
  = (read_enabled (JObject fields) mode false, loader).
Proof.
  intros H. unfold is_search_mode_enabled, load_parameters, read_enabled. rewrite H.
  by destruct (Json.get (JObject fields) _ _).
Qed.

Lemma set_enabled_object mode value params params' :
  set_enabled mode value params = Done params' -> exists fields, params' = JObject fields.
Proof.
  unfold set_enabled.
  destruct (Json.getitem params _) as [sm|]; [|done].
  destruct (Json.getitem sm mode) as [entry|]; [|done].
  destruct (Json.setitem entry _ _) as [entry'|]; [|done].
  destruct (Json.setitem sm mode entry') as [sm'|]; [|done].
  destruct params; try done. intros [= <-]. by eexists.
Qed.

Lemma two_assignments m1 v1 m2 v2 params params' :
  m1 <> m2 ->
  assign [(m1, v1); (m2, v2)] params = (Done (), params') ->
  (exists fields, params' = JObject fields)
  /\ read_enabled params' m1 false = Done (JBool v1)
  /\ read_enabled params' m2 false = Done (JBool v2).
Proof.
  intros Hne. cbn [assign].
  destruct (set_enabled m1 v1 params) as [p1|] eqn:E1; [|done].
  destruct (set_enabled m2 v2 p1) as [p2|] eqn:E2; [|done].
  intros [= <-].
  destruct (set_enabled_read _ _ _ _ false E1) as [H1 _].
  destruct (set_enabled_read _ _ _ _ false E2) as [H2 H2'].
  split; [by apply set_enabled_object in E2|].
  split; [|done]. by rewrite H2'.
Qed.

(** X28. After [configure_search_modes] has succeeded with one of the
    three search modes, [is_search_mode_enabled] answers what the mode
    says: [basic_keywords] is on unless the mode is [google_dorks], and
    [google_dorks] is on unless the mode is [basic_keywords]. *)
Theorem configured_modes_are_read_back :
  forall (fs : files) (search_mode : str) (loader loader' : t) (queries : list str),
    search_mode ∈ [u "basic_keywords"; u "google_dorks"; u "both"] ->
    configure_search_modes fs (Some search_mode) loader = (Done queries, loader') ->
    is_search_mode_enabled fs (u "basic_keywords") loader'
    = (Done (JBool (negb (str_eqb search_mode (u "google_dorks")))), loader')
    /\ is_search_mode_enabled fs (u "google_dorks") loader'
       = (Done (JBool (negb (str_eqb search_mode (u "basic_keywords")))), loader').
Proof.
  intros fs mode loader loader' queries Hmode. unfold configure_search_modes.
  change (default [] (Some mode)) with mode.
  assert (truthy mode = true) as ->.
  { repeat (apply elem_of_cons in Hmode as [->|Hmode]; [done|]).
    by apply elem_of_nil in Hmode. }
  destruct (load_parameters fs loader) as [[params|] loader1]; [|done].
  destruct (assign (assignments mode) params) as [[[]|] params'] eqn:E; [|done].
  assert ((exists fields, params' = JObject fields)
          /\ read_enabled params' (u "basic_keywords") false
            = Done (JBool (negb (str_eqb mode (u "google_dorks"))))
          /\ read_enabled params' (u "google_dorks") false
            = Done (JBool (negb (str_eqb mode (u "basic_keywords")))))
    as ([fields ->] & H1 & H2).
  { repeat (apply elem_of_cons in Hmode as [->|Hmode];
            [by apply (two_assignments _ _ _ _ params params')|]).
    by apply elem_of_nil in Hmode. }
  intros Hq. pose proof (active_queries_keep_parameters _ _ _ _ _ Hq) as Hp.
  by rewrite !(is_search_mode_enabled_read _ _ _ _ Hp), H1, H2.
Qed.

End SearchModes.

Lemma configured_modes_are_read_back_witness :
  let params :=
    JObject [(u "search_modes",
              JObject [(u "basic_keywords", JObject [(u "enabled", JBool true)]);
                       (u "google_dorks", JObject [(u "enabled", JBool false)])])] in
  let fs := SearchConfigLoader.mkFiles (Some (Some params))
              (fun _ => Some (Some (u "ransomware attack"))) in
  let r := Main.configure_search_modes fs (Some (u "google_dorks"))
             SearchConfigLoader.__init__ in
  r.1 = Done [u "ransomware attack"]
  /\ SearchConfigLoader.is_search_mode_enabled fs (u "google_dorks") r.2
     = (Done (JBool true), r.2).
Proof.
  intros params fs r.
  assert (H : r = (Done [u "ransomware attack"], r.2)) by (by vm_compute).
  split; [by rewrite H|].
  apply (configured_modes_are_read_back fs (u "google_dorks")
           SearchConfigLoader.__init__ r.2 [u "ransomware attack"]).
  - apply elem_of_cons. right. by left.
  - exact H.
Defined.

(* ================================================================== *)
(** ** Reassembly: the fallback to the first chunk *)
(* ================================================================== *)

Section CombineFallback.
Import Reassembly.
Variable creatable : str -> bool.
Variable default_audio_file : str.
Variable briefing_beside : str -> str.

(** X29. The tail of both chunked synthesis loops, for two or more
    chunk files when the final file cannot be opened for writing: the
    combination falls back to the path of the first chunk, and since
    that file exists the clean-up runs and deletes every chunk file, the
    returned one included. The caller gets a path that names no file;
    no other file is touched. *)
Theorem fallback_chunk_is_deleted :
  forall (audio_files : list str) (output_file : option str) (w : World),
    let first := hd [] audio_files in
    let final :=
      match output_file with
      | Some o => o
      | None => briefing_beside first
      end in
    (2 <= length audio_files)%nat ->
    creatable final = false ->
    truthy first = true ->
    is_Some (files w !! first) ->
    let r := combine_and_cleanup creatable default_audio_file briefing_beside
               audio_files output_file w in
    r.1 = Ok first
    /\ Forall (fun f => files r.2 !! f = None) audio_files
    /\ (forall f, f ∉ audio_files -> files r.2 !! f = files w !! f)
    /\ requests r.2 = requests w.
Proof.
  intros audio_files output_file w first final Hlen Hc Ht Hf r. subst r.
  unfold combine_and_cleanup.
  destruct audio_files as [|f0 [|f1 rest]]; cbn [length] in Hlen; try lia.
  cbn [_combine_audio_chunks]. unfold _simple_combine_chunks.
  cbn [hd] in *. fold first. fold final. rewrite Hc, Ht.
  rewrite bool_decide_eq_true_2 by done. cbn [andb fst snd files requests].
  split; [done|]. split; [|split; [|done]].
  - apply Forall_forall. intros f Hin. by apply cleanup_deletes.
  - intros f Hnot. by apply cleanup_keeps.
Qed.

End CombineFallback.

Lemma fallback_chunk_is_deleted_witness :
  let a := u "temp_audio_chunk_0.mp3" in
  let b := u "temp_audio_chunk_1.mp3" in
  let w := mkWorld (<[a := [x01]]> (<[b := [x02]]> ∅)) [] in
  let r := Reassembly.combine_and_cleanup (fun _ => false) (u "daily_briefing.mp3")
             (fun _ => u "daily_briefing.mp3") [a; b] None w in
  r.1 = Ok a /\ files r.2 !! a = None /\ files r.2 !! b = None.
Proof.
  intros a b w r.
  destruct (fallback_chunk_is_deleted (fun _ => false) (u "daily_briefing.mp3")
              (fun _ => u "daily_briefing.mp3") [a; b] None w) as (H1 & H2 & _).
  - simpl. lia.
  - reflexivity.
  - reflexivity.
  - by eexists.
  - split; [exact H1|]. apply Forall_cons in H2 as [Ha H2].
    apply Forall_cons in H2 as [Hb _]. by split.
Defined.

(* ================================================================== *)
(** ** Collector: the relevance ranking *)
(* ================================================================== *)

Section FilterRanking.
Import NewsCollector.
Variable lower : str -> str.

(** X30. For a maximum that is not negative, [filter_relevant_articles]
    returns at most that many articles, each an input article that
    scores at least the minimum, with its score written, in descending
    order of score; and an input article that scores at least the
    minimum is either returned or the result is full and every returned
    article scores at least as high. *)
Theorem filter_relevant_articles_top :
  forall (kws : list str) (min_relevance_score : option Z) (max_articles : Z)
         (articles : list Article),
    0 <= max_articles ->
    let min_score := Dict.get min_relevance_score 1 in
    let scored a := Dict.set_relevance_score (relevance lower kws a) a in
    let out := filter_relevant_articles lower kws min_relevance_score max_articles articles in
    len out <= max_articles
    /\ Forall (fun b => exists a, a ∈ articles /\ b = scored a
                        /\ min_score <= relevance lower kws a) out
    /\ StronglySorted (fun a b => score_of b <= score_of a) out
    /\ forall a, a ∈ articles -> min_score <= relevance lower kws a ->
         scored a ∈ out
         \/ len out = max_articles
            /\ Forall (fun b => relevance lower kws a <= score_of b) out.
Proof.
  intros kws min_relevance_score max_articles articles Hmax min_score scored out.
  destruct (filter_relevant_articles_spec lower kws min_relevance_score max_articles
              articles Hmax) as (sorted & E & Hperm & Hsorted & _).
  fold min_score in Hperm. fold out in E.
  assert (Hin : forall b, b ∈ sorted <->
            exists a, a ∈ articles /\ b = scored a /\ min_score <= relevance lower kws a).
  { intros b. rewrite Hperm, list_elem_of_In, in_map_iff. split.
    - intros (a & <- & [Ha Hs]%filter_In). exists a.
      split; [by apply list_elem_of_In|]. split; [done|]. by apply Z.geb_le in Hs.
    - intros (a & Ha & -> & Hs). exists a. split; [done|]. apply filter_In.
      split; [by apply list_elem_of_In|]. by apply Z.geb_le. }
  rewrite <- (take_drop (Z.to_nat max_articles) sorted) in Hsorted.
  destruct (proj1 (StronglySorted_app _ _ _) Hsorted) as (Hcross & Hkept & _).
  rewrite <- E in Hkept, Hcross.
  split; [|split; [|split; [done|]]].
  - rewrite E. unfold len. rewrite length_take. lia.
  - apply Forall_forall. intros b Hb. apply Hin. rewrite E in Hb.
    by apply (subseteq_take (Z.to_nat max_articles)).
  - intros a Ha Hs.
    assert (scored a ∈ sorted) as Hsa by (apply Hin; by exists a).
    rewrite <- (take_drop (Z.to_nat max_articles) sorted), <- E in Hsa.
    apply elem_of_app in Hsa as [Hsa|Hsa]; [by left|right]. split.
    + rewrite E. unfold len. rewrite length_take.
      destruct (decide (Z.to_nat max_articles <= length sorted)%nat) as [|Hn]; [lia|].
      rewrite drop_ge in Hsa by lia. by apply elem_of_nil in Hsa.
    + apply Forall_forall. intros b Hb. exact (Hcross b (scored a) Hb Hsa).
Qed.

End FilterRanking.

Lemma filter_relevant_articles_top_witness :
  0 <= 5
  /\ len (NewsCollector.filter_relevant_articles ascii_lower Scenarios.keywords
            (Some 1) 5 Scenarios.scored) <= 5.
Proof.
  split; [lia|].
  apply (filter_relevant_articles_top ascii_lower Scenarios.keywords (Some 1) 5
           Scenarios.scored). lia.
Defined.
